(** * Team membership CSV import (lms/djangoapps/teams/csv.py)

    A shallow embedding of [TeamMembershipImportManager] and of the storage
    it talks to, followed by the properties of the import run.

    The manager object ([self]) is the record [Manager]; every method takes
    the manager and returns the manager it leaves behind.  The database and
    the event sink are the record [World]; validation only reads it, the
    commit phase returns the world it leaves behind.  A Python exception
    that escapes a method is the constructor [Exc] of [result].

    The uploaded file is an [Upload]: the header and the data lines as
    [csv.DictReader] delivers them, a line that cannot be read standing
    for the exception that the reader raises when the row loop asks for
    it.  An [InputFile] is an upload that reads without trouble from its
    first line to its last. *)

From stdpp Require Import base option list gmap sets strings pretty list_numbers.
From Stdlib Require Import ZArith Ascii.

#[local] Set Warnings "-clear-no-such-hyp".

(** ** Storage: users, enrollments, teams, memberships, events *)

Record User := mkUser {
  user_id : nat;
  username : string;
  email : string }.

Record CourseTeam := mkCourseTeam {
  team_pk : nat;                (* team.id *)
  team_id : string;             (* team.team_id *)
  team_name : string;           (* team.name *)
  team_course_id : string;      (* team.course_id *)
  team_topic_id : string;       (* team.topic_id *)
  team_description : string }.

Record CourseTeamMembership := mkMembership {
  membership_user_id : nat;
  membership_team : CourseTeam }.

Record Event := mkEvent {
  event_name : string;
  event_course_id : string;
  event_team_id : string;
  event_user_id : nat;
  event_add_method : string }.

Record World := mkWorld {
  users : list User;
  enrollments : list (nat * string);
  teams : list CourseTeam;
  memberships : list CourseTeamMembership;
  events : list Event }.

#[global] Instance User_eq_dec : EqDecision User.
Proof. solve_decision. Defined.
#[global] Instance CourseTeam_eq_dec : EqDecision CourseTeam.
Proof. solve_decision. Defined.
#[global] Instance CourseTeamMembership_eq_dec : EqDecision CourseTeamMembership.
Proof. solve_decision. Defined.
#[global] Instance Event_eq_dec : EqDecision Event.
Proof. solve_decision. Defined.

(** ** Course configuration *)

(** Modelled from the spec: the declaration of the course's teams
    configuration is not part of the sources at hand.  A teamset has an
    identifier and an optional maximum team size; the configuration lists
    the teamsets and carries the course-wide [default_max_team_size] that
    csv.py reads. *)
Record Teamset := mkTeamset {
  teamset_id : string;
  max_team_size : option nat }.

Record TeamsConfig := mkTeamsConfig {
  teamsets : list Teamset;
  default_max_team_size : option nat }.

Record Course := mkCourse {
  course_id : string;
  teams_configuration : TeamsConfig }.

(** ** Collaborators *)

(** Modelled from the spec: [findUserByLogin(name) -> User|absent], the
    exact match of [User.objects.get(username=...)]. *)
Definition find_user_by_login (w : World) (name : string) : option User :=
  List.find (λ u, bool_decide (username u = name)) (users w).

(** Modelled from the spec: [findUserByEmail(email) -> User|absent], the
    exact match of [User.objects.get(email=...)]. *)
Definition find_user_by_email (w : World) (addr : string) : option User :=
  List.find (λ u, bool_decide (email u = addr)) (users w).

(** Modelled from the spec: [isEnrolled(user, courseId) -> bool]. *)
Definition is_enrolled (w : World) (u : User) (cid : string) : bool :=
  bool_decide ((user_id u, cid) ∈ enrollments w).

(** Modelled from the spec: [countMembers(team) -> int], the value of
    [team.users.count()]. *)
Definition users_count (w : World) (t : CourseTeam) : nat :=
  length (filter (λ ms, team_pk (membership_team ms) = team_pk t) (memberships w)).

(** Modelled from the spec: [listMemberships(courseIds)], here for the one
    course of the manager. *)
Definition get_memberships (w : World) (cid : string) : list CourseTeamMembership :=
  filter (λ ms, team_course_id (membership_team ms) = cid) (memberships w).

(** [CourseTeamMembership.objects.filter(team__course_id=..., team__topic_id=...)] *)
Definition memberships_in_teamset (w : World) (cid ts : string) : list CourseTeamMembership :=
  filter (λ ms, team_course_id (membership_team ms) = cid
                ∧ team_topic_id (membership_team ms) = ts) (memberships w).

(** Modelled from the spec: [listTeams(courseId)]. *)
Definition course_teams (w : World) (cid : string) : list CourseTeam :=
  filter (λ t, team_course_id t = cid) (teams w).

(** The primary key given to the next team saved. *)
Definition fresh_team_pk (w : World) : nat :=
  S (max_list (team_pk <$> teams w)).

(** Modelled from the spec: [createTeam(name, courseId, teamsetId,
    description) -> Team] followed by [save()].  The new team gets a
    primary key above every key in storage, and a readable identifier
    made of its name and that key. *)
Definition CourseTeam_create (w : World) (name cid description topic : string)
  : CourseTeam * World :=
  let pk := fresh_team_pk w in
  let t := mkCourseTeam pk (name +:+ "-" +:+ pretty pk) name cid topic description in
  (t, mkWorld (users w) (enrollments w) (teams w ++ [t]) (memberships w) (events w)).

(** Modelled from the spec: [addMember(team, user)]. *)
Definition add_user (w : World) (t : CourseTeam) (u : User) : World :=
  mkWorld (users w) (enrollments w) (teams w)
          (memberships w ++ [mkMembership (user_id u) t]) (events w).

(** Modelled from the spec: [emit(eventName, courseId, payload)]. *)
Definition emit_team_event (w : World) (name cid tid : string) (uid : nat)
    (add_method : string) : World :=
  mkWorld (users w) (enrollments w) (teams w) (memberships w)
          (events w ++ [mkEvent name cid tid uid add_method]).

(** ** The uploaded file, as [csv.DictReader] hands it over *)

(** The dictionary of a data line, when it has an entry for [user].
    [row_user] is the entry of the [user] column and [row_cells] holds the
    entries of the other columns by column name; an entry the reader left
    at [None] is absent from the map.  The header names its first column
    [user] and no teamset column carries that name. *)
Record Row := mkRow {
  row_user : string;
  row_cells : gmap string string }.

(** A file that reads without trouble: the header line gives
    [fieldnames], every data line decodes and gives a dictionary that has
    an entry for [user]. *)
Record InputFile := mkInputFile {
  fieldnames : list string;
  rows : list Row }.

(** What [reader.fieldnames] finds when it reads the first line: the
    upload has no line at all (the attribute stays [None]), the first line
    does not decode, the csv module refuses it ([csv.Error]), or the names
    of the columns. *)
Inductive Header :=
  | NoLine
  | UndecodableHeader
  | MalformedHeader
  | Fieldnames (names : list string).

(** What the row loop gets when it asks the reader for the next data
    line.  The lines are decoded one by one as the loop goes on (the
    generator of [line.decode('utf-8-sig').strip()]), so a line that does
    not decode raises only when the loop reaches it, and so does a line
    that the csv module refuses ([csv.Error], for instance for a carriage
    return inside an unquoted field); a dictionary made under a header
    without a [user] column has no entry for [user] (this is then so at
    every data line); the blank lines, which the reader skips, are left
    out. *)
Inductive Line :=
  | Undecodable
  | Malformed
  | NoUserEntry
  | Decoded (row : Row).

(** The uploaded file as the reader delivers it: what the first line
    gives, then one [Line] for each data line that is not blank, in the
    order of the file. *)
Record Upload := mkUpload {
  header : Header;
  lines : list Line }.

(** An [InputFile] is the upload whose header gives its field names and
    whose lines all decode to its rows. *)
Definition decoded (f : InputFile) : Upload :=
  mkUpload (Fieldnames (fieldnames f)) (Decoded <$> rows f).

Coercion decoded : InputFile >-> Upload.

(** [row[teamset_id]]; [None] and the empty string are both falsy. *)
Definition cell (r : Row) (ts : string) : string :=
  default "" (row_cells r !! ts).

(** ** The manager *)

Record Manager := mkManager {
  validation_errors : list string;
  teamset_ids : list string;
  user_ids_by_teamset_id : gmap string (gset nat);
  number_of_record_added : nat;
  course : Course;
  max_errors : Z;
  existing_course_team_memberships : gmap (nat * string) nat;
  existing_course_teams : gmap (string * string) CourseTeam }.

(** [__init__] *)
Definition TeamMembershipImportManager (c : Course) : Manager :=
  mkManager [] [] ∅ 0 c 0%Z ∅ ∅.

Definition with_validation_errors (m : Manager) (es : list string) : Manager :=
  mkManager es (teamset_ids m) (user_ids_by_teamset_id m) (number_of_record_added m)
            (course m) (max_errors m) (existing_course_team_memberships m)
            (existing_course_teams m).

Definition with_teamset_ids (m : Manager) (ids : list string) : Manager :=
  mkManager (validation_errors m) ids (user_ids_by_teamset_id m) (number_of_record_added m)
            (course m) (max_errors m) (existing_course_team_memberships m)
            (existing_course_teams m).

Definition with_user_ids_by_teamset_id (m : Manager) (x : gmap string (gset nat)) : Manager :=
  mkManager (validation_errors m) (teamset_ids m) x (number_of_record_added m)
            (course m) (max_errors m) (existing_course_team_memberships m)
            (existing_course_teams m).

Definition with_number_of_record_added (m : Manager) (n : nat) : Manager :=
  mkManager (validation_errors m) (teamset_ids m) (user_ids_by_teamset_id m) n
            (course m) (max_errors m) (existing_course_team_memberships m)
            (existing_course_teams m).

Definition with_max_errors (m : Manager) (k : Z) : Manager :=
  mkManager (validation_errors m) (teamset_ids m) (user_ids_by_teamset_id m)
            (number_of_record_added m) (course m) k
            (existing_course_team_memberships m) (existing_course_teams m).

Definition with_existing_course_team_memberships (m : Manager)
    (x : gmap (nat * string) nat) : Manager :=
  mkManager (validation_errors m) (teamset_ids m) (user_ids_by_teamset_id m)
            (number_of_record_added m) (course m) (max_errors m) x
            (existing_course_teams m).

Definition with_existing_course_teams (m : Manager)
    (x : gmap (string * string) CourseTeam) : Manager :=
  mkManager (validation_errors m) (teamset_ids m) (user_ids_by_teamset_id m)
            (number_of_record_added m) (course m) (max_errors m)
            (existing_course_team_memberships m) x.

(** [import_succeeded] *)
Definition import_succeeded (m : Manager) : bool :=
  bool_decide (validation_errors m = []).

(** ** Exceptions and results *)

Inductive exn :=
  | KeyError (key : string)
  | UnboundLocalError (var : string)
  | TypeError
  | UnicodeDecodeError
  | csv_Error.

(** What a method leaves behind: the value it returns, or the exception
    that escapes it, with the manager in either case. *)
Inductive result (A : Type) :=
  | Ret (a : A) (m : Manager)
  | Exc (e : exn) (m : Manager).
Arguments Ret {A} a m.
Arguments Exc {A} e m.

Definition manager_of {A} (r : result A) : Manager :=
  match r with Ret _ m => m | Exc _ m => m end.

(** The value returned, if the call returned. *)
Definition returned {A} (r : result A) : option A :=
  match r with Ret a _ => Some a | Exc _ _ => None end.

(** The exception raised, if the call raised. *)
Definition raised {A} (r : result A) : option exn :=
  match r with Ret _ _ => None | Exc e _ => Some e end.

(** ** Error messages *)

Definition msg_teamset_duplicated (ts : string) : string :=
  "Teamset with id " +:+ ts +:+ " is duplicated.".

Definition msg_teamset_does_not_exist (ts : string) : string :=
  "Teamset with id " +:+ ts +:+ " does not exist.".

Definition msg_not_enrolled (uname : string) : string :=
  "User " +:+ uname +:+ " is not enrolled in this course.".

Definition msg_username_duplicate (uname : string) : string :=
  "Username " +:+ uname +:+ " was found more than once in input file.".

Definition msg_already_member (uname ts : string) : string :=
  "The user " +:+ uname +:+ " is already a member of a team inside teamset "
    +:+ ts +:+ " in this course.".

Definition msg_team_full (tid : string) : string :=
  "Team " +:+ tid +:+ " is already full.".

Definition msg_user_does_not_exist (uname : string) : string :=
  "Username or email " +:+ uname +:+ " does not exist.".

(** ** Methods of the manager *)

(** [add_error_and_check_if_max_exceeded]: append, then compare the length
    of the error list with [max_errors]. *)
Definition add_error_and_check_if_max_exceeded (m : Manager) (error_message : string)
  : bool * Manager :=
  let m' := with_validation_errors m (validation_errors m ++ [error_message]) in
  (bool_decide (max_errors m' ≤ Z.of_nat (length (validation_errors m')))%Z, m').

(** The loop of [validate_teamsets] over [self.teamset_ids], with the set of
    configured identifiers and the running [dupe_set]. *)
Fixpoint validate_teamsets_loop (configured dupe_set : gset string)
    (ids : list string) (m : Manager) : bool * Manager :=
  match ids with
  | [] => (true, m)
  | ts :: rest =>
      if bool_decide (ts ∈ dupe_set) then
        (false, with_validation_errors m
                  (validation_errors m ++ [msg_teamset_duplicated ts]))
      else if bool_decide (ts ∉ configured) then
        (false, with_validation_errors m
                  (validation_errors m ++ [msg_teamset_does_not_exist ts]))
      else validate_teamsets_loop configured ({[ts]} ∪ dupe_set) rest m
  end.

Definition validate_teamsets (m : Manager) : bool * Manager :=
  let configured : gset string :=
    list_to_set (teamset_id <$> teamsets (teams_configuration (course m))) in
  validate_teamsets_loop configured ∅ (teamset_ids m) m.

Definition load_user_ids_by_teamset_id (w : World) (m : Manager) : Manager :=
  with_user_ids_by_teamset_id m
    (foldl (λ acc ts,
              <[ts := list_to_set (membership_user_id <$>
                        memberships_in_teamset w (course_id (course m)) ts)]> acc)
           (user_ids_by_teamset_id m) (teamset_ids m)).

Definition load_course_team_memberships (w : World) (m : Manager) : Manager :=
  with_existing_course_team_memberships m
    (foldl (λ acc ms,
              <[(membership_user_id ms, team_topic_id (membership_team ms))
                  := team_pk (membership_team ms)]> acc)
           (existing_course_team_memberships m)
           (get_memberships w (course_id (course m)))).

Definition load_course_teams (w : World) (m : Manager) : Manager :=
  with_existing_course_teams m
    (foldl (λ acc t, <[(team_name t, team_topic_id t) := t]> acc)
           (existing_course_teams m)
           (course_teams w (course_id (course m)))).

Definition validate_user_enrolled_in_course (w : World) (m : Manager) (user : User)
  : bool * Manager :=
  if negb (is_enrolled w user (course_id (course m))) then
    (false, with_validation_errors m
              (validation_errors m ++ [msg_not_enrolled (username user)]))
  else (true, m).

Definition is_username_unique (m : Manager) (uname : string)
    (usernames_found_so_far : gset string) : bool * Manager :=
  if bool_decide (uname ∈ usernames_found_so_far) then
    let '(exceeded, m') :=
      add_error_and_check_if_max_exceeded m (msg_username_duplicate uname) in
    if exceeded then (false, m') else (true, m')
  else (true, m).

Definition get_user (w : World) (m : Manager) (user_name : string)
  : option User * Manager :=
  match find_user_by_login w user_name with
  | Some u => (Some u, m)
  | None =>
      match find_user_by_email w user_name with
      | Some u => (Some u, m)
      | None =>
          (None, with_validation_errors m
                   (validation_errors m ++ [msg_user_does_not_exist user_name]))
      end
  end.

(** One turn of the loop of [validate_user_assignment_to_team_and_teamset].
    [Ret None] goes on with the next teamset, [Ret (Some b)] is [return b]. *)
Definition validate_assignment_body (w : World) (m : Manager) (user : User)
    (row : Row) (ts : string) : result (option bool) :=
  let team_name := cell row ts in
  if bool_decide (team_name = "") then Ret None m
  else
    match existing_course_teams m !! (team_name, ts) with
    | None =>
        match user_ids_by_teamset_id m !! ts with
        | None => Exc (KeyError ts) m
        | Some all_teamset_user_ids =>
            let error_message := msg_already_member (username user) ts in
            let '(stop, m1) :=
              if bool_decide (user_id user ∈ all_teamset_user_ids) then
                add_error_and_check_if_max_exceeded m error_message
              else (false, m) in
            if stop then Ret (Some false) m1
            else
              Ret None (with_user_ids_by_teamset_id m1
                (<[ts := {[user_id user]} ∪ all_teamset_user_ids]>
                   (user_ids_by_teamset_id m1)))
        end
    | Some team =>
        let max_team_size := default_max_team_size (teams_configuration (course m)) in
        let '(stop, m1) :=
          match max_team_size with
          | Some n =>
              if bool_decide (n ≤ users_count w team) then
                add_error_and_check_if_max_exceeded m (msg_team_full (team_id team))
              else (false, m)
          | None => (false, m)
          end in
        if stop then Ret (Some false) m1
        else
          if bool_decide (is_Some (existing_course_team_memberships m1
                                     !! (user_id user, team_topic_id team))) then
            let error_message :=
              msg_already_member (username user) (team_topic_id team) in
            let '(stop2, m2) := add_error_and_check_if_max_exceeded m1 error_message in
            if stop2 then Ret (Some false) m2 else Ret None m2
          else Ret None m1
    end.

Fixpoint validate_assignment_loop (w : World) (user : User) (row : Row)
    (tss : list string) (m : Manager) : result bool :=
  match tss with
  | [] => Ret true m
  | ts :: rest =>
      match validate_assignment_body w m user row ts with
      | Ret None m' => validate_assignment_loop w user row rest m'
      | Ret (Some b) m' => Ret b m'
      | Exc e m' => Exc e m'
      end
  end.

Definition validate_user_assignment_to_team_and_teamset (w : World) (m : Manager)
    (user : User) (row : Row) : result bool :=
  validate_assignment_loop w user row (teamset_ids m) m.

(** The locals of the row loop of [set_team_membership_from_csv]. *)
Record Locals := mkLocals {
  csv_usernames : gset string;
  row_dictionaries : list (User * Row) }.

(** One turn of the row loop: [Ret (inl l)] goes on with the next row and
    the locals [l], [Ret (inr b)] is [return b]. *)
Definition process_row (w : World) (m : Manager) (l : Locals) (row : Row)
  : result (Locals + bool) :=
  let uname := row_user row in
  if bool_decide (uname = "") then Ret (inl l) m
  else
    let '(unique, m1) := is_username_unique m uname (csv_usernames l) in
    if negb unique then Ret (inr false) m1
    else
      let l1 := mkLocals ({[uname]} ∪ csv_usernames l) (row_dictionaries l) in
      match get_user w m1 uname with
      | (None, m2) => Ret (inl l1) m2
      | (Some user, m2) =>
          let '(enrolled, m3) := validate_user_enrolled_in_course w m2 user in
          if negb enrolled then Ret (inl l1) m3
          else
            match validate_user_assignment_to_team_and_teamset w m3 user row with
            | Ret true m4 =>
                Ret (inl (mkLocals (csv_usernames l1)
                                   (row_dictionaries l1 ++ [(user, row)]))) m4
            | Ret false m4 => Ret (inr false) m4
            | Exc e m4 => Exc e m4
            end
      end.

(** The row loop, [for row in reader].  Each turn first takes the next
    line from the reader, which raises [UnicodeDecodeError] at a line that
    does not decode and [csv.Error] at a line that the csv module refuses,
    and reads [row['user']], which raises [KeyError] when the dictionary
    has no such entry.  [Ret (inl l)] means the loop ran to
    its end. *)
Fixpoint process_lines (w : World) (ls : list Line) (l : Locals) (m : Manager)
  : result (Locals + bool) :=
  match ls with
  | [] => Ret (inl l) m
  | Undecodable :: _ => Exc UnicodeDecodeError m
  | Malformed :: _ => Exc csv_Error m
  | NoUserEntry :: _ => Exc (KeyError "user") m
  | Decoded row :: rest =>
      match process_row w m l row with
      | Ret (inl l') m' => process_lines w rest l' m'
      | r => r
      end
  end.

(** The row loop over lines that all decode and have their [user] entry. *)
Definition process_rows (w : World) (rs : list Row) (l : Locals) (m : Manager)
  : result (Locals + bool) :=
  process_lines w (Decoded <$> rs) l m.
Arguments process_rows : simpl never.

(** The loop of [add_user_to_team] over [self.teamset_ids].  [team] is the
    local variable of that name: [None] while it is unbound. *)
Fixpoint add_user_to_team_loop (user : User) (user_row : Row) (tss : list string)
    (team : option CourseTeam) (m : Manager) (w : World) : result unit * World :=
  match tss with
  | [] => (Ret tt m, w)
  | ts :: rest =>
      let team_name := cell user_row ts in
      if bool_decide (team_name = "") then
        add_user_to_team_loop user user_row rest team m w
      else
        let '(team1, w1) :=
          match existing_course_teams m !! (team_name, ts) with
          | None =>
              let '(t, w') :=
                CourseTeam_create w team_name (course_id (course m))
                                  "Import from csv" ts in
              (Some t, w')
          | Some _ => (team, w)
          end in
        match team1 with
        | None => (Exc (UnboundLocalError "team") m, w1)
        | Some t =>
            let w2 := add_user w1 t user in
            let w3 := emit_team_event w2 "edx.team.learner_added" (team_course_id t)
                        (team_id t) (user_id user) "team_csv_import" in
            let m1 := with_number_of_record_added m (number_of_record_added m + 1) in
            add_user_to_team_loop user user_row rest (Some t) m1 w3
        end
  end.

Definition add_user_to_team (m : Manager) (w : World) (user_row : User * Row)
  : result unit * World :=
  add_user_to_team_loop (fst user_row) (snd user_row) (teamset_ids m) None m w.

(** [for row in row_dictionaries: self.add_user_to_team(row)] *)
Fixpoint commit_rows (rds : list (User * Row)) (m : Manager) (w : World)
  : result unit * World :=
  match rds with
  | [] => (Ret tt m, w)
  | row :: rest =>
      match add_user_to_team m w row with
      | (Ret _ m', w') => commit_rows rest m' w'
      | r => r
      end
  end.

Definition set_team_membership_from_csv (w : World) (m : Manager) (input_file : Upload)
  : result bool * World :=
  match header input_file with
  | NoLine => (Exc TypeError m, w)                 (* None[2:] *)
  | UndecodableHeader => (Exc UnicodeDecodeError m, w)
  | MalformedHeader => (Exc csv_Error m, w)
  | Fieldnames names =>
      let m0 := with_teamset_ids m (drop 2 names) in
      let '(ok, m1) := validate_teamsets m0 in
      if negb ok then (Ret false m1, w)
      else
        let m2 := load_user_ids_by_teamset_id w m1 in
        let m3 := load_course_team_memberships w m2 in
        let m4 := load_course_teams w m3 in
        match process_lines w (lines input_file) (mkLocals ∅ []) m4 with
        | Exc e m5 => (Exc e m5, w)
        | Ret (inr b) m5 => (Ret b m5, w)
        | Ret (inl l) m5 =>
            if bool_decide (validation_errors m5 = []) then
              match commit_rows (row_dictionaries l) m5 w with
              | (Ret _ m6, w') => (Ret true m6, w')
              | (Exc e m6, w') => (Exc e m6, w')
              end
            else (Ret false m5, w)
        end
  end.

(** * Vocabulary of the properties *)

(** Validation only appends to [validation_errors] and only adds to the
    sets of [user_ids_by_teamset_id]; everything else in the manager stays
    as it was. *)
Record frame (m m' : Manager) : Prop := mkFrame {
  frame_teamset_ids : teamset_ids m' = teamset_ids m;
  frame_course : course m' = course m;
  frame_max_errors : max_errors m' = max_errors m;
  frame_number : number_of_record_added m' = number_of_record_added m;
  frame_memberships :
    existing_course_team_memberships m' = existing_course_team_memberships m;
  frame_teams : existing_course_teams m' = existing_course_teams m;
  frame_errors : ∃ es, validation_errors m' = validation_errors m ++ es;
  frame_user_ids : ∀ ts s, user_ids_by_teamset_id m !! ts = Some s →
      ∃ s', user_ids_by_teamset_id m' !! ts = Some s' ∧ s ⊆ s' }.

(** The sets consulted for the teamsets of the header are there. *)
Definition keys_loaded (m : Manager) : Prop :=
  ∀ ts, ts ∈ teamset_ids m → is_Some (user_ids_by_teamset_id m !! ts).

Definition configured_teamset_ids (c : Course) : gset string :=
  list_to_set (teamset_id <$> teamsets (teams_configuration c)).

(** The header passes the gate when its teamset columns are pairwise
    different and all configured. *)
Definition header_ok (configured dupe_set : gset string) (ids : list string) : Prop :=
  NoDup ids ∧ ∀ ts, ts ∈ ids → ts ∈ configured ∧ ts ∉ dupe_set.

(** The manager after the header was read and the three caches loaded. *)
Definition loaded (w : World) (m : Manager) (f : InputFile) : Manager :=
  load_course_teams w
    (load_course_team_memberships w
       (load_user_ids_by_teamset_id w (with_teamset_ids m (drop 2 (fieldnames f))))).

(** The four ways through [set_team_membership_from_csv]: the gate
    refuses the header, the row loop returns [False], the row loop ends
    with errors on record, or the commit phase runs. *)
Inductive run_shape (w : World) (m : Manager) (f : InputFile)
  : result bool * World → Prop :=
  | run_gate m1 :
      validate_teamsets (with_teamset_ids m (drop 2 (fieldnames f))) = (false, m1) →
      run_shape w m f (Ret false m1, w)
  | run_abort m5 :
      header_ok (configured_teamset_ids (course m)) ∅ (drop 2 (fieldnames f)) →
      process_rows w (rows f) (mkLocals ∅ []) (loaded w m f) = Ret (inr false) m5 →
      frame (loaded w m f) m5 →
      run_shape w m f (Ret false m5, w)
  | run_errors l m5 :
      header_ok (configured_teamset_ids (course m)) ∅ (drop 2 (fieldnames f)) →
      process_rows w (rows f) (mkLocals ∅ []) (loaded w m f) = Ret (inl l) m5 →
      frame (loaded w m f) m5 →
      validation_errors m5 ≠ [] →
      run_shape w m f (Ret false m5, w)
  | run_commit l m5 :
      header_ok (configured_teamset_ids (course m)) ∅ (drop 2 (fieldnames f)) →
      process_rows w (rows f) (mkLocals ∅ []) (loaded w m f) = Ret (inl l) m5 →
      frame (loaded w m f) m5 →
      validation_errors m5 = [] →
      run_shape w m f
        (match commit_rows (row_dictionaries l) m5 w with
         | (Ret _ m6, w') => (Ret true m6, w')
         | (Exc e m6, w') => (Exc e m6, w')
         end).

(** The rows that the row loop is given before the first line at which
    it raises. *)
Fixpoint decoded_prefix (ls : list Line) : list Row :=
  match ls with
  | Decoded row :: rest => row :: decoded_prefix rest
  | _ => []
  end.

(** What taking a line from the reader and reading its [user] entry
    raises. *)
Definition line_failure (ln : Line) : option exn :=
  match ln with
  | Undecodable => Some UnicodeDecodeError
  | Malformed => Some csv_Error
  | NoUserEntry => Some (KeyError "user")
  | Decoded _ => None
  end.

(** The exception that waits in the data lines: that of the first line
    that raises. *)
Fixpoint first_failure (ls : list Line) : option exn :=
  match ls with
  | [] => None
  | ln :: rest =>
      match line_failure ln with
      | Some e => Some e
      | None => first_failure rest
      end
  end.

(** What [reader.fieldnames[2:]] raises. *)
Definition header_failure (h : Header) : option exn :=
  match h with
  | NoLine => Some TypeError
  | UndecodableHeader => Some UnicodeDecodeError
  | MalformedHeader => Some csv_Error
  | Fieldnames _ => None
  end.

(** The exception that waits in the upload, header first.  [None] means
    that the upload reads without trouble from its first line to its
    last. *)
Definition read_failure (u : Upload) : option exn :=
  match header_failure (header u) with
  | Some e => Some e
  | None => first_failure (lines u)
  end.

(** The file made of the header's names and of the rows read before the
    first line that raises. *)
Definition readable_part (names : list string) (u : Upload) : InputFile :=
  mkInputFile names (decoded_prefix (lines u)).

(** The ways through [set_team_membership_from_csv] on any upload: the
    header cannot be read; the row loop comes to a line that raises; or
    the run is the run on the readable part, because every line reads or
    because the run returns [False] before it comes to the line that
    raises. *)
Inductive upload_shape (w : World) (m : Manager) (u : Upload)
  : result bool * World → Prop :=
  | upload_header_error e :
      header_failure (header u) = Some e →
      upload_shape w m u (Exc e m, w)
  | upload_line_error names e l m5 :
      header u = Fieldnames names →
      header_ok (configured_teamset_ids (course m)) ∅ (drop 2 names) →
      first_failure (lines u) = Some e →
      process_rows w (decoded_prefix (lines u)) (mkLocals ∅ [])
        (loaded w m (readable_part names u)) = Ret (inl l) m5 →
      frame (loaded w m (readable_part names u)) m5 →
      upload_shape w m u (Exc e m5, w)
  | upload_read names :
      header u = Fieldnames names →
      first_failure (lines u) = None
      ∨ returned (set_team_membership_from_csv w m (readable_part names u)).1
        = Some false →
      upload_shape w m u (set_team_membership_from_csv w m (readable_part names u)).

(** The messages recorded through [add_error_and_check_if_max_exceeded]. *)
Definition cell_message (e : string) : Prop :=
  (∃ tid, e = msg_team_full tid) ∨ (∃ uname ts, e = msg_already_member uname ts).

Definition threshold_message (e : string) : Prop :=
  (∃ uname, e = msg_username_duplicate uname) ∨ cell_message e.

(** The messages appended without a look at the threshold. *)
Definition skip_message (e : string) : Prop :=
  (∃ uname, e = msg_user_does_not_exist uname) ∨ (∃ uname, e = msg_not_enrolled uname).

(** The errors a step appended to the list. *)
Definition errors_added (m m' : Manager) : list string :=
  drop (length (validation_errors m)) (validation_errors m').

(** Whether the team is at or above the maximum that the code reads. *)
Definition team_is_full (w : World) (m : Manager) (team : CourseTeam) : Prop :=
  ∃ n, default_max_team_size (teams_configuration (course m)) = Some n
       ∧ n ≤ users_count w team.

#[global] Instance team_is_full_dec w m team : Decision (team_is_full w m team).
Proof.
  unfold team_is_full.
  destruct (default_max_team_size (teams_configuration (course m))) as [n|].
  - destruct (decide (n ≤ users_count w team)); [left; eauto | right].
    intros (n' & [= <-] & ?). done.
  - right. intros (n & ? & _). done.
Defined.

(** What one turn of the commit loop does with a bound [team]. *)
Definition join_team (u : User) (t : CourseTeam) (m : Manager) (w : World)
  : Manager * World :=
  (with_number_of_record_added m (number_of_record_added m + 1),
   emit_team_event (add_user w t u) "edx.team.learner_added" (team_course_id t)
     (team_id t) (user_id u) "team_csv_import").

(** [t] has a primary key above every key of the teams in [w]. *)
Definition newer (w : World) (t : CourseTeam) : Prop :=
  ∀ t0, t0 ∈ teams w → team_pk t0 < team_pk t.

(** The team that [add_user_to_team] makes for a cell naming [name] in
    teamset [ts]. *)
Definition made_for (m : Manager) (name ts : string) (t : CourseTeam) : Prop :=
  team_name t = name ∧ team_topic_id t = ts
  ∧ team_course_id t = course_id (course m).

(** ** Test data *)

Definition andrew : User := mkUser 1 "andrew" "andrew@example.com".
Definition joe : User := mkUser 2 "joe" "joe@example.com".

Definition demo_header : list string := ["user"; "mode"; "masters"; "phd"].

(** A course with two teamsets and no size limit at all. *)
Definition demo_course : Course :=
  mkCourse "course-v1:demo"
    (mkTeamsConfig [mkTeamset "masters" None; mkTeamset "phd" None] None).

(** The same course, where [masters] has its own maximum of one member and
    the course-wide default is unset. *)
Definition course_teamset_max_1 : Course :=
  mkCourse "course-v1:demo"
    (mkTeamsConfig [mkTeamset "masters" (Some 1); mkTeamset "phd" None] None).

(** The same course, where [masters] has its own maximum of five members
    and the course-wide default is one. *)
Definition course_default_max_1 : Course :=
  mkCourse "course-v1:demo"
    (mkTeamsConfig [mkTeamset "masters" (Some 5); mkTeamset "phd" None] (Some 1)).

Definition team1 : CourseTeam :=
  mkCourseTeam 7 "team1-7" "team1" "course-v1:demo" "masters" "first team".

(** Both users enrolled, no team yet. *)
Definition storage_no_teams : World :=
  mkWorld [andrew; joe] [(1, "course-v1:demo"); (2, "course-v1:demo")] [] [] [].

(** Both users enrolled, [team1] exists in [masters] and has no member. *)
Definition storage_team1 : World :=
  mkWorld [andrew; joe] [(1, "course-v1:demo"); (2, "course-v1:demo")] [team1] [] [].

(** Both users enrolled, [team1] exists in [masters] and andrew is in it. *)
Definition storage_andrew_in_team1 : World :=
  mkWorld [andrew; joe] [(1, "course-v1:demo"); (2, "course-v1:demo")] [team1]
          [mkMembership 1 team1] [].

Definition row_andrew_team1 : Row := mkRow "andrew" {["masters" := "team1"]}.
Definition row_joe_team1 : Row := mkRow "joe" {["masters" := "team1"]}.
Definition row_joe_team2 : Row := mkRow "joe" {["masters" := "team2"]}.
Definition row_bob : Row := mkRow "bob" {["masters" := "team1"]}.
Definition row_carol : Row := mkRow "carol" {["phd" := "team9"]}.

(** The teamset's own maximum, as configured. *)
Definition teamset_max_team_size (c : Course) (ts : string) : option (option nat) :=
  max_team_size <$>
    List.find (λ t, bool_decide (teamset_id t = ts)) (teamsets (teams_configuration c)).

(** ** Vocabulary of the further properties *)

(** The event that [add_user_to_team] emits for a membership it added. *)
Definition event_of (ms : CourseTeamMembership) : Event :=
  mkEvent "edx.team.learner_added" (team_course_id (membership_team ms))
          (team_id (membership_team ms)) (membership_user_id ms) "team_csv_import".

(** The non-empty cells of a row under the teamset columns [tss]. *)
Definition assigned_cells (tss : list string) (r : Row) : list string :=
  filter (λ ts, cell r ts ≠ "") tss.

(** The rows of a file that carry a user identifier. *)
Definition identified_rows (rs : list Row) : list Row :=
  filter (λ r, row_user r ≠ "") rs.

(** The user that [get_user] returns for an identifier. *)
Definition resolve (w : World) (name : string) : option User :=
  match find_user_by_login w name with
  | Some u => Some u
  | None => find_user_by_email w name
  end.

(** A team as [add_user_to_team] creates it for the course [cid] under one
    of the teamset columns [tss]. *)
Definition created_team (cid : string) (tss : list string) (t : CourseTeam) : Prop :=
  team_course_id t = cid
  ∧ team_description t = "Import from csv"
  ∧ team_topic_id t ∈ tss.

(** What a stretch of the commit phase did to storage and to the counter:
    it created the teams [new] and added the memberships [added]. *)
Record commit_effect (cid : string) (tss : list string)
    (m : Manager) (w : World) (m' : Manager) (w' : World)
    (new : list CourseTeam) (added : list CourseTeamMembership) : Prop := mkCommitEffect {
  effect_users : users w' = users w;
  effect_enrollments : enrollments w' = enrollments w;
  effect_teams : teams w' = teams w ++ new;
  effect_memberships : memberships w' = memberships w ++ added;
  effect_events : events w' = events w ++ (event_of <$> added);
  effect_number :
    number_of_record_added m' = number_of_record_added m + length added;
  effect_created : Forall (created_team cid tss) new;
  effect_newer : Forall (newer w) new }.

(** The non-empty cells of a row that name a team absent from the cache of
    existing teams. *)
Definition new_team_cells (cache : gmap (string * string) CourseTeam)
    (tss : list string) (r : Row) : list string :=
  filter (λ ts, cell r ts ≠ "" ∧ cache !! (cell r ts, ts) = None) tss.

(** * The rest of csv.py and the course API serializers *)

(** [load_team_membership_csv]: the download is not implemented; the
    function ignores the course and writes one fixed line to the response,
    here the list of the chunks written so far. *)
Definition load_team_membership_csv (c : Course) (response : list string) : list string :=
  let not_implemented_message :=
    "Team membership CSV download is not yet implemented." in
  response ++ [not_implemented_message +:+ String (Ascii.ascii_of_nat 10) ""].

(** ** openedx/core/djangoapps/courseware_api/serializers.py *)

(** [s.split(',')] *)
Fixpoint split_comma (s : string) : list string :=
  match s with
  | EmptyString => [""]
  | String ch rest =>
      if Ascii.eqb ch ","%char
      then "" :: split_comma rest
      else match split_comma rest with
           | piece :: pieces => String ch piece :: pieces
           | [] => [String ch ""]
           end
  end.

(** A string without a comma. *)
Fixpoint comma_free (s : string) : Prop :=
  match s with
  | EmptyString => True
  | String ch rest => ch ≠ ","%char ∧ comma_free rest
  end.

(** The kinds of field that [CourseInfoSerializer] declares. *)
Inductive FieldKind :=
  | CharField
  | DateTimeField
  | DictField
  | SerializerMethodField
  | CourseApiMediaCollectionSerializer.

Record Field := mkField {
  field_name : string;
  field_kind : FieldKind;
  field_source : option string }.

(** The fields of [CourseInfoSerializer], in the order of their
    declaration. *)
Definition CourseInfoSerializer_fields : list Field :=
  [ mkField "effort" CharField None;
    mkField "end" DateTimeField None;
    mkField "enrollment_start" DateTimeField None;
    mkField "enrollment_end" DateTimeField None;
    mkField "id" CharField None;
    mkField "media" CourseApiMediaCollectionSerializer (Some "*");
    mkField "name" CharField (Some "display_name_with_default_escaped");
    mkField "number" CharField (Some "display_number_with_default");
    mkField "org" CharField (Some "display_org_with_default");
    mkField "short_description" CharField None;
    mkField "start" DateTimeField None;
    mkField "start_display" CharField None;
    mkField "start_type" CharField None;
    mkField "pacing" CharField None;
    mkField "enrollment" DictField None;
    mkField "tabs" SerializerMethodField None ].

(** [self.fields.pop(field_name)]: the fields without the one of that
    name, or nothing when there is no field of that name (a [KeyError]). *)
Definition fields_pop (name : string) (fields : list Field) : option (list Field) :=
  if bool_decide (name ∈ field_name <$> fields)
  then Some (filter (λ fd, field_name fd ≠ name) fields)
  else None.

(** [for field_name in ...: self.fields.pop(field_name)] *)
Fixpoint pop_fields (names : list string) (fields : list Field) : exn + list Field :=
  match names with
  | [] => inr fields
  | name :: rest =>
      match fields_pop name fields with
      | Some fields' => pop_fields rest fields'
      | None => inl (KeyError name)
      end
  end.

(** [CourseInfoSerializer.__init__]: the fields the serializer is left
    with.  The context maps [requested_fields] to [None] or to a string. *)
Definition CourseInfoSerializer_init (context : gmap string (option string))
  : exn + list Field :=
  match context !! "requested_fields" with
  | None => inl (KeyError "requested_fields")
  | Some None => inr CourseInfoSerializer_fields
  | Some (Some requested_fields) =>
      let allowed : gset string := list_to_set (split_comma requested_fields) in
      let existing : gset string :=
        list_to_set (field_name <$> CourseInfoSerializer_fields) in
      pop_fields (elements (existing ∖ allowed)) CourseInfoSerializer_fields
  end.

Section CourseTabs.
(** The course overview, the user it is shown to and the URL resolver
    are what the caller hands in; [get_course_tab_list] is the function
    of that name in courseware/tabs.py. *)
Context {CourseOverview EffectiveUser Reverse : Type}.

Record CourseTab := mkCourseTab {
  tab_title : string;
  tab_tab_id : string;
  tab_type : string;
  tab_link_func : CourseOverview → Reverse → string }.

(** One dictionary of the list that [get_tabs] returns. *)
Record TabEntry := mkTabEntry {
  entry_title : string;
  entry_slug : string;
  entry_priority : nat;
  entry_type : string;
  entry_url : string }.

Variable effective_user : CourseOverview → EffectiveUser.
Variable get_course_tab_list : EffectiveUser → CourseOverview → list CourseTab.
Variable reverse : Reverse.

(** The loop of [get_tabs]: [priority] is the counter of [enumerate],
    [tabs] the list built so far. *)
Fixpoint get_tabs_loop (course_overview : CourseOverview) (priority : nat)
    (tab_list : list CourseTab) (tabs : list TabEntry) : list TabEntry :=
  match tab_list with
  | [] => tabs
  | tab :: rest =>
      get_tabs_loop course_overview (S priority) rest
        (tabs ++ [mkTabEntry (tab_title tab) (tab_tab_id tab) priority (tab_type tab)
                             (tab_link_func tab course_overview reverse)])
  end.

Definition get_tabs (course_overview : CourseOverview) : list TabEntry :=
  get_tabs_loop course_overview 0
    (get_course_tab_list (effective_user course_overview) course_overview) [].
End CourseTabs.

(** * Properties *)

(** ** The row loop on decoded rows *)

Lemma process_rows_nil w l m : process_rows w [] l m = Ret (inl l) m.
Proof. reflexivity. Qed.

Lemma process_rows_cons w row rest l m :
  process_rows w (row :: rest) l m =
    match process_row w m l row with
    | Ret (inl l') m' => process_rows w rest l' m'
    | r => r
    end.
Proof. reflexivity. Qed.

(** ** What validation may change *)

Lemma frame_refl m : frame m m.
Proof.
  split; try done.
  - exists []. by rewrite app_nil_r.
  - intros ts s Hs. by exists s.
Qed.

Lemma frame_trans m1 m2 m3 : frame m1 m2 → frame m2 m3 → frame m1 m3.
Proof.
  intros [? ? ? ? ? ? [es1 H1] U1] [? ? ? ? ? ? [es2 H2] U2]. split; try congruence.
  - exists (es1 ++ es2). by rewrite H2, H1, app_assoc.
  - intros ts s Hs.
    destruct (U1 ts s Hs) as (s1 & Hs1 & Hsub1).
    destruct (U2 ts s1 Hs1) as (s2 & Hs2 & Hsub2).
    exists s2. split; [done | set_solver].
Qed.

Create HintDb frame.
#[local] Hint Resolve frame_refl frame_trans : frame.

Ltac solve_ret :=
  do 2 eexists; split_and?; eauto 10 with frame.

Lemma frame_add_errors m es : frame m (with_validation_errors m (validation_errors m ++ es)).
Proof.
  split; try done.
  - by exists es.
  - intros ts s Hs. by exists s.
Qed.

Lemma frame_nonempty m m' :
  frame m m' → validation_errors m ≠ [] → validation_errors m' ≠ [].
Proof.
  intros [_ _ _ _ _ _ [es Hes] _] Hne. rewrite Hes.
  destruct (validation_errors m); [done | discriminate].
Qed.

Lemma add_error_spec m msg :
  add_error_and_check_if_max_exceeded m msg =
    (bool_decide (max_errors m ≤ Z.of_nat (S (length (validation_errors m))))%Z,
     with_validation_errors m (validation_errors m ++ [msg])).
Proof.
  unfold add_error_and_check_if_max_exceeded. simpl. f_equal.
  rewrite length_app. simpl. by rewrite Nat.add_1_r.
Qed.

Lemma add_error_frame m msg b m' :
  add_error_and_check_if_max_exceeded m msg = (b, m') →
  frame m m' ∧ validation_errors m' = validation_errors m ++ [msg].
Proof.
  rewrite add_error_spec. intros [= <- <-]. split; [apply frame_add_errors | done].
Qed.

Lemma is_username_unique_frame m uname seen b m' :
  is_username_unique m uname seen = (b, m') → frame m m'.
Proof.
  unfold is_username_unique. case_bool_decide.
  - destruct (add_error_and_check_if_max_exceeded _ _) as [ex m1] eqn:E.
    apply add_error_frame in E as [F _]. destruct ex; by intros [= <- <-].
  - intros [= <- <-]. apply frame_refl.
Qed.

Lemma get_user_frame w m uname o m' :
  get_user w m uname = (o, m') → frame m m'.
Proof.
  unfold get_user. destruct (find_user_by_login _ _).
  { intros [= <- <-]. apply frame_refl. }
  destruct (find_user_by_email _ _); intros [= <- <-].
  - apply frame_refl.
  - apply frame_add_errors.
Qed.

Lemma validate_user_enrolled_frame w m u b m' :
  validate_user_enrolled_in_course w m u = (b, m') → frame m m'.
Proof.
  unfold validate_user_enrolled_in_course.
  destruct (negb _); intros [= <- <-]; [apply frame_add_errors | apply frame_refl].
Qed.

Lemma frame_insert_user_id m ts uid s :
  user_ids_by_teamset_id m !! ts = Some s →
  frame m (with_user_ids_by_teamset_id m (<[ts := {[uid]} ∪ s]> (user_ids_by_teamset_id m))).
Proof.
  intros Hs. split; try done.
  - exists []. by rewrite app_nil_r.
  - intros ts' s' Hs'. simpl. destruct (decide (ts = ts')) as [<-|Hne].
    + rewrite lookup_insert_eq. eexists; split; [done|]. set_solver.
    + rewrite lookup_insert_ne by done. by exists s'.
Qed.

Lemma keys_loaded_frame m m' : frame m m' → keys_loaded m → keys_loaded m'.
Proof.
  intros F K ts Hts. rewrite (frame_teamset_ids _ _ F) in Hts.
  destruct (K ts Hts) as [s Hs].
  destruct (frame_user_ids _ _ F ts s Hs) as (s' & Hs' & _). by exists s'.
Qed.

Lemma validate_assignment_body_frame w m u r ts :
  is_Some (user_ids_by_teamset_id m !! ts) →
  ∃ o m', validate_assignment_body w m u r ts = Ret o m'
          ∧ frame m m' ∧ (o = None ∨ o = Some false).
Proof.
  intros [s Hs]. unfold validate_assignment_body.
  case_bool_decide; [solve_ret |].
  destruct (existing_course_teams m !! _) as [team|].
  - destruct (match default_max_team_size _ with Some _ => _ | None => _ end)
      as [stop m1] eqn:E1.
    assert (frame m m1) as F1.
    { destruct (default_max_team_size _); [case_bool_decide|]; simplify_eq;
        eauto with frame. by apply add_error_frame in E1 as [? _]. }
    destruct stop; [solve_ret |].
    case_bool_decide; [| solve_ret].
    destruct (add_error_and_check_if_max_exceeded m1 _) as [stop2 m2] eqn:E2.
    apply add_error_frame in E2 as [F2 _].
    destruct stop2; solve_ret.
  - rewrite Hs.
    destruct (if bool_decide _ then _ else _) as [stop m1] eqn:E1.
    assert (frame m m1 ∧ user_ids_by_teamset_id m1 = user_ids_by_teamset_id m) as [F1 Hu].
    { case_bool_decide; simplify_eq; eauto with frame.
      rewrite add_error_spec in E1. simplify_eq. split; [apply frame_add_errors | done]. }
    destruct stop; [solve_ret |].
    do 2 eexists. split; [done|]. split; [| by left].
    eapply frame_trans; [done|]. apply frame_insert_user_id. by rewrite Hu.
Qed.

Lemma validate_assignment_loop_frame w u r tss m :
  (∀ ts, ts ∈ tss → is_Some (user_ids_by_teamset_id m !! ts)) →
  ∃ b m', validate_assignment_loop w u r tss m = Ret b m' ∧ frame m m'.
Proof.
  revert m. induction tss as [|ts tss IH]; intros m K; simpl.
  { solve_ret. }
  destruct (validate_assignment_body_frame w m u r ts) as (o & m1 & -> & F1 & Ho).
  { apply K. by left. }
  destruct Ho as [-> | ->]; [| solve_ret].
  destruct (IH m1) as (b & m2 & -> & F2).
  { intros ts' Hts'. destruct (K ts') as [s Hs]; [by right |].
    destruct (frame_user_ids _ _ F1 ts' s Hs) as (s' & Hs' & _). by exists s'. }
  solve_ret.
Qed.

Lemma process_row_frame w m l row :
  keys_loaded m →
  ∃ x m', process_row w m l row = Ret x m' ∧ frame m m'.
Proof.
  intros K. unfold process_row.
  case_bool_decide; [solve_ret |].
  destruct (is_username_unique _ _ _) as [unique m1] eqn:E1.
  apply is_username_unique_frame in E1 as F1.
  destruct unique; simpl; [| solve_ret].
  destruct (get_user w m1 _) as [[user|] m2] eqn:E2;
    apply get_user_frame in E2 as F2; [| solve_ret].
  destruct (validate_user_enrolled_in_course _ _ _) as [enrolled m3] eqn:E3.
  apply validate_user_enrolled_frame in E3 as F3.
  destruct enrolled; simpl; [| solve_ret].
  assert (frame m m3) as F by eauto with frame.
  destruct (validate_assignment_loop_frame w user row (teamset_ids m3) m3)
    as (b & m4 & E4 & F4).
  { by apply (keys_loaded_frame m m3). }
  unfold validate_user_assignment_to_team_and_teamset. rewrite E4.
  destruct b; solve_ret.
Qed.

Lemma process_rows_frame w rs l m :
  keys_loaded m →
  ∃ x m', process_rows w rs l m = Ret x m' ∧ frame m m'.
Proof.
  revert l m. induction rs as [|row rs IH]; intros l m K;
    rewrite ?process_rows_nil, ?process_rows_cons.
  { solve_ret. }
  destruct (process_row_frame w m l row K) as (x & m1 & -> & F1).
  destruct x as [l'|b]; [| solve_ret].
  destruct (IH l' m1) as (x & m2 & -> & F2); [by eapply keys_loaded_frame |].
  solve_ret.
Qed.

(** ** The teamset gate *)

Lemma validate_teamsets_loop_spec configured dupe_set ids m :
  match validate_teamsets_loop configured dupe_set ids m with
  | (true, m') => m' = m ∧ header_ok configured dupe_set ids
  | (false, m') =>
      (∃ ts, ts ∈ ids ∧
         (m' = with_validation_errors m (validation_errors m ++ [msg_teamset_duplicated ts])
          ∨ m' = with_validation_errors m
                   (validation_errors m ++ [msg_teamset_does_not_exist ts])))
      ∧ ¬ header_ok configured dupe_set ids
  end.
Proof.
  revert dupe_set. induction ids as [|ts ids IH]; intros dupe_set; simpl.
  { split; [done|]. split; [constructor | intros ts Hts; by apply elem_of_nil in Hts]. }
  case_bool_decide as Hd.
  { split; [exists ts; split; [left | by left]; done |].
    intros [_ Hall]. destruct (Hall ts) as [_ ?]; [by left | done]. }
  case_bool_decide as Hc.
  { split; [exists ts; split; [left | by right]; done |].
    intros [_ Hall]. destruct (Hall ts) as [? _]; [by left | done]. }
  specialize (IH ({[ts]} ∪ dupe_set)).
  destruct (validate_teamsets_loop _ _ ids m) as [[] m'].
  - destruct IH as [-> [Hnd Hall]]. split; [done|]. split.
    + constructor; [| done]. intros Hin. destruct (Hall ts Hin) as [_ ?]. set_solver.
    + intros ts' Hts'. apply elem_of_cons in Hts' as [-> | Hin].
      * split; [| done]. by destruct (decide (ts ∈ configured)).
      * destruct (Hall ts' Hin). set_solver.
  - destruct IH as [(ts' & Hin & Hm) Hbad]. split.
    + exists ts'. split; [by right | done].
    + intros [Hnd Hall]. apply Hbad. apply NoDup_cons in Hnd as [Hnotin Hnd].
      split; [done|]. intros ts'' Hin''. destruct (Hall ts'') as [? ?]; [by right |].
      split; [done|]. set_solver.
Qed.

(** ** Loading the caches *)

Lemma foldl_insert_lookup `{Countable K} {A B} (key : B → K) (val : B → A)
    (l : list B) (acc : gmap K A) (k : K) :
  foldl (λ acc x, <[key x := val x]> acc) acc l !! k =
    match last (filter (λ x, key x = k) l) with
    | Some x => Some (val x)
    | None => acc !! k
    end.
Proof.
  revert acc. induction l as [|x l IH]; intros acc; simpl; [done|].
  rewrite IH, filter_cons. case_decide as Hk.
  - rewrite last_cons. destruct (last _); [done|]. subst k. by rewrite lookup_insert_eq.
  - destruct (last _); [done|]. by rewrite lookup_insert_ne.
Qed.

Lemma load_user_ids_lookup w m ts :
  ts ∈ teamset_ids m →
  user_ids_by_teamset_id (load_user_ids_by_teamset_id w m) !! ts =
    Some (list_to_set (membership_user_id <$>
            memberships_in_teamset w (course_id (course m)) ts)).
Proof.
  intros Hts. unfold load_user_ids_by_teamset_id. simpl.
  rewrite (foldl_insert_lookup id
             (λ ts, list_to_set (membership_user_id <$>
                      memberships_in_teamset w (course_id (course m)) ts))).
  assert (ts ∈ filter (λ x, id x = ts) (teamset_ids m)) as Hin
    by (by apply list_elem_of_filter).
  destruct (last _) as [x|] eqn:El.
  - apply last_Some_elem_of, list_elem_of_filter in El as [Hx _].
    simpl in Hx. by subst x.
  - apply last_None in El. rewrite El in Hin. by apply elem_of_nil in Hin.
Qed.

Lemma load_keys_loaded w m :
  keys_loaded (load_course_teams w
                 (load_course_team_memberships w (load_user_ids_by_teamset_id w m))).
Proof.
  intros ts Hts. change (ts ∈ teamset_ids m) in Hts.
  change (is_Some (user_ids_by_teamset_id (load_user_ids_by_teamset_id w m) !! ts)).
  rewrite load_user_ids_lookup by done. by eexists.
Qed.

(** ** What the commit phase may change *)

Lemma add_user_to_team_loop_manager u r tss team m w :
  let m' := manager_of (fst (add_user_to_team_loop u r tss team m w)) in
  validation_errors m' = validation_errors m
  ∧ teamset_ids m' = teamset_ids m
  ∧ existing_course_teams m' = existing_course_teams m
  ∧ course m' = course m.
Proof.
  revert team m w. induction tss as [|ts tss IH]; intros team m w; simpl; [done|].
  case_bool_decide; [apply IH|].
  destruct (existing_course_teams m !! _); simpl.
  - destruct team as [t|]; [| done].
    match goal with |- context [add_user_to_team_loop u r tss ?t ?m1 ?w1] =>
      specialize (IH t m1 w1) end. simpl in IH. done.
  - match goal with |- context [add_user_to_team_loop u r tss ?t ?m1 ?w1] =>
      specialize (IH t m1 w1) end. simpl in IH. done.
Qed.

Lemma commit_rows_manager rds m w :
  let m' := manager_of (fst (commit_rows rds m w)) in
  validation_errors m' = validation_errors m
  ∧ teamset_ids m' = teamset_ids m
  ∧ existing_course_teams m' = existing_course_teams m
  ∧ course m' = course m.
Proof.
  revert m w. induction rds as [|row rds IH]; intros m w; simpl; [done|].
  pose proof (add_user_to_team_loop_manager (fst row) (snd row) (teamset_ids m) None m w)
    as Hrow.
  unfold add_user_to_team. simpl in Hrow.
  destruct (add_user_to_team_loop _ _ _ _ _ _) as [[[] m1|e m1] w1]; simpl in *; [| done].
  specialize (IH m1 w1). simpl in IH.
  destruct Hrow as (-> & -> & -> & ->) in IH. done.
Qed.

(** ** The shape of a run *)

Lemma process_row_inr w m l row b m' :
  process_row w m l row = Ret (inr b) m' → b = false.
Proof.
  unfold process_row. case_bool_decide; [done|].
  destruct (is_username_unique _ _ _) as [[] m1]; simpl; [| congruence].
  destruct (get_user _ _ _) as [[user|] m2]; [| done].
  destruct (validate_user_enrolled_in_course _ _ _) as [[] m3]; simpl; [| done].
  destruct (validate_user_assignment_to_team_and_teamset _ _ _ _) as [[] m4|]; congruence.
Qed.

Lemma process_rows_inr w rs l m b m' :
  process_rows w rs l m = Ret (inr b) m' → b = false.
Proof.
  revert l m. induction rs as [|row rs IH]; intros l m;
    rewrite ?process_rows_nil, ?process_rows_cons; [done|].
  destruct (process_row w m l row) as [[l'|b'] m1|] eqn:E; [by apply IH | | done].
  intros [= -> ->]. by eapply process_row_inr.
Qed.

(** The run on a file that reads without trouble, with the row loop
    written over the rows. *)
Lemma run_decoded w m (f : InputFile) :
  set_team_membership_from_csv w m f =
    let m0 := with_teamset_ids m (drop 2 (fieldnames f)) in
    let '(ok, m1) := validate_teamsets m0 in
    if negb ok then (Ret false m1, w)
    else
      let m4 := load_course_teams w
                  (load_course_team_memberships w (load_user_ids_by_teamset_id w m1)) in
      match process_rows w (rows f) (mkLocals ∅ []) m4 with
      | Exc e m5 => (Exc e m5, w)
      | Ret (inr b) m5 => (Ret b m5, w)
      | Ret (inl l) m5 =>
          if bool_decide (validation_errors m5 = []) then
            match commit_rows (row_dictionaries l) m5 w with
            | (Ret _ m6, w') => (Ret true m6, w')
            | (Exc e m6, w') => (Exc e m6, w')
            end
          else (Ret false m5, w)
      end.
Proof. reflexivity. Qed.

Lemma run_shape_intro w m f : run_shape w m f (set_team_membership_from_csv w m f).
Proof.
  rewrite run_decoded. cbv zeta.
  pose proof (validate_teamsets_loop_spec
                (configured_teamset_ids (course m)) ∅ (drop 2 (fieldnames f))
                (with_teamset_ids m (drop 2 (fieldnames f)))) as Hgate.
  unfold validate_teamsets.
  change (list_to_set (teamset_id <$> teamsets (teams_configuration
            (course (with_teamset_ids m (drop 2 (fieldnames f)))))))
    with (configured_teamset_ids (course m)) in *.
  change (teamset_ids (with_teamset_ids m (drop 2 (fieldnames f))))
    with (drop 2 (fieldnames f)) in *.
  destruct (validate_teamsets_loop _ _ _ _) as [[] m1] eqn:Eg; simpl.
  2:{ by apply run_gate. }
  destruct Hgate as [-> Hok]. fold (loaded w m f).
  destruct (process_rows_frame w (rows f) (mkLocals ∅ []) (loaded w m f))
    as (x & m5 & E & F); [apply load_keys_loaded |].
  rewrite E. destruct x as [l|b].
  - case_bool_decide.
    + by eapply run_commit.
    + by eapply run_errors.
  - pose proof (process_rows_inr _ _ _ _ _ _ E) as ->. by apply run_abort.
Qed.

(** The row loop over any lines is the loop over the rows read before
    the first line that raises, followed by that exception. *)
Lemma process_lines_prefix w ls l m :
  process_lines w ls l m =
    match process_rows w (decoded_prefix ls) l m with
    | Ret (inl l') m' =>
        match first_failure ls with
        | Some e => Exc e m'
        | None => Ret (inl l') m'
        end
    | r => r
    end.
Proof.
  revert l m. induction ls as [|[| | |row] ls IH]; intros l m; try done.
  cbn [decoded_prefix first_failure line_failure process_lines].
  rewrite process_rows_cons.
  destruct (process_row w m l row) as [[l'|b] m'|]; [apply IH | done..].
Qed.

Lemma first_failure_None ls :
  first_failure ls = None → ls = Decoded <$> decoded_prefix ls.
Proof.
  induction ls as [|[| | |row] ls IH]; try done.
  cbn [decoded_prefix first_failure line_failure]. intros H.
  rewrite fmap_cons. f_equal. by apply IH.
Qed.

Lemma decoded_prefix_elem_of ls row : row ∈ decoded_prefix ls → Decoded row ∈ ls.
Proof.
  induction ls as [|[| | |r] ls IH]; simpl; try by intros ?%elem_of_nil.
  intros [-> | Hin]%elem_of_cons; [by left | right; by apply IH].
Qed.

Lemma upload_shape_intro w m u : upload_shape w m u (set_team_membership_from_csv w m u).
Proof.
  destruct (header u) as [| | |names] eqn:Hh.
  1-3: unfold set_team_membership_from_csv; rewrite Hh;
       by apply upload_header_error; rewrite Hh.
  set (f := readable_part names u).
  pose proof (run_decoded w m f) as Hf. cbv zeta in Hf.
  change (fieldnames f) with names in Hf.
  change (rows f) with (decoded_prefix (lines u)) in Hf.
  unfold set_team_membership_from_csv at 1. rewrite Hh.
  pose proof (validate_teamsets_loop_spec
                (configured_teamset_ids (course m)) ∅ (drop 2 names)
                (with_teamset_ids m (drop 2 names))) as Hgate.
  unfold validate_teamsets in *.
  change (list_to_set (teamset_id <$> teamsets (teams_configuration
            (course (with_teamset_ids m (drop 2 names))))))
    with (configured_teamset_ids (course m)) in *.
  change (teamset_ids (with_teamset_ids m (drop 2 names))) with (drop 2 names) in *.
  destruct (validate_teamsets_loop _ _ _ _) as [[] m1] eqn:Eg; cbn [negb] in *.
  2:{ rewrite <- Hf. apply upload_read; [done|]. right. fold f. by rewrite Hf. }
  destruct Hgate as [-> Hok].
  change (load_course_teams w (load_course_team_memberships w
            (load_user_ids_by_teamset_id w (with_teamset_ids m (drop 2 names)))))
    with (loaded w m f) in *.
  rewrite process_lines_prefix.
  destruct (process_rows_frame w (decoded_prefix (lines u)) (mkLocals ∅ []) (loaded w m f))
    as (x & m5 & E & F); [apply load_keys_loaded |].
  rewrite E in Hf |- *. destruct x as [l|b].
  - destruct (first_failure (lines u)) as [e|] eqn:Hff.
    + by eapply upload_line_error.
    + rewrite <- Hf. apply upload_read; [done | by left].
  - pose proof (process_rows_inr _ _ _ _ _ _ E) as ->.
    rewrite <- Hf. apply upload_read; [done|]. right. fold f. by rewrite Hf.
Qed.

Lemma validate_teamsets_false m m1 :
  validate_teamsets m = (false, m1) →
  ∃ e, m1 = with_validation_errors m (validation_errors m ++ [e]).
Proof.
  unfold validate_teamsets. intros E.
  pose proof (validate_teamsets_loop_spec
    (list_to_set (teamset_id <$> teamsets (teams_configuration (course m))))
    ∅ (teamset_ids m) m) as H.
  rewrite E in H. destruct H as [(ts & _ & [-> | ->]) _]; by eexists.
Qed.

(** ** C5: the teamset gate *)

(** C5.  When a teamset column of the header (the columns after the
    first two) is not configured for the course, or the same teamset
    identifier appears twice among them, the run returns [False] with
    exactly one error message (about one of the header's columns); the
    three caches are still empty, the outcome does not depend on the
    rows, [number_of_record_added] is 0 and storage is untouched. *)
Theorem bad_header_fails_with_one_error (w : World) (c : Course) (k : Z) (f : InputFile) :
  (∃ ts, ts ∈ drop 2 (fieldnames f)
         ∧ ts ∉ teamset_id <$> teamsets (teams_configuration c))
  ∨ ¬ NoDup (drop 2 (fieldnames f)) →
  ∃ ts e,
    ts ∈ drop 2 (fieldnames f)
    ∧ (e = msg_teamset_duplicated ts ∨ e = msg_teamset_does_not_exist ts)
    ∧ set_team_membership_from_csv w
        (with_max_errors (TeamMembershipImportManager c) k) f
      = (Ret false (mkManager [e] (drop 2 (fieldnames f)) ∅ 0 c k ∅ ∅), w).
Proof.
  intros Hbad.
  set (m0 := with_teamset_ids (with_max_errors (TeamMembershipImportManager c) k)
               (drop 2 (fieldnames f))).
  pose proof (validate_teamsets_loop_spec (configured_teamset_ids c) ∅
                (drop 2 (fieldnames f)) m0) as Hgate.
  unfold set_team_membership_from_csv, validate_teamsets.
  change (header (decoded f)) with (Fieldnames (fieldnames f)). cbv iota. fold m0.
  change (list_to_set (teamset_id <$> teamsets (teams_configuration (course m0))))
    with (configured_teamset_ids c).
  change (teamset_ids m0) with (drop 2 (fieldnames f)).
  destruct (validate_teamsets_loop _ _ _ _) as [[] m1]; simpl.
  - exfalso. destruct Hgate as [_ [Hnd Hall]]. destruct Hbad as [(ts & Hin & Hout) | Hdup].
    + destruct (Hall ts Hin) as [Hc _]. apply Hout.
      unfold configured_teamset_ids in Hc. by apply elem_of_list_to_set in Hc.
    + by apply Hdup.
  - destruct Hgate as [(ts & Hin & Hm) _].
    destruct Hm as [-> | ->]; eexists ts, _; (split; [done|]); eauto.
Qed.

(** ** Returning [False] from inside the loops *)

Lemma app_singleton_nonempty {A} (l : list A) (x : A) : l ++ [x] ≠ [].
Proof. by destruct l. Qed.

Lemma add_error_nonempty m msg b m' :
  add_error_and_check_if_max_exceeded m msg = (b, m') → validation_errors m' ≠ [].
Proof. rewrite add_error_spec. intros [= _ <-]. apply app_singleton_nonempty. Qed.

Lemma validate_assignment_body_return w m u r ts b m' :
  validate_assignment_body w m u r ts = Ret (Some b) m' →
  b = false ∧ validation_errors m' ≠ [].
Proof.
  unfold validate_assignment_body. case_bool_decide; [done|].
  destruct (existing_course_teams m !! _) as [team|].
  - destruct (match default_max_team_size _ with Some _ => _ | None => _ end)
      as [stop m1] eqn:E1.
    destruct stop.
    + intros [= <- <-]. split; [done|].
      destruct (default_max_team_size _); [case_bool_decide|]; simplify_eq.
      by eapply add_error_nonempty.
    + case_bool_decide; [| done].
      destruct (add_error_and_check_if_max_exceeded m1 _) as [[] m2] eqn:E2; [| done].
      intros [= <- <-]. split; [done|]. by eapply add_error_nonempty.
  - destruct (user_ids_by_teamset_id m !! ts); [| done].
    destruct (if bool_decide _ then _ else _) as [stop m1] eqn:E1.
    destruct stop; [| done]. intros [= <- <-]. split; [done|].
    case_bool_decide; simplify_eq. by eapply add_error_nonempty.
Qed.

Lemma validate_assignment_loop_false w u r tss m m' :
  validate_assignment_loop w u r tss m = Ret false m' → validation_errors m' ≠ [].
Proof.
  revert m. induction tss as [|ts tss IH]; intros m; simpl; [done|].
  destruct (validate_assignment_body w m u r ts) as [[b|] m1|] eqn:E; [| by apply IH | done].
  intros [= -> ->]. by apply validate_assignment_body_return in E as [_ ?].
Qed.

Lemma is_username_unique_false m uname seen m' :
  is_username_unique m uname seen = (false, m') → validation_errors m' ≠ [].
Proof.
  unfold is_username_unique. case_bool_decide; [| done].
  destruct (add_error_and_check_if_max_exceeded _ _) as [[] m1] eqn:E; [| done].
  intros [= <-]. by eapply add_error_nonempty.
Qed.

Lemma process_row_return_errors w m l row b m' :
  process_row w m l row = Ret (inr b) m' → validation_errors m' ≠ [].
Proof.
  unfold process_row. case_bool_decide; [done|].
  destruct (is_username_unique _ _ _) as [[] m1] eqn:E1; simpl.
  2:{ intros [= _ <-]. by eapply is_username_unique_false. }
  destruct (get_user _ _ _) as [[user|] m2]; [| done].
  destruct (validate_user_enrolled_in_course _ _ _) as [[] m3]; simpl; [| done].
  unfold validate_user_assignment_to_team_and_teamset.
  destruct (validate_assignment_loop _ _ _ _ _) as [[] m4|] eqn:E4; [done | | done].
  intros [= _ <-]. by eapply validate_assignment_loop_false.
Qed.

Lemma process_rows_return_errors w rs l m b m' :
  process_rows w rs l m = Ret (inr b) m' → validation_errors m' ≠ [].
Proof.
  revert l m. induction rs as [|row rs IH]; intros l m;
    rewrite ?process_rows_nil, ?process_rows_cons; [done|].
  destruct (process_row w m l row) as [[l'|b'] m1|] eqn:E; [by apply IH | | done].
  intros [= -> ->]. by eapply process_row_return_errors.
Qed.

(** A run that leaves an error on record returned [False] and wrote
    nothing, whatever manager it started from. *)
Lemma run_with_errors w m (f : InputFile) :
  let res := set_team_membership_from_csv w m f in
  validation_errors (manager_of res.1) ≠ [] →
  res.1 = Ret false (manager_of res.1)
  ∧ res.2 = w
  ∧ number_of_record_added (manager_of res.1) = number_of_record_added m.
Proof.
  intros res. subst res.
  destruct (run_shape_intro w m f)
    as [m1 Hg | m5 _ _ F | l m5 _ _ F _ | l m5 _ _ F Hnil]; simpl.
  - intros _. apply validate_teamsets_false in Hg as [e ->]. done.
  - intros _. split_and!; [done..|]. by rewrite (frame_number _ _ F).
  - intros _. split_and!; [done..|]. by rewrite (frame_number _ _ F).
  - intros Hne. exfalso. apply Hne.
    pose proof (commit_rows_manager (row_dictionaries l) m5 w) as (He & _).
    destruct (commit_rows _ _ _) as [[[] m6|e m6] w']; simpl in *; congruence.
Qed.

(** A run that returns [False] has an error on record. *)
Lemma run_false_errors w m (f : InputFile) :
  returned (set_team_membership_from_csv w m f).1 = Some false →
  validation_errors (manager_of (set_team_membership_from_csv w m f).1) ≠ [].
Proof.
  destruct (run_shape_intro w m f)
    as [m1 Hg | m5 _ E _ | l m5 _ _ _ Hne | l m5 _ _ _ _]; simpl.
  - intros _. apply validate_teamsets_false in Hg as [e ->]. apply app_singleton_nonempty.
  - intros _. by eapply process_rows_return_errors.
  - done.
  - by destruct (commit_rows _ _ _) as [[[] m6|e m6] w'].
Qed.

(** The same on any upload: a run that leaves an error on record wrote
    nothing and did not return [True]; it returned [False], or it raised
    the exception that was waiting in the upload. *)
Lemma upload_with_errors w m (u : Upload) :
  let res := set_team_membership_from_csv w m u in
  validation_errors (manager_of res.1) ≠ [] →
  res.2 = w
  ∧ number_of_record_added (manager_of res.1) = number_of_record_added m
  ∧ (res.1 = Ret false (manager_of res.1)
     ∨ ∃ e, read_failure u = Some e ∧ res.1 = Exc e (manager_of res.1))
  ∧ (read_failure u = None → res.1 = Ret false (manager_of res.1)).
Proof.
  intros res. subst res. unfold read_failure.
  destruct (upload_shape_intro w m u) as [e He | names e l m5 Hh _ Hff _ F | names Hh _].
  - intros _. rewrite He. simpl. split_and!; [done | done | | done]. right. by exists e.
  - intros _. rewrite Hh, Hff. simpl. split_and!; [done | | | done].
    + by rewrite (frame_number _ _ F).
    + right. by exists e.
  - intros Herr.
    destruct (run_with_errors w m (readable_part names u) Herr) as (H1 & H2 & H3).
    split_and!; [done | done | by left | done].
Qed.

(** ** C1: an error on record means no write *)

(** C1 (as the code has it).  Whatever the upload, the storage and the
    error threshold, when the run leaves at least one validation error on
    record, storage and event log are what they were before the run (no
    team, no membership, no event) and [number_of_record_added] is still
    0.  The run returns [False], unless the row loop came to a data line
    that raises (a line that does not decode, a line the csv module
    refuses, a dictionary without [user]): then that exception escapes
    and nothing is returned.  When every data line reads, the run returns
    [False]. *)
Theorem errors_block_all_writes (w : World) (c : Course) (k : Z) (u : Upload) :
  let res := set_team_membership_from_csv w
               (with_max_errors (TeamMembershipImportManager c) k) u in
  validation_errors (manager_of res.1) ≠ [] →
  res.2 = w
  ∧ number_of_record_added (manager_of res.1) = 0
  ∧ (res.1 = Ret false (manager_of res.1)
     ∨ ∃ e, first_failure (lines u) = Some e ∧ res.1 = Exc e (manager_of res.1))
  ∧ (first_failure (lines u) = None → res.1 = Ret false (manager_of res.1)).
Proof.
  intros res Hne.
  set (m := with_max_errors (TeamMembershipImportManager c) k) in *.
  destruct (upload_with_errors w m u Hne) as (H1 & H2 & H3 & H4). fold res in H1, H2, H3, H4.
  assert (header_failure (header u) = None) as Hh.
  { destruct (header_failure (header u)) as [e|] eqn:He; [| done]. exfalso.
    apply Hne. subst res. unfold set_team_membership_from_csv.
    by destruct (header u). }
  unfold read_failure in H3, H4. rewrite Hh in H3, H4. done.
Qed.

(** ** Usernames seen so far *)

Lemma process_row_seen w m l row l' m' :
  process_row w m l row = Ret (inl l') m' →
  csv_usernames l ⊆ csv_usernames l'
  ∧ (row_user row ≠ "" → row_user row ∈ csv_usernames l').
Proof.
  unfold process_row. case_bool_decide; [intros [= <- <-]; by split |].
  destruct (is_username_unique _ _ _) as [[] m1]; simpl; [| done].
  destruct (get_user _ _ _) as [[user|] m2].
  2:{ intros [= <- <-]. simpl. set_solver. }
  destruct (validate_user_enrolled_in_course _ _ _) as [[] m3]; simpl.
  2:{ intros [= <- <-]. simpl. set_solver. }
  destruct (validate_user_assignment_to_team_and_teamset _ _ _ _) as [[] m4|]; [| done..].
  intros [= <- <-]. simpl. set_solver.
Qed.

Lemma validate_assignment_body_keeps_errors w m u r ts :
  validation_errors m ≠ [] →
  validation_errors (manager_of (validate_assignment_body w m u r ts)) ≠ [].
Proof.
  intros Hne. unfold validate_assignment_body. case_bool_decide; [done|].
  destruct (existing_course_teams m !! _) as [team|].
  - destruct (match default_max_team_size _ with Some _ => _ | None => _ end)
      as [stop m1] eqn:E1.
    assert (validation_errors m1 ≠ []) as Hm1.
    { destruct (default_max_team_size _); [case_bool_decide|]; simplify_eq; try done.
      by eapply add_error_nonempty. }
    destruct stop; [done|]. case_bool_decide; [| done].
    destruct (add_error_and_check_if_max_exceeded m1 _) as [[] m2] eqn:E2;
      apply add_error_nonempty in E2; done.
  - destruct (user_ids_by_teamset_id m !! ts); [| done].
    destruct (if bool_decide _ then _ else _) as [stop m1] eqn:E1.
    assert (validation_errors m1 ≠ []) as Hm1.
    { case_bool_decide; simplify_eq; try done. by eapply add_error_nonempty. }
    by destruct stop.
Qed.

Lemma validate_assignment_loop_keeps_errors w u r tss m :
  validation_errors m ≠ [] →
  validation_errors (manager_of (validate_assignment_loop w u r tss m)) ≠ [].
Proof.
  revert m. induction tss as [|ts tss IH]; intros m Hne; simpl; [done|].
  pose proof (validate_assignment_body_keeps_errors w m u r ts Hne) as Hb.
  destruct (validate_assignment_body w m u r ts) as [[b|] m1|]; simpl in *; auto.
Qed.

Lemma process_row_duplicate w m l row x m' :
  row_user row ≠ "" → row_user row ∈ csv_usernames l →
  process_row w m l row = Ret x m' →
  validation_errors m' ≠ [].
Proof.
  intros Hne Hin. destruct x as [l'|b]; [| apply process_row_return_errors].
  unfold process_row. rewrite bool_decide_eq_false_2 by done.
  unfold is_username_unique. rewrite bool_decide_eq_true_2 by done.
  destruct (add_error_and_check_if_max_exceeded _ _) as [[] m1] eqn:E1; simpl; [done|].
  apply add_error_nonempty in E1.
  destruct (get_user _ _ _) as [[user|] m2] eqn:E2; apply get_user_frame in E2.
  2:{ intros [= _ <-]. by eapply frame_nonempty. }
  destruct (validate_user_enrolled_in_course _ _ _) as [[] m3] eqn:E3;
    apply validate_user_enrolled_frame in E3; simpl.
  2:{ intros [= _ <-]. eauto using frame_nonempty. }
  assert (validation_errors m3 ≠ []) as H3 by eauto using frame_nonempty.
  pose proof (validate_assignment_loop_keeps_errors w user row (teamset_ids m3) m3 H3) as H4.
  unfold validate_user_assignment_to_team_and_teamset.
  destruct (validate_assignment_loop _ _ _ _ _) as [[] m4|]; [| done..].
  by intros [= _ <-].
Qed.

Lemma process_rows_keep_errors w rs l m x m' :
  keys_loaded m → validation_errors m ≠ [] →
  process_rows w rs l m = Ret x m' → validation_errors m' ≠ [].
Proof.
  intros K Hne E.
  destruct (process_rows_frame w rs l m K) as (x' & m'' & E' & F).
  rewrite E in E'. simplify_eq. by eapply frame_nonempty.
Qed.

Lemma process_rows_seen_again w rs l m x m' r :
  keys_loaded m →
  r ∈ rs → row_user r ≠ "" → row_user r ∈ csv_usernames l →
  process_rows w rs l m = Ret x m' → validation_errors m' ≠ [].
Proof.
  revert l m. induction rs as [|row rs IH]; intros l m K Hin Hne Hseen;
    rewrite ?process_rows_nil, ?process_rows_cons.
  { by apply elem_of_nil in Hin. }
  destruct (process_row_frame w m l row K) as (y & m1 & E1 & F1). rewrite E1.
  apply elem_of_cons in Hin as [<- | Hin].
  - pose proof (process_row_duplicate _ _ _ _ _ _ Hne Hseen E1) as H1.
    destruct y as [l1|b]; [| by intros [= _ <-]].
    apply process_rows_keep_errors; [by eapply keys_loaded_frame | done].
  - destruct y as [l1|b]; [| intros [= _ <-]; by eapply process_row_return_errors].
    apply process_row_seen in E1 as [Hsub _].
    apply IH; [by eapply keys_loaded_frame | done | done | set_solver].
Qed.

Lemma process_rows_duplicate w pre r1 mid r2 post l m x m' :
  keys_loaded m →
  row_user r1 = row_user r2 → row_user r1 ≠ "" →
  process_rows w (pre ++ r1 :: mid ++ r2 :: post) l m = Ret x m' →
  validation_errors m' ≠ [].
Proof.
  intros K Heq Hne. revert l m K.
  induction pre as [|row pre IH]; intros l m K; simpl; rewrite process_rows_cons.
  - destruct (process_row_frame w m l r1 K) as (y & m1 & E1 & F1). rewrite E1.
    destruct y as [l1|b]; [| intros [= _ <-]; by eapply process_row_return_errors].
    apply process_row_seen in E1 as [_ Hseen].
    apply (process_rows_seen_again _ _ _ _ _ _ r2); [by eapply keys_loaded_frame | | | ].
    + apply elem_of_app. right. by left.
    + by rewrite <- Heq.
    + rewrite <- Heq. by apply Hseen.
  - destruct (process_row_frame w m l row K) as (y & m1 & E1 & F1). rewrite E1.
    destruct y as [l1|b]; [| intros [= _ <-]; by eapply process_row_return_errors].
    apply IH. by eapply keys_loaded_frame.
Qed.

(** ** C6: the same user identifier on two rows *)

(** On a file that reads without trouble and has the same non-empty
    identifier on two rows, the run leaves an error on record. *)
Lemma run_duplicate_errors w m (f : InputFile) pre r1 mid r2 post :
  rows f = pre ++ r1 :: mid ++ r2 :: post →
  row_user r1 = row_user r2 →
  row_user r1 ≠ "" →
  validation_errors (manager_of (set_team_membership_from_csv w m f).1) ≠ [].
Proof.
  intros Hrows Heq Hne.
  destruct (run_shape_intro w m f)
    as [m1 Hg | m5 _ E F | l m5 _ E F Hn | l m5 _ E F Hnil]; simpl.
  - apply validate_teamsets_false in Hg as [e ->]. apply app_singleton_nonempty.
  - by eapply process_rows_return_errors.
  - done.
  - exfalso. rewrite Hrows in E.
    eapply process_rows_duplicate in E; [done | apply load_keys_loaded | done..].
Qed.

Lemma first_failure_app ls1 ls2 :
  first_failure (ls1 ++ ls2) = None →
  first_failure ls1 = None ∧ first_failure ls2 = None.
Proof.
  induction ls1 as [|[| | |row] ls1 IH]; done.
Qed.

Lemma decoded_prefix_app ls1 ls2 :
  first_failure ls1 = None →
  decoded_prefix (ls1 ++ ls2) = decoded_prefix ls1 ++ decoded_prefix ls2.
Proof.
  induction ls1 as [|[| | |row] ls1 IH]; try done.
  cbn [first_failure line_failure]. intros H. simpl. f_equal. by apply IH.
Qed.

(** C6 (as the code has it).  When the same non-empty user identifier
    stands on two data lines of the upload, storage is what it was before
    the run: no membership (and no team, no event) from that upload is
    committed, and the run does not return [True].  It returns [False],
    unless the upload has a line that raises (the header or a data line
    that does not decode or that the csv module refuses, an upload
    without any line, a dictionary without [user]) and the run came to it:
    then that exception escapes.  When the upload reads without trouble,
    the run returns [False]. *)
Theorem duplicate_identifier_fails (w : World) (c : Course) (k : Z) (u : Upload)
    (pre mid post : list Line) (r1 r2 : Row) :
  lines u = pre ++ Decoded r1 :: mid ++ Decoded r2 :: post →
  row_user r1 = row_user r2 →
  row_user r1 ≠ "" →
  let res := set_team_membership_from_csv w
               (with_max_errors (TeamMembershipImportManager c) k) u in
  res.2 = w
  ∧ memberships res.2 = memberships w
  ∧ (res.1 = Ret false (manager_of res.1)
     ∨ ∃ e, read_failure u = Some e ∧ res.1 = Exc e (manager_of res.1))
  ∧ (read_failure u = None → res.1 = Ret false (manager_of res.1)).
Proof.
  intros Hlines Heq Hne res.
  set (m := with_max_errors (TeamMembershipImportManager c) k) in *.
  subst res. unfold read_failure.
  destruct (upload_shape_intro w m u) as [e He | names e l m5 Hh _ Hff _ F | names Hh Hread].
  - rewrite He. simpl. split_and!; [done | done | | done]. right. by exists e.
  - rewrite Hh, Hff. simpl. split_and!; [done | done | | done]. right. by exists e.
  - set (f := readable_part names u) in *.
    assert (validation_errors (manager_of (set_team_membership_from_csv w m f).1) ≠ [])
      as Herr.
    { destruct Hread as [Hff | Hfalse]; [| by apply run_false_errors].
      rewrite Hlines in Hff.
      apply first_failure_app in Hff as Hparts. destruct Hparts as [Hpre Hrest].
      cbn [first_failure line_failure] in Hrest.
      apply first_failure_app in Hrest as Hparts. destruct Hparts as [Hmid _].
      apply (run_duplicate_errors w m f (decoded_prefix pre) r1 (decoded_prefix mid) r2
               (decoded_prefix post)); [| done..].
      change (rows f) with (decoded_prefix (lines u)). rewrite Hlines.
      rewrite decoded_prefix_app by done. cbn [decoded_prefix].
      by rewrite decoded_prefix_app by done. }
    destruct (run_with_errors w m f Herr) as (H1 & H2 & _).
    split_and!; [done | by rewrite H2 | by left | done].
Qed.

(** ** C8: resolving the user identifier *)

Lemma find_user_by_login_Some w name u :
  find_user_by_login w name = Some u → u ∈ users w ∧ username u = name.
Proof.
  unfold find_user_by_login. intros [Hin Hb]%find_some.
  split; [by apply list_elem_of_In | by apply bool_decide_eq_true in Hb].
Qed.

Lemma find_user_by_email_Some w name u :
  find_user_by_email w name = Some u → u ∈ users w ∧ email u = name.
Proof.
  unfold find_user_by_email. intros [Hin Hb]%find_some.
  split; [by apply list_elem_of_In | by apply bool_decide_eq_true in Hb].
Qed.

Lemma find_user_by_login_None w name :
  find_user_by_login w name = None ↔ ∀ u, u ∈ users w → username u ≠ name.
Proof.
  unfold find_user_by_login. split.
  - intros Hnone u Hin Heq. apply list_elem_of_In in Hin.
    pose proof (find_none _ _ Hnone u Hin) as Hb. simpl in Hb.
    by apply bool_decide_eq_false in Hb.
  - intros Hall. destruct (find _ _) as [u|] eqn:E; [| done].
    apply find_some in E as [Hin Hb]. apply bool_decide_eq_true in Hb.
    apply list_elem_of_In in Hin. by destruct (Hall u Hin).
Qed.

Lemma find_user_by_email_None w name :
  find_user_by_email w name = None ↔ ∀ u, u ∈ users w → email u ≠ name.
Proof.
  unfold find_user_by_email. split.
  - intros Hnone u Hin Heq. apply list_elem_of_In in Hin.
    pose proof (find_none _ _ Hnone u Hin) as Hb. simpl in Hb.
    by apply bool_decide_eq_false in Hb.
  - intros Hall. destruct (find _ _) as [u|] eqn:E; [| done].
    apply find_some in E as [Hin Hb]. apply bool_decide_eq_true in Hb.
    apply list_elem_of_In in Hin. by destruct (Hall u Hin).
Qed.

(** C8.  For a data row that reaches the resolution of its (non-empty)
    identifier: a user with exactly that username is taken first; only
    when there is none, a user with exactly that email address; when
    there is neither, [get_user] records the error and returns [None],
    the row is dropped without any further check (nothing but that error
    changes in the manager, the row is not kept for the commit phase), and
    the row loop goes on with the rows after it, whatever [max_errors]
    is. *)
Theorem unresolved_user_skips_row (w : World) (m m1 : Manager) (l : Locals)
    (row : Row) (rest : list Row) :
  row_user row ≠ "" →
  is_username_unique m (row_user row) (csv_usernames l) = (true, m1) →
  (∀ u, get_user w m1 (row_user row) = (Some u, m1) ↔
        u ∈ users w ∧
        (find_user_by_login w (row_user row) = Some u
         ∨ (∀ u', u' ∈ users w → username u' ≠ row_user row)
           ∧ find_user_by_email w (row_user row) = Some u))
  ∧ (∀ u, find_user_by_login w (row_user row) = Some u → username u = row_user row)
  ∧ (∀ u, find_user_by_email w (row_user row) = Some u → email u = row_user row)
  ∧ ((∀ u, u ∈ users w → username u ≠ row_user row ∧ email u ≠ row_user row) →
     let m2 := with_validation_errors m1
                 (validation_errors m1 ++ [msg_user_does_not_exist (row_user row)]) in
     let l1 := mkLocals ({[row_user row]} ∪ csv_usernames l) (row_dictionaries l) in
     get_user w m1 (row_user row) = (None, m2)
     ∧ process_row w m l row = Ret (inl l1) m2
     ∧ process_rows w [row] l m = Ret (inl l1) m2
     ∧ process_rows w (row :: rest) l m = process_rows w rest l1 m2
     ∧ ∀ ls, process_lines w (Decoded row :: ls) l m = process_lines w ls l1 m2).
Proof.
  intros Hne Hu. split_and!.
  - intros u. unfold get_user. split.
    + destruct (find_user_by_login _ _) as [u1|] eqn:E1.
      { intros [= ->]. apply find_user_by_login_Some in E1 as H. naive_solver. }
      destruct (find_user_by_email _ _) as [u2|] eqn:E2; [| done].
      intros [= ->]. apply find_user_by_email_Some in E2 as H.
      pose proof (proj1 (find_user_by_login_None _ _) E1). naive_solver.
    + intros [_ [-> | [Hnone ->]]]; [done|].
      by rewrite (proj2 (find_user_by_login_None _ _) Hnone).
  - intros u H. by apply find_user_by_login_Some in H as [_ ?].
  - intros u H. by apply find_user_by_email_Some in H as [_ ?].
  - intros Hnone m2 l1.
    assert (get_user w m1 (row_user row) = (None, m2)) as Hg.
    { unfold get_user.
      rewrite (proj2 (find_user_by_login_None w (row_user row))) by naive_solver.
      by rewrite (proj2 (find_user_by_email_None w (row_user row))) by naive_solver. }
    assert (process_row w m l row = Ret (inl l1) m2) as Hp.
    { unfold process_row. rewrite bool_decide_eq_false_2 by done.
      rewrite Hu. simpl. by rewrite Hg. }
    split_and!; [done | done | | |].
    + by rewrite process_rows_cons, Hp, process_rows_nil.
    + by rewrite process_rows_cons, Hp.
    + intros ls. simpl. by rewrite Hp.
Qed.

(** ** C2: the default threshold *)

Lemma add_error_default m msg :
  max_errors m = 0%Z →
  add_error_and_check_if_max_exceeded m msg =
    (true, with_validation_errors m (validation_errors m ++ [msg])).
Proof.
  intros H0. rewrite add_error_spec. f_equal. apply bool_decide_eq_true_2. lia.
Qed.

Lemma validate_assignment_body_default w m u r ts :
  max_errors m = 0%Z →
  is_Some (user_ids_by_teamset_id m !! ts) →
  (∃ m', validate_assignment_body w m u r ts = Ret None m'
         ∧ validation_errors m' = validation_errors m ∧ frame m m')
  ∨ (∃ e, cell_message e
          ∧ validate_assignment_body w m u r ts =
              Ret (Some false) (with_validation_errors m (validation_errors m ++ [e]))).
Proof.
  intros H0 [s Hs]. unfold validate_assignment_body.
  case_bool_decide; [left; eauto with frame |].
  destruct (existing_course_teams m !! _) as [team|].
  - destruct (default_max_team_size _) as [n|]; [case_bool_decide|].
    + rewrite add_error_default by done. right. eexists. split; [| done].
      left. by eexists.
    + case_bool_decide; [| left; eauto with frame].
      rewrite add_error_default by done. right. eexists. split; [| done].
      right. by do 2 eexists.
    + case_bool_decide; [| left; eauto with frame].
      rewrite add_error_default by done. right. eexists. split; [| done].
      right. by do 2 eexists.
  - rewrite Hs. case_bool_decide.
    + rewrite add_error_default by done. right. eexists. split; [| done].
      right. by do 2 eexists.
    + left. eexists. split; [done|]. split; [done|]. by apply frame_insert_user_id.
Qed.

Lemma validate_assignment_loop_default w u r tss m :
  max_errors m = 0%Z →
  (∀ ts, ts ∈ tss → is_Some (user_ids_by_teamset_id m !! ts)) →
  (∃ m', validate_assignment_loop w u r tss m = Ret true m'
         ∧ validation_errors m' = validation_errors m)
  ∨ (∃ e m', cell_message e
             ∧ validate_assignment_loop w u r tss m = Ret false m'
             ∧ validation_errors m' = validation_errors m ++ [e]).
Proof.
  revert m. induction tss as [|ts tss IH]; intros m H0 K; simpl; [left; eauto |].
  destruct (validate_assignment_body_default w m u r ts H0) as [(m1 & -> & He & F) | (e & Hk & ->)].
  { apply K. by left. }
  - destruct (IH m1) as [(m2 & -> & He2) | (e & m2 & Hk & -> & He2)].
    + by rewrite (frame_max_errors _ _ F).
    + intros ts' Hts'. destruct (K ts') as [s Hs]; [by right |].
      destruct (frame_user_ids _ _ F ts' s Hs) as (s' & Hs' & _). by exists s'.
    + left. eexists. split; [done | congruence].
    + right. exists e, m2. split_and!; [done | done | congruence].
  - right. by do 2 eexists.
Qed.

(** C2 (as the code has it).  With [max_errors] at 0, every error that is
    recorded through [add_error_and_check_if_max_exceeded] (duplicate
    username, team full, already a member) ends validation on the spot:
    the call reports the threshold as reached, the cell that recorded the
    error returns [False] with exactly that error appended and the
    teamsets after it are not looked at, and the row returns [False] from
    the row loop with exactly that one error appended, the rows after it
    not being processed.  The errors for an unresolvable or a not-enrolled
    user are appended without a look at the threshold: the row is dropped
    and the loop goes on with the next row. *)
Theorem default_threshold_stops_on_checked_errors (w : World) (m : Manager) (l : Locals)
    (row : Row) (rest : list Row) :
  max_errors m = 0%Z →
  keys_loaded m →
  (∀ msg, (add_error_and_check_if_max_exceeded m msg).1 = true)
  ∧ (∀ u r ts tss, is_Some (user_ids_by_teamset_id m !! ts) →
       (∃ m', validate_assignment_body w m u r ts = Ret None m'
              ∧ validation_errors m' = validation_errors m)
       ∨ (∃ e, cell_message e
               ∧ validate_assignment_body w m u r ts =
                   Ret (Some false) (with_validation_errors m (validation_errors m ++ [e]))
               ∧ validate_assignment_loop w u r (ts :: tss) m =
                   Ret false (with_validation_errors m (validation_errors m ++ [e]))))
  ∧ ((∃ l' m', process_row w m l row = Ret (inl l') m'
               ∧ process_rows w (row :: rest) l m = process_rows w rest l' m'
               ∧ (validation_errors m' = validation_errors m
                  ∨ ∃ e, skip_message e
                         ∧ validation_errors m' = validation_errors m ++ [e]
                         ∧ row_dictionaries l' = row_dictionaries l))
     ∨ (∃ e m', threshold_message e
                ∧ validation_errors m' = validation_errors m ++ [e]
                ∧ process_row w m l row = Ret (inr false) m'
                ∧ process_rows w (row :: rest) l m = Ret (inr false) m')).
Proof.
  intros H0 K. split_and!.
  - intros msg. by rewrite add_error_default.
  - intros u r ts tss Hs.
    destruct (validate_assignment_body_default w m u r ts H0 Hs)
      as [(m1 & E & He & _) | (e & Hk & E)].
    + left. eauto.
    + right. exists e. split_and!; [done | done |]. simpl. by rewrite E.
  - assert (∀ x m', process_row w m l row = Ret x m' →
              process_rows w (row :: rest) l m =
                match x with inl l' => process_rows w rest l' m' | inr b => Ret (inr b) m' end)
      as Hloop.
    { intros x m' E. rewrite process_rows_cons, E. by destruct x. }
    unfold process_row in *. case_bool_decide.
    { left. do 2 eexists. split; [done|]. split; [by apply (Hloop (inl l))|]. by left. }
    unfold is_username_unique in *. case_bool_decide.
    { rewrite add_error_default in * by done. simpl in *.
      right. do 2 eexists. split; [left; by eexists |].
      split; [| split; [done | by apply (Hloop (inr false))]]. done. }
    simpl in *. unfold get_user in *.
    destruct (find_user_by_login w _) as [user|].
    2: destruct (find_user_by_email w _) as [user|].
    3:{ left. do 2 eexists. split; [done|]. split; [by apply (Hloop (inl _))|].
        right. eexists. split; [left; by eexists |]. done. }
    all: unfold validate_user_enrolled_in_course in *.
    all: destruct (negb (is_enrolled w user _)); simpl in *.
    1,3: left; do 2 eexists; (split; [done|]); (split; [by apply (Hloop (inl _))|]);
         right; eexists; (split; [right; by eexists |]); done.
    all: unfold validate_user_assignment_to_team_and_teamset in *.
    all: destruct (validate_assignment_loop_default w user row (teamset_ids m) m H0)
           as [(m4 & E & He) | (e & m4 & Hk & E & He)]; [done | | ]; rewrite E in *.
    all: try (left; do 2 eexists; (split; [done|]);
              (split; [by apply (Hloop (inl _))|]); by left).
    all: right; exists e, m4; split; [by right |];
         split; [done|]; split; [done | by apply (Hloop (inr false))].
Qed.

(** ** C3 and C7: what one cell records *)

Lemma errors_added_same m m' :
  validation_errors m' = validation_errors m → errors_added m m' = [].
Proof. unfold errors_added. intros ->. by rewrite drop_all. Qed.

Lemma errors_added_app m m' es :
  validation_errors m' = validation_errors m ++ es → errors_added m m' = es.
Proof. unfold errors_added. intros ->. by rewrite drop_app_length. Qed.

Lemma msg_team_full_not_member tid uname ts :
  msg_team_full tid ≠ msg_already_member uname ts.
Proof. unfold msg_team_full, msg_already_member. intros H. injection H. discriminate. Qed.

Lemma validate_assignment_body_existing w m u r ts team :
  cell r ts ≠ "" →
  existing_course_teams m !! (cell r ts, ts) = Some team →
  validate_assignment_body w m u r ts =
    let '(stop, m1) :=
      if decide (team_is_full w m team)
      then add_error_and_check_if_max_exceeded m (msg_team_full (team_id team))
      else (false, m) in
    if stop then Ret (Some false) m1
    else if bool_decide (is_Some (existing_course_team_memberships m1
                                    !! (user_id u, team_topic_id team))) then
      let '(stop2, m2) :=
        add_error_and_check_if_max_exceeded m1
          (msg_already_member (username u) (team_topic_id team)) in
      if stop2 then Ret (Some false) m2 else Ret None m2
    else Ret None m1.
Proof.
  intros Hne Ht. unfold validate_assignment_body.
  rewrite bool_decide_eq_false_2 by done. rewrite Ht.
  destruct (decide (team_is_full w m team)) as [(n & Hn & Hle) | Hnf].
  - rewrite Hn. by rewrite bool_decide_eq_true_2 by done.
  - destruct (default_max_team_size _) as [n|] eqn:Hn; [| done].
    rewrite bool_decide_eq_false_2; [done|]. intros Hle. apply Hnf. by exists n.
Qed.

(** C3 (as the code has it).  For a non-empty cell that names a team of
    the existing-teams cache, the 'team full' error for that team is
    recorded exactly when the course configuration has a
    [default_max_team_size] and the team's member count is at or above
    it; the check is skipped only when there is no such course-wide
    default.  The maximum of the teamset itself plays no part. *)
Theorem team_full_checks_course_default (w : World) (m : Manager) (u : User) (r : Row)
    (ts : string) (team : CourseTeam) :
  cell r ts ≠ "" →
  existing_course_teams m !! (cell r ts, ts) = Some team →
  msg_team_full (team_id team)
    ∈ errors_added m (manager_of (validate_assignment_body w m u r ts))
  ↔ ∃ n, default_max_team_size (teams_configuration (course m)) = Some n
         ∧ n ≤ users_count w team.
Proof.
  intros Hne Ht. rewrite (validate_assignment_body_existing w m u r ts team Hne Ht).
  fold (team_is_full w m team).
  destruct (decide (team_is_full w m team)) as [Hf | Hnf].
  - split; [done | intros _]. rewrite add_error_spec.
    destruct (bool_decide _); simpl.
    { erewrite errors_added_app by done. by left. }
    case_bool_decide.
    + assert (∀ m2, validation_errors m2 =
                (validation_errors m ++ [msg_team_full (team_id team)]) ++
                  [msg_already_member (username u) (team_topic_id team)] →
                msg_team_full (team_id team) ∈ errors_added m m2) as Hin.
      { intros m2 H2. rewrite <- app_assoc in H2.
        erewrite errors_added_app by done. by left. }
      destruct (bool_decide _); by apply Hin.
    + simpl. erewrite errors_added_app by done. by left.
  - split; [| done]. intros Hin. exfalso. simpl in Hin. case_bool_decide.
    + assert (∀ m2, validation_errors m2 = validation_errors m ++
                  [msg_already_member (username u) (team_topic_id team)] →
                msg_team_full (team_id team) ∉ errors_added m m2) as Hnot.
      { intros m2 H2 Hin2. erewrite errors_added_app in Hin2 by done.
        apply list_elem_of_singleton in Hin2. by apply msg_team_full_not_member in Hin2. }
      destruct (bool_decide _); simpl in Hin; by eapply Hnot in Hin.
    + simpl in Hin. rewrite errors_added_same in Hin by done. by apply elem_of_nil in Hin.
Qed.

Lemma load_course_team_memberships_lookup w m ms :
  ms ∈ memberships w →
  team_course_id (membership_team ms) = course_id (course m) →
  is_Some (existing_course_team_memberships (load_course_team_memberships w m)
             !! (membership_user_id ms, team_topic_id (membership_team ms))).
Proof.
  intros Hin Hc. unfold load_course_team_memberships. simpl.
  rewrite (foldl_insert_lookup
             (λ ms, (membership_user_id ms, team_topic_id (membership_team ms)))
             (λ ms, team_pk (membership_team ms))).
  destruct (last _) as [x|] eqn:El; [by eexists |].
  apply last_None in El.
  assert (ms ∈ filter (λ x, (membership_user_id x, team_topic_id (membership_team x)) =
                            (membership_user_id ms, team_topic_id (membership_team ms)))
                      (get_memberships w (course_id (course m)))) as Hms.
  { apply list_elem_of_filter. split; [done|].
    unfold get_memberships. by apply list_elem_of_filter. }
  rewrite El in Hms. by apply elem_of_nil in Hms.
Qed.

Lemma get_user_resolve w m name :
  get_user w m name =
    match resolve w name with
    | Some u => (Some u, m)
    | None => (None, with_validation_errors m
                       (validation_errors m ++ [msg_user_does_not_exist name]))
    end.
Proof.
  unfold get_user, resolve. destruct (find_user_by_login w name); [done|].
  by destruct (find_user_by_email w name).
Qed.

(** ** Returning [False] means that the threshold is reached *)

Lemma add_error_threshold m msg m' :
  add_error_and_check_if_max_exceeded m msg = (true, m') →
  (max_errors m ≤ Z.of_nat (length (validation_errors m')))%Z.
Proof.
  unfold add_error_and_check_if_max_exceeded. intros [= Hb <-].
  by apply bool_decide_eq_true in Hb.
Qed.

Lemma validate_assignment_body_threshold w m u r ts b m' :
  validate_assignment_body w m u r ts = Ret (Some b) m' →
  (max_errors m ≤ Z.of_nat (length (validation_errors m')))%Z.
Proof.
  unfold validate_assignment_body. case_bool_decide; [done|].
  destruct (existing_course_teams m !! _) as [team|].
  - destruct (match default_max_team_size _ with Some _ => _ | None => _ end)
      as [stop m1] eqn:E1.
    destruct stop.
    + intros [= <- <-].
      destruct (default_max_team_size _); [case_bool_decide|]; simplify_eq.
      by apply add_error_threshold in E1.
    + assert (max_errors m1 = max_errors m) as Hm.
      { destruct (default_max_team_size _); [case_bool_decide|]; simplify_eq; try done.
        by apply add_error_frame in E1 as [[] _]. }
      case_bool_decide; [| done].
      destruct (add_error_and_check_if_max_exceeded m1 _) as [[] m2] eqn:E2; [| done].
      intros [= <- <-]. apply add_error_threshold in E2. lia.
  - destruct (user_ids_by_teamset_id m !! ts); [| done].
    destruct (if bool_decide _ then _ else _) as [stop m1] eqn:E1.
    destruct stop; [| done]. intros [= <- <-].
    case_bool_decide; simplify_eq. by apply add_error_threshold in E1.
Qed.

Lemma validate_assignment_loop_threshold w u r tss m m' :
  (∀ ts, ts ∈ tss → is_Some (user_ids_by_teamset_id m !! ts)) →
  validate_assignment_loop w u r tss m = Ret false m' →
  (max_errors m ≤ Z.of_nat (length (validation_errors m')))%Z.
Proof.
  revert m. induction tss as [|ts tss IH]; intros m K; simpl; [done|].
  destruct (validate_assignment_body_frame w m u r ts) as (o & m1 & E & F & _).
  { apply K. by left. }
  rewrite E. destruct o as [b|].
  - intros [= -> ->]. by eapply validate_assignment_body_threshold.
  - intros E'. rewrite <- (frame_max_errors _ _ F). apply IH; [| done].
    intros ts' Hts'. destruct (K ts') as [s Hs]; [by right |].
    destruct (frame_user_ids _ _ F ts' s Hs) as (s' & Hs' & _). by exists s'.
Qed.

Lemma process_row_threshold w m l row b m' :
  keys_loaded m →
  process_row w m l row = Ret (inr b) m' →
  (max_errors m ≤ Z.of_nat (length (validation_errors m')))%Z.
Proof.
  intros K. unfold process_row. case_bool_decide; [done|].
  destruct (is_username_unique _ _ _) as [unique m1] eqn:E1.
  destruct unique; simpl.
  2:{ intros [= _ <-]. unfold is_username_unique in E1. case_bool_decide; [| done].
      destruct (add_error_and_check_if_max_exceeded m _) as [[] m2] eqn:E2; [| done].
      simplify_eq. by apply add_error_threshold in E2. }
  apply is_username_unique_frame in E1 as F1.
  destruct (get_user w m1 _) as [[user|] m2] eqn:E2; [| done].
  apply get_user_frame in E2 as F2.
  destruct (validate_user_enrolled_in_course _ _ _) as [[] m3] eqn:E3; simpl; [| done].
  apply validate_user_enrolled_frame in E3 as F3.
  assert (frame m m3) as F by eauto with frame.
  unfold validate_user_assignment_to_team_and_teamset.
  destruct (validate_assignment_loop w user row (teamset_ids m3) m3) as [[] m4|] eqn:E4;
    [done | | done].
  intros [= _ <-]. rewrite <- (frame_max_errors _ _ F).
  eapply validate_assignment_loop_threshold; [| done].
  by apply (keys_loaded_frame m m3).
Qed.

Lemma process_rows_threshold w rs l m b m' :
  keys_loaded m →
  process_rows w rs l m = Ret (inr b) m' →
  (max_errors m ≤ Z.of_nat (length (validation_errors m')))%Z.
Proof.
  revert l m. induction rs as [|row rs IH]; intros l m K;
    rewrite ?process_rows_nil, ?process_rows_cons; [done|].
  destruct (process_row_frame w m l row K) as (x & m1 & E1 & F1). rewrite E1.
  destruct x as [l1|b1].
  - intros E. rewrite <- (frame_max_errors _ _ F1). eapply IH; [| done].
    by eapply keys_loaded_frame.
  - intros [= -> ->]. by eapply process_row_threshold.
Qed.

(** ** C7 across rows: the placement made by an earlier row *)

Lemma errors_added_later m m1 m2 msg :
  frame m m1 → frame m1 m2 → msg ∈ errors_added m1 m2 → msg ∈ errors_added m m2.
Proof.
  intros [_ _ _ _ _ _ [es1 H1] _] [_ _ _ _ _ _ [es2 H2] _].
  rewrite (errors_added_app m1 m2 es2 H2).
  rewrite (errors_added_app m m2 (es1 ++ es2)) by (by rewrite H2, H1, app_assoc).
  intros ?. apply elem_of_app. by right.
Qed.

Lemma errors_added_earlier m m1 m2 msg :
  frame m m1 → frame m1 m2 → msg ∈ errors_added m m1 → msg ∈ errors_added m m2.
Proof.
  intros [_ _ _ _ _ _ [es1 H1] _] [_ _ _ _ _ _ [es2 H2] _].
  rewrite (errors_added_app m m1 es1 H1).
  rewrite (errors_added_app m m2 (es1 ++ es2)) by (by rewrite H2, H1, app_assoc).
  intros ?. apply elem_of_app. by left.
Qed.

Lemma process_rows_app w a b l m :
  process_rows w (a ++ b) l m =
    match process_rows w a l m with
    | Ret (inl l') m' => process_rows w b l' m'
    | r => r
    end.
Proof.
  revert l m. induction a as [|row a IH]; intros l m; [done|].
  rewrite <- app_comm_cons, !process_rows_cons.
  destruct (process_row w m l row) as [[l'|b'] m'|]; [apply IH | done..].
Qed.

(** A cell that names a team outside the cache leaves the user in the set
    of its teamset whenever the loop over the cells goes on. *)
Lemma validate_assignment_body_placed w m u r ts m' :
  cell r ts ≠ "" →
  existing_course_teams m !! (cell r ts, ts) = None →
  validate_assignment_body w m u r ts = Ret None m' →
  ∃ s, user_ids_by_teamset_id m' !! ts = Some s ∧ user_id u ∈ s.
Proof.
  intros Hne Ht. unfold validate_assignment_body.
  rewrite bool_decide_eq_false_2 by done. rewrite Ht.
  destruct (user_ids_by_teamset_id m !! ts) as [s|]; [| done].
  destruct (if bool_decide _ then _ else _) as [stop m1].
  destruct stop; [done|]. intros [= <-]. simpl. rewrite lookup_insert_eq.
  eexists. split; [done|]. set_solver.
Qed.

Lemma validate_assignment_loop_placed w u r tss m ts m' :
  (∀ x, x ∈ tss → is_Some (user_ids_by_teamset_id m !! x)) →
  ts ∈ tss → cell r ts ≠ "" →
  existing_course_teams m !! (cell r ts, ts) = None →
  validate_assignment_loop w u r tss m = Ret true m' →
  ∃ s, user_ids_by_teamset_id m' !! ts = Some s ∧ user_id u ∈ s.
Proof.
  revert m. induction tss as [|ts0 tss IH]; intros m K Hin Hne Ht; simpl.
  { by apply elem_of_nil in Hin. }
  destruct (validate_assignment_body_frame w m u r ts0) as (o & m1 & E0 & F0 & Ho);
    [apply K; by left |].
  rewrite E0. destruct Ho as [-> | ->]; [| done].
  intros E.
  assert (∀ x, x ∈ tss → is_Some (user_ids_by_teamset_id m1 !! x)) as K1.
  { intros x Hx. destruct (K x) as [s Hs]; [by right |].
    destruct (frame_user_ids _ _ F0 x s Hs) as (s' & Hs' & _). by exists s'. }
  destruct (decide (ts ∈ tss)) as [Hin' | Hnotin].
  - apply (IH m1); [done | done | done | by rewrite (frame_teams _ _ F0) | done].
  - apply elem_of_cons in Hin as [-> | ?]; [| done].
    destruct (validate_assignment_body_placed w m u r ts0 m1 Hne Ht E0) as (s & Hs & Hu).
    destruct (validate_assignment_loop_frame w u r tss m1 K1) as (b & m2 & E2 & F2).
    rewrite E in E2. injection E2 as <- <-.
    destruct (frame_user_ids _ _ F2 ts0 s Hs) as (s' & Hs' & Hsub).
    exists s'. split; [done | set_solver].
Qed.

(** A row that the loop keeps has placed its user in the set of every
    teamset in which it names a team outside the cache. *)
Lemma process_row_placed w m l row l' m' u ts :
  keys_loaded m →
  row_user row ≠ "" → resolve w (row_user row) = Some u →
  is_enrolled w u (course_id (course m)) = true →
  ts ∈ teamset_ids m → cell row ts ≠ "" →
  existing_course_teams m !! (cell row ts, ts) = None →
  process_row w m l row = Ret (inl l') m' →
  ∃ s, user_ids_by_teamset_id m' !! ts = Some s ∧ user_id u ∈ s.
Proof.
  intros K Hu Hres Henr Hts Hne Ht. unfold process_row.
  rewrite bool_decide_eq_false_2 by done.
  destruct (is_username_unique _ _ _) as [[] m1] eqn:E1; simpl; [| done].
  apply is_username_unique_frame in E1 as F1.
  rewrite get_user_resolve, Hres.
  unfold validate_user_enrolled_in_course. rewrite (frame_course _ _ F1), Henr. simpl.
  unfold validate_user_assignment_to_team_and_teamset.
  destruct (validate_assignment_loop w u row (teamset_ids m1) m1) as [[] m4|] eqn:E4;
    [| done..].
  intros [= _ <-].
  eapply validate_assignment_loop_placed; [| | done | | exact E4].
  - by apply (keys_loaded_frame m m1).
  - by rewrite (frame_teamset_ids _ _ F1).
  - by rewrite (frame_teams _ _ F1).
Qed.

Lemma process_rows_placed w pre r1 mid l l1 m m1 u ts :
  keys_loaded m →
  row_user r1 ≠ "" → resolve w (row_user r1) = Some u →
  is_enrolled w u (course_id (course m)) = true →
  ts ∈ teamset_ids m → cell r1 ts ≠ "" →
  existing_course_teams m !! (cell r1 ts, ts) = None →
  process_rows w (pre ++ r1 :: mid) l m = Ret (inl l1) m1 →
  ∃ s, user_ids_by_teamset_id m1 !! ts = Some s ∧ user_id u ∈ s.
Proof.
  intros K Hu Hres Henr Hts Hne Ht E.
  rewrite process_rows_app in E.
  destruct (process_rows_frame w pre l m K) as (x0 & m0 & E0 & F0). rewrite E0 in E.
  destruct x0 as [l0|b0]; [| done].
  assert (keys_loaded m0) as K0 by by eapply keys_loaded_frame.
  rewrite process_rows_cons in E.
  destruct (process_row_frame w m0 l0 r1 K0) as (x1 & m1' & E1 & F1). rewrite E1 in E.
  destruct x1 as [l1'|b1]; [| done].
  destruct (process_row_placed w m0 l0 r1 l1' m1' u ts) as (s & Hs & Hin); try done.
  { by rewrite (frame_course _ _ F0). }
  { by rewrite (frame_teamset_ids _ _ F0). }
  { by rewrite (frame_teams _ _ F0). }
  assert (keys_loaded m1') as K1 by by eapply keys_loaded_frame.
  destruct (process_rows_frame w mid l1' m1' K1) as (x2 & m2 & E2 & F2).
  rewrite E in E2. injection E2 as <- <-.
  destruct (frame_user_ids _ _ F2 ts s Hs) as (s' & Hs' & Hsub).
  exists s'. split; [done | set_solver].
Qed.

(** A cell that names a team outside the cache for a user of the set
    records the error. *)
Lemma validate_assignment_body_new_conflict w m u r ts s :
  cell r ts ≠ "" →
  existing_course_teams m !! (cell r ts, ts) = None →
  user_ids_by_teamset_id m !! ts = Some s → user_id u ∈ s →
  ∃ o m', validate_assignment_body w m u r ts = Ret o m'
          ∧ frame m m'
          ∧ errors_added m m' = [msg_already_member (username u) ts].
Proof.
  intros Hne Ht Hs Hin.
  destruct (validate_assignment_body_frame w m u r ts) as (o & m' & E & F & _);
    [by exists s |].
  exists o, m'. split_and!; [done | done |].
  change m' with (manager_of (Ret o m')). rewrite <- E.
  unfold validate_assignment_body.
  rewrite bool_decide_eq_false_2 by done. rewrite Ht, Hs.
  rewrite bool_decide_eq_true_2 by done. rewrite add_error_spec.
  destruct (bool_decide _); simpl; by apply errors_added_app.
Qed.

Lemma validate_assignment_loop_new_conflict w u r tss m ts s b m' :
  (∀ x, x ∈ tss → is_Some (user_ids_by_teamset_id m !! x)) →
  ts ∈ tss → cell r ts ≠ "" →
  existing_course_teams m !! (cell r ts, ts) = None →
  user_ids_by_teamset_id m !! ts = Some s → user_id u ∈ s →
  validate_assignment_loop w u r tss m = Ret b m' →
  msg_already_member (username u) ts ∈ errors_added m m' ∨ b = false.
Proof.
  revert m s. induction tss as [|ts0 tss IH]; intros m s K Hin Hne Ht Hs Hu; simpl.
  { by apply elem_of_nil in Hin. }
  destruct (validate_assignment_body_frame w m u r ts0) as (o & m1 & E0 & F0 & Ho);
    [apply K; by left |].
  assert (∀ x, x ∈ tss → is_Some (user_ids_by_teamset_id m1 !! x)) as K1.
  { intros x Hx. destruct (K x) as [s0 Hs0]; [by right |].
    destruct (frame_user_ids _ _ F0 x s0 Hs0) as (s' & Hs' & _). by exists s'. }
  destruct (validate_assignment_loop_frame w u r tss m1 K1) as (b' & m2 & E2 & F2).
  destruct (decide (ts0 = ts)) as [-> | Hneq].
  - destruct (validate_assignment_body_new_conflict w m u r ts s Hne Ht Hs Hu)
      as (o' & m1' & E0' & _ & Hmsg).
    rewrite E0 in E0'. injection E0' as <- <-. rewrite E0.
    assert (msg_already_member (username u) ts ∈ errors_added m m1) as Hin1.
    { rewrite Hmsg. by left. }
    destruct o as [b0|].
    + intros [= <- <-]. by left.
    + rewrite E2. intros [= <- <-]. left. by eapply errors_added_earlier.
  - apply elem_of_cons in Hin as [-> | Hin]; [done|].
    rewrite E0. destruct Ho as [-> | ->].
    + intros E. destruct (frame_user_ids _ _ F0 ts s Hs) as (s' & Hs' & Hsub).
      rewrite E in E2. injection E2 as <- <-.
      assert (existing_course_teams m1 !! (cell r ts, ts) = None) as Ht1
        by by rewrite (frame_teams _ _ F0).
      assert (user_id u ∈ s') as Hu' by set_solver.
      destruct (IH m1 s' K1 Hin Hne Ht1 Hs' Hu' E) as [Hmsg | ->]; [| by right].
      left. by eapply errors_added_later.
    + intros [= <- <-]. by right.
Qed.

Lemma process_row_new_conflict w m l row x m' u ts s :
  keys_loaded m →
  row_user row ≠ "" → resolve w (row_user row) = Some u →
  is_enrolled w u (course_id (course m)) = true →
  ts ∈ teamset_ids m → cell row ts ≠ "" →
  existing_course_teams m !! (cell row ts, ts) = None →
  user_ids_by_teamset_id m !! ts = Some s → user_id u ∈ s →
  process_row w m l row = Ret x m' →
  msg_already_member (username u) ts ∈ errors_added m m' ∨ x = inr false.
Proof.
  intros K Hu Hres Henr Hts Hne Ht Hs Hin. unfold process_row.
  rewrite bool_decide_eq_false_2 by done.
  destruct (is_username_unique _ _ _) as [[] m1] eqn:E1; simpl.
  2:{ intros [= <- <-]. by right. }
  apply is_username_unique_frame in E1 as F1.
  rewrite get_user_resolve, Hres.
  unfold validate_user_enrolled_in_course. rewrite (frame_course _ _ F1), Henr. simpl.
  unfold validate_user_assignment_to_team_and_teamset.
  assert (keys_loaded m1) as K1 by by eapply keys_loaded_frame.
  destruct (validate_assignment_loop_frame w u row (teamset_ids m1) m1 K1)
    as (b & m4 & E4 & F4).
  rewrite E4.
  destruct (frame_user_ids _ _ F1 ts s Hs) as (s' & Hs' & Hsub).
  destruct (validate_assignment_loop_new_conflict w u row (teamset_ids m1) m1 ts s' b m4)
    as [Hmsg | ->]; try done.
  { by rewrite (frame_teamset_ids _ _ F1). }
  { by rewrite (frame_teams _ _ F1). }
  { set_solver. }
  - assert (msg_already_member (username u) ts ∈ errors_added m m4)
      by by eapply errors_added_later.
    destruct b; intros [= <- <-]; by left.
  - intros [= <- <-]. by right.
Qed.

(** A row that names a team outside the cache for a user of the set that
    the loop started with gets the error, unless validation returned
    [False] on the way. *)
Lemma process_rows_set_conflict w pre r l m x m2 u ts s :
  keys_loaded m → ts ∈ teamset_ids m →
  user_ids_by_teamset_id m !! ts = Some s → user_id u ∈ s →
  row_user r ≠ "" → resolve w (row_user r) = Some u →
  is_enrolled w u (course_id (course m)) = true →
  cell r ts ≠ "" → existing_course_teams m !! (cell r ts, ts) = None →
  process_rows w (pre ++ [r]) l m = Ret x m2 →
  msg_already_member (username u) ts ∈ errors_added m m2
  ∨ (x = inr false ∧ (max_errors m ≤ Z.of_nat (length (validation_errors m2)))%Z).
Proof.
  intros K Hts Hs Hin Hu Hres Henr Hne Ht E.
  assert (x = inr false →
          (max_errors m ≤ Z.of_nat (length (validation_errors m2)))%Z) as Hstop.
  { intros ->. by eapply process_rows_threshold. }
  cut (msg_already_member (username u) ts ∈ errors_added m m2 ∨ x = inr false).
  { intros [? | ?]; [by left | right; split; [done | by apply Hstop]]. }
  clear Hstop. rewrite process_rows_app in E.
  destruct (process_rows_frame w pre l m K) as (x0 & m1 & E0 & F0).
  rewrite E0 in E. destruct x0 as [l1|b0].
  2:{ right. injection E as <- <-. by rewrite (process_rows_inr _ _ _ _ _ _ E0). }
  destruct (frame_user_ids _ _ F0 ts s Hs) as (s' & Hs' & Hsub).
  assert (keys_loaded m1) as K1 by by eapply keys_loaded_frame.
  rewrite process_rows_cons in E.
  destruct (process_row_frame w m1 l1 r K1) as (x3 & m3 & E3 & F3). rewrite E3 in E.
  destruct (process_row_new_conflict w m1 l1 r x3 m3 u ts s') as [Hmsg | ->]; try done.
  { by rewrite (frame_course _ _ F0). }
  { by rewrite (frame_teamset_ids _ _ F0). }
  { by rewrite (frame_teams _ _ F0). }
  { set_solver. }
  - left. assert (m2 = m3) as ->.
    { destruct x3; rewrite ?process_rows_nil in E; by injection E. }
    by eapply errors_added_later.
  - right. by injection E as <- <-.
Qed.

(** The two together: a row that names a team outside the cache for a
    user whom an earlier row placed in the same teamset with a team
    outside the cache gets the error, unless validation returned [False]
    on the way. *)
Lemma process_rows_placement_conflict w pre r1 mid r l m x m2 u1 u ts :
  keys_loaded m → ts ∈ teamset_ids m →
  row_user r1 ≠ "" → resolve w (row_user r1) = Some u1 → user_id u1 = user_id u →
  cell r1 ts ≠ "" → existing_course_teams m !! (cell r1 ts, ts) = None →
  row_user r ≠ "" → resolve w (row_user r) = Some u →
  is_enrolled w u (course_id (course m)) = true →
  cell r ts ≠ "" → existing_course_teams m !! (cell r ts, ts) = None →
  process_rows w (pre ++ r1 :: mid ++ [r]) l m = Ret x m2 →
  msg_already_member (username u) ts ∈ errors_added m m2
  ∨ (x = inr false ∧ (max_errors m ≤ Z.of_nat (length (validation_errors m2)))%Z).
Proof.
  intros K Hts Hu1 Hres1 Hid Hne1 Ht1 Hu Hres Henr Hne Ht E.
  assert (x = inr false →
          (max_errors m ≤ Z.of_nat (length (validation_errors m2)))%Z) as Hstop.
  { intros ->. by eapply process_rows_threshold. }
  cut (msg_already_member (username u) ts ∈ errors_added m m2 ∨ x = inr false).
  { intros [? | ?]; [by left | right; split; [done | by apply Hstop]]. }
  clear Hstop.
  assert (pre ++ r1 :: mid ++ [r] = (pre ++ r1 :: mid) ++ [r]) as Hsplit.
  { by rewrite <- app_assoc. }
  rewrite Hsplit, process_rows_app in E.
  destruct (process_rows_frame w (pre ++ r1 :: mid) l m K) as (x0 & m1 & E0 & F0).
  rewrite E0 in E. destruct x0 as [l1|b0].
  2:{ right. injection E as <- <-. by rewrite (process_rows_inr _ _ _ _ _ _ E0). }
  destruct (process_rows_placed w pre r1 mid l l1 m m1 u1 ts) as (s & Hs & Hin);
    try done.
  { unfold is_enrolled in *. by rewrite Hid. }
  assert (keys_loaded m1) as K1 by by eapply keys_loaded_frame.
  rewrite process_rows_cons in E.
  destruct (process_row_frame w m1 l1 r K1) as (x3 & m3 & E3 & F3). rewrite E3 in E.
  destruct (process_row_new_conflict w m1 l1 r x3 m3 u ts s) as [Hmsg | ->]; try done.
  { by rewrite (frame_course _ _ F0). }
  { by rewrite (frame_teamset_ids _ _ F0). }
  { by rewrite (frame_teams _ _ F0). }
  { by rewrite <- Hid. }
  - left. assert (m2 = m3) as ->.
    { destruct x3; rewrite ?process_rows_nil in E; by injection E. }
    by eapply errors_added_later.
  - right. by injection E as <- <-.
Qed.

(** C7 (as the code has it).  For a non-empty cell under validation:
    - when the named team is in the existing-teams cache and the
      membership cache has an entry for (user, teamset of that team), the
      'already a member' error is recorded, unless the team is full and
      its 'team full' error already reached the threshold;
    - when the named team is not in the cache and the user id is in the
      user-id set of the teamset, the 'already a member' error is the one
      error recorded;
    - when the named team is not in the cache and the user id is not in
      that set, nothing is recorded and the user id is added to the set;
    - after loading, the membership cache has an entry for every
      membership of the course in storage, and the set of every teamset
      of the header holds the users with a membership in that teamset;
    - the row loop never changes the membership cache and only adds to
      the sets;
    - when the named team is in the cache, the team is full and its
      'team full' error reaches the threshold, validation returns [False]
      there with that one error, and no 'already a member' error is
      recorded for the cell;
    - when the named team is not in the cache and the loop gets past the
      row of the cell (a row with an identifier that resolves to the
      enrolled user), the user id is in the set of the teamset that the
      rows after it are checked with;
    - hence a row of the same file that resolves to a user placed by an
      earlier row, with a team outside the cache in both cells, gets the
      'already a member' error, unless the row loop returned [False] on
      the way, which it does only with the threshold reached;
    - and so does a row that names a team outside the cache for a user
      who is in the set of the teamset when the row loop starts. *)
Theorem already_member_is_recorded (w : World) (m : Manager) (u : User) (r : Row)
    (ts : string) :
  cell r ts ≠ "" →
  let m' := manager_of (validate_assignment_body w m u r ts) in
  (∀ team,
     existing_course_teams m !! (cell r ts, ts) = Some team →
     is_Some (existing_course_team_memberships m !! (user_id u, team_topic_id team)) →
     (team_is_full w m team →
      (Z.of_nat (S (length (validation_errors m))) < max_errors m)%Z) →
     msg_already_member (username u) (team_topic_id team) ∈ errors_added m m')
  ∧ (∀ s,
       existing_course_teams m !! (cell r ts, ts) = None →
       user_ids_by_teamset_id m !! ts = Some s →
       user_id u ∈ s →
       errors_added m m' = [msg_already_member (username u) ts])
  ∧ (∀ s,
       existing_course_teams m !! (cell r ts, ts) = None →
       user_ids_by_teamset_id m !! ts = Some s →
       user_id u ∉ s →
       validate_assignment_body w m u r ts =
         Ret None (with_user_ids_by_teamset_id m
                     (<[ts := {[user_id u]} ∪ s]> (user_ids_by_teamset_id m))))
  ∧ (∀ f ms,
       ms ∈ memberships w →
       team_course_id (membership_team ms) = course_id (course m) →
       is_Some (existing_course_team_memberships (loaded w m f)
                  !! (membership_user_id ms, team_topic_id (membership_team ms)))
       ∧ (team_topic_id (membership_team ms) ∈ drop 2 (fieldnames f) →
          ∃ s, user_ids_by_teamset_id (loaded w m f)
                 !! team_topic_id (membership_team ms) = Some s
               ∧ membership_user_id ms ∈ s))
  ∧ (∀ rs l x m2,
       keys_loaded m →
       process_rows w rs l m = Ret x m2 →
       existing_course_team_memberships m2 = existing_course_team_memberships m
       ∧ ∀ ts' s, user_ids_by_teamset_id m !! ts' = Some s →
                  ∃ s', user_ids_by_teamset_id m2 !! ts' = Some s' ∧ s ⊆ s')
  ∧ (∀ team,
       existing_course_teams m !! (cell r ts, ts) = Some team →
       team_is_full w m team →
       (max_errors m ≤ Z.of_nat (S (length (validation_errors m))))%Z →
       validate_assignment_body w m u r ts =
         Ret (Some false)
           (with_validation_errors m
              (validation_errors m ++ [msg_team_full (team_id team)]))
       ∧ errors_added m m' = [msg_team_full (team_id team)]
       ∧ msg_already_member (username u) (team_topic_id team) ∉ errors_added m m')
  ∧ (∀ pre mid l l1 m1,
       keys_loaded m → ts ∈ teamset_ids m →
       row_user r ≠ "" → resolve w (row_user r) = Some u →
       is_enrolled w u (course_id (course m)) = true →
       existing_course_teams m !! (cell r ts, ts) = None →
       process_rows w (pre ++ r :: mid) l m = Ret (inl l1) m1 →
       ∃ s, user_ids_by_teamset_id m1 !! ts = Some s ∧ user_id u ∈ s)
  ∧ (∀ pre r1 mid u1 l x m2,
       keys_loaded m → ts ∈ teamset_ids m →
       row_user r1 ≠ "" → resolve w (row_user r1) = Some u1 → user_id u1 = user_id u →
       cell r1 ts ≠ "" → existing_course_teams m !! (cell r1 ts, ts) = None →
       row_user r ≠ "" → resolve w (row_user r) = Some u →
       is_enrolled w u (course_id (course m)) = true →
       existing_course_teams m !! (cell r ts, ts) = None →
       process_rows w (pre ++ r1 :: mid ++ [r]) l m = Ret x m2 →
       msg_already_member (username u) ts ∈ errors_added m m2
       ∨ (x = inr false
          ∧ (max_errors m ≤ Z.of_nat (length (validation_errors m2)))%Z))
  ∧ (∀ pre l x m2 s,
       keys_loaded m → ts ∈ teamset_ids m →
       user_ids_by_teamset_id m !! ts = Some s → user_id u ∈ s →
       row_user r ≠ "" → resolve w (row_user r) = Some u →
       is_enrolled w u (course_id (course m)) = true →
       existing_course_teams m !! (cell r ts, ts) = None →
       process_rows w (pre ++ [r]) l m = Ret x m2 →
       msg_already_member (username u) ts ∈ errors_added m m2
       ∨ (x = inr false
          ∧ (max_errors m ≤ Z.of_nat (length (validation_errors m2)))%Z)).
Proof.
  intros Hne m'. subst m'. split_and!.
  - intros team Ht Hmem Hfull.
    rewrite (validate_assignment_body_existing w m u r ts team Hne Ht).
    destruct (decide (team_is_full w m team)) as [Hf | Hnf].
    + specialize (Hfull Hf). rewrite add_error_spec.
      rewrite bool_decide_eq_false_2 by lia. simpl.
      rewrite bool_decide_eq_true_2 by done.
      assert (∀ m2, validation_errors m2 =
                (validation_errors m ++ [msg_team_full (team_id team)]) ++
                  [msg_already_member (username u) (team_topic_id team)] →
                msg_already_member (username u) (team_topic_id team)
                  ∈ errors_added m m2) as Hin.
      { intros m2 H2. rewrite <- app_assoc in H2.
        erewrite errors_added_app by done. right. by left. }
      destruct (bool_decide _); by apply Hin.
    + simpl. rewrite bool_decide_eq_true_2 by done.
      assert (∀ m2, validation_errors m2 = validation_errors m ++
                  [msg_already_member (username u) (team_topic_id team)] →
                msg_already_member (username u) (team_topic_id team)
                  ∈ errors_added m m2) as Hin.
      { intros m2 H2. erewrite errors_added_app by done. by left. }
      destruct (bool_decide _); by apply Hin.
  - intros s Ht Hs Hin. unfold validate_assignment_body.
    rewrite bool_decide_eq_false_2 by done. rewrite Ht, Hs.
    rewrite bool_decide_eq_true_2 by done. rewrite add_error_spec.
    destruct (bool_decide _); simpl; by apply errors_added_app.
  - intros s Ht Hs Hnotin. unfold validate_assignment_body.
    rewrite bool_decide_eq_false_2 by done. rewrite Ht, Hs.
    by rewrite bool_decide_eq_false_2 by done.
  - intros f ms Hin Hc. split.
    + unfold loaded.
      change (existing_course_team_memberships (load_course_teams w ?x))
        with (existing_course_team_memberships x).
      by apply load_course_team_memberships_lookup.
    + intros Hts. unfold loaded.
      change (user_ids_by_teamset_id (load_course_teams w (load_course_team_memberships w ?x)))
        with (user_ids_by_teamset_id x).
      rewrite load_user_ids_lookup by done. eexists. split; [done|].
      apply elem_of_list_to_set, list_elem_of_fmap. exists ms. split; [done|].
      unfold memberships_in_teamset. by apply list_elem_of_filter.
  - intros rs l x m2 K E.
    destruct (process_rows_frame w rs l m K) as (x' & m2' & E' & F).
    rewrite E in E'. simplify_eq.
    split; [apply (frame_memberships _ _ F) | apply (frame_user_ids _ _ F)].
  - intros team Ht Hfull Hmax.
    rewrite (validate_assignment_body_existing w m u r ts team Hne Ht).
    rewrite decide_True by done. rewrite add_error_spec.
    rewrite bool_decide_eq_true_2 by done. simpl.
    rewrite (errors_added_app m _ [msg_team_full (team_id team)]) by done.
    split_and!; [done | done |].
    intros Hin%list_elem_of_singleton. symmetry in Hin.
    by apply msg_team_full_not_member in Hin.
  - intros pre mid l l1 m1 K Hts Hu Hres Henr Ht E.
    by eapply process_rows_placed.
  - intros pre r1 mid u1 l x m2 K Hts Hu1 Hres1 Hid Hne1 Ht1 Hu Hres Henr Ht E.
    by eapply (process_rows_placement_conflict w pre r1 mid r l m x m2 u1 u ts).
  - intros pre l x m2 s K Hts Hs Hin Hu Hres Henr Ht E.
    by eapply (process_rows_set_conflict w pre r l m x m2 u ts s).
Qed.

(** ** C9: the local variable [team] of [add_user_to_team] *)

Lemma add_user_to_team_loop_skip u r pre tss team m w :
  (∀ ts, ts ∈ pre → cell r ts = "") →
  add_user_to_team_loop u r (pre ++ tss) team m w =
    add_user_to_team_loop u r tss team m w.
Proof.
  induction pre as [|ts pre IH]; intros Hempty; simpl; [done|].
  rewrite bool_decide_eq_true_2 by (apply Hempty; by left).
  apply IH. intros ts' Hts'. apply Hempty. by right.
Qed.

(** C9 (as the code has it).  In the commit phase, a non-empty cell whose
    (team name, teamset) pair is in the existing-teams cache leaves the
    local variable [team] as it is: the cached team is not read.
    - With [team] unbound the call raises the unbound-local error, and
      nothing is written for the cell.
    - With [team] bound to [t], the user joins [t] and the event names [t].
    [team] is local to one call of [add_user_to_team], that is to one row:
    - when the cell is the first non-empty cell of its row, the call
      raises, wherever the row stands in the file;
    - when the one non-empty cell before it in the row named a team that is
      not in the cache, the user joins the team created for that earlier
      cell a second time. *)
Theorem cached_team_is_not_bound (u : User) (r : Row) (ts : string) (m : Manager)
    (w : World) (cached : CourseTeam) :
  cell r ts ≠ "" →
  existing_course_teams m !! (cell r ts, ts) = Some cached →
  (∀ rest, add_user_to_team_loop u r (ts :: rest) None m w
           = (Exc (UnboundLocalError "team") m, w))
  ∧ (∀ rest t, add_user_to_team_loop u r (ts :: rest) (Some t) m w
               = add_user_to_team_loop u r rest (Some t)
                   (join_team u t m w).1 (join_team u t m w).2)
  ∧ (∀ pre post,
       teamset_ids m = pre ++ ts :: post →
       (∀ ts', ts' ∈ pre → cell r ts' = "") →
       add_user_to_team m w (u, r) = (Exc (UnboundLocalError "team") m, w))
  ∧ (∀ pre ts0 mid post,
       teamset_ids m = pre ++ ts0 :: mid ++ ts :: post →
       (∀ ts', ts' ∈ pre ++ mid → cell r ts' = "") →
       cell r ts0 ≠ "" →
       existing_course_teams m !! (cell r ts0, ts0) = None →
       let '(t0, w0) := CourseTeam_create w (cell r ts0) (course_id (course m))
                          "Import from csv" ts0 in
       let '(m1, w1) := join_team u t0 m w0 in
       let '(m2, w2) := join_team u t0 m1 w1 in
       add_user_to_team m w (u, r) = add_user_to_team_loop u r post (Some t0) m2 w2).
Proof.
  intros Hne Hc. split_and!.
  - intros rest. simpl. rewrite bool_decide_eq_false_2 by done. by rewrite Hc.
  - intros rest t. simpl. rewrite bool_decide_eq_false_2 by done. by rewrite Hc.
  - intros pre post Hids Hempty. unfold add_user_to_team. simpl. rewrite Hids.
    rewrite add_user_to_team_loop_skip by done. simpl.
    rewrite bool_decide_eq_false_2 by done. by rewrite Hc.
  - intros pre ts0 mid post Hids Hempty Hne0 Hc0.
    unfold add_user_to_team. simpl fst. simpl snd. rewrite Hids.
    rewrite add_user_to_team_loop_skip
      by (intros ts' Hts'; apply Hempty, elem_of_app; by left).
    cbn [add_user_to_team_loop]. rewrite bool_decide_eq_false_2 by done.
    rewrite Hc0. cbn [CourseTeam_create].
    rewrite add_user_to_team_loop_skip
      by (intros ts' Hts'; apply Hempty, elem_of_app; by right).
    cbn [add_user_to_team_loop]. rewrite bool_decide_eq_false_2 by done.
    cbn [existing_course_teams with_number_of_record_added]. rewrite Hc. done.
Qed.

(** ** C10: teams created by the commit phase *)

Lemma fresh_team_pk_newer w t0 : t0 ∈ teams w → team_pk t0 < fresh_team_pk w.
Proof.
  intros Hin. unfold fresh_team_pk.
  assert (team_pk t0 ≤ max_list (team_pk <$> teams w)); [| lia].
  apply max_list_elem_of_le, list_elem_of_fmap. by exists t0.
Qed.

Lemma newer_mono w w1 t :
  (∀ t0, t0 ∈ teams w → t0 ∈ teams w1) → newer w1 t → newer w t.
Proof. intros Hsub Hn t0 Hin. apply Hn, Hsub, Hin. Qed.

Lemma add_user_to_team_loop_teams u r tss team m w m' w' :
  add_user_to_team_loop u r tss team m w = (Ret tt m', w') →
  (∀ t, t ∈ teams w → t ∈ teams w')
  ∧ ∀ ts, ts ∈ tss → cell r ts ≠ "" →
      existing_course_teams m !! (cell r ts, ts) = None →
      ∃ t, t ∈ teams w' ∧ newer w t ∧ made_for m (cell r ts) ts t.
Proof.
  revert team m w. induction tss as [|ts0 tss IH]; intros team m w; simpl.
  { intros [= <- <-]. split; [done|]. intros ts Hts. by apply elem_of_nil in Hts. }
  case_bool_decide as Hcell.
  { intros E. destruct (IH _ _ _ E) as [Hsub Hnew]. split; [done|].
    intros ts Hts Hne Hc. apply elem_of_cons in Hts as [-> | Hts]; [done|]. eauto. }
  destruct (existing_course_teams m !! (cell r ts0, ts0)) as [cached|] eqn:Hc0; simpl.
  - destruct team as [t|]; [| done]. intros E.
    destruct (IH _ _ _ E) as [Hsub Hnew]. split; [exact Hsub|].
    intros ts Hts Hne Hc. apply elem_of_cons in Hts as [-> | Hts]; [congruence|].
    destruct (Hnew ts Hts Hne Hc) as (t' & ? & ? & ?). exists t'. split_and!; done.
  - intros E. destruct (IH _ _ _ E) as [Hsub Hnew]. simpl in Hsub.
    assert (∀ t, t ∈ teams w → t ∈ teams w') as Hsub'.
    { intros t Ht. apply Hsub, elem_of_app. by left. }
    split; [exact Hsub'|].
    intros ts Hts Hne Hc. apply elem_of_cons in Hts as [-> | Hts].
    + eexists. split; [apply Hsub, elem_of_app; right; by left |]. split.
      * intros t0 Ht0. simpl. by apply fresh_team_pk_newer.
      * done.
    + destruct (Hnew ts Hts Hne Hc) as (t' & Hin' & Hn' & Hm').
      exists t'. split_and!; [done | | done].
      eapply newer_mono; [| exact Hn']. simpl. intros t0 Ht0. apply elem_of_app. by left.
Qed.

Lemma commit_rows_cons_inv row rds m w m' w' :
  commit_rows (row :: rds) m w = (Ret tt m', w') →
  ∃ m1 w1, add_user_to_team m w row = (Ret tt m1, w1)
           ∧ commit_rows rds m1 w1 = (Ret tt m', w')
           ∧ teamset_ids m1 = teamset_ids m
           ∧ existing_course_teams m1 = existing_course_teams m
           ∧ course m1 = course m.
Proof.
  simpl. intros E.
  pose proof (add_user_to_team_loop_manager (fst row) (snd row) (teamset_ids m) None m w)
    as (_ & H1 & H2 & H3).
  unfold add_user_to_team in *.
  destruct (add_user_to_team_loop _ _ _ _ _ _) as [[[] m1|e m1] w1]; [| done].
  exists m1, w1. split_and!; done.
Qed.

Lemma commit_rows_teams_mono rds m w m' w' :
  commit_rows rds m w = (Ret tt m', w') → ∀ t, t ∈ teams w → t ∈ teams w'.
Proof.
  revert m w. induction rds as [|row rds IH]; intros m w.
  { by intros [= <- <-]. }
  intros (m1 & w1 & E1 & E2 & _)%commit_rows_cons_inv t Ht.
  eapply IH; [done|]. unfold add_user_to_team in E1.
  by apply (add_user_to_team_loop_teams _ _ _ _ _ _ _ _ E1).
Qed.

Lemma commit_rows_app_inv a b m w m' w' :
  commit_rows (a ++ b) m w = (Ret tt m', w') →
  ∃ m1 w1, commit_rows a m w = (Ret tt m1, w1)
           ∧ commit_rows b m1 w1 = (Ret tt m', w')
           ∧ teamset_ids m1 = teamset_ids m
           ∧ existing_course_teams m1 = existing_course_teams m
           ∧ course m1 = course m.
Proof.
  revert m w. induction a as [|row a IH]; intros m w.
  { intros E. exists m, w. split_and!; done. }
  rewrite <- app_comm_cons.
  intros (m1 & w1 & E1 & E2 & H1 & H2 & H3)%commit_rows_cons_inv.
  destruct (IH _ _ E2) as (m2 & w2 & E3 & E4 & H4 & H5 & H6).
  exists m2, w2. split_and!; [| done | congruence..].
  simpl. by rewrite E1.
Qed.

Lemma commit_rows_creates a u r c m w m' w' ts :
  commit_rows (a ++ (u, r) :: c) m w = (Ret tt m', w') →
  ts ∈ teamset_ids m → cell r ts ≠ "" →
  existing_course_teams m !! (cell r ts, ts) = None →
  ∃ t, t ∈ teams w' ∧ newer w t ∧ made_for m (cell r ts) ts t.
Proof.
  intros E Hts Hne Hc.
  apply commit_rows_app_inv in E as (m1 & w1 & Ea & E & H1 & H2 & H3).
  apply commit_rows_cons_inv in E as (m2 & w2 & Er & Ec & _).
  unfold add_user_to_team in Er. simpl in Er.
  apply add_user_to_team_loop_teams in Er as [_ Hnew].
  destruct (Hnew ts) as (t & Hin & Hn & Hm); [congruence | done | congruence |].
  exists t. split_and!.
  - by eapply commit_rows_teams_mono.
  - eapply newer_mono; [| done]. by eapply commit_rows_teams_mono.
  - unfold made_for in *. by rewrite <- H3.
Qed.

Lemma commit_rows_creates_two a b c u1 r1 u2 r2 m w m' w' ts name :
  commit_rows (a ++ (u1, r1) :: b ++ (u2, r2) :: c) m w = (Ret tt m', w') →
  ts ∈ teamset_ids m → name ≠ "" → cell r1 ts = name → cell r2 ts = name →
  existing_course_teams m !! (name, ts) = None →
  ∃ t1 t2, t1 ∈ teams w' ∧ t2 ∈ teams w'
           ∧ team_pk t1 ≠ team_pk t2
           ∧ newer w t1 ∧ newer w t2
           ∧ made_for m name ts t1 ∧ made_for m name ts t2.
Proof.
  intros E Hts Hne Hc1 Hc2 Hc.
  replace (a ++ (u1, r1) :: b ++ (u2, r2) :: c)
    with ((a ++ [(u1, r1)]) ++ b ++ (u2, r2) :: c) in E by by rewrite <- app_assoc.
  apply commit_rows_app_inv in E as (m1 & w1 & E1 & E2 & H1 & H2 & H3).
  destruct (commit_rows_creates a u1 r1 [] m w m1 w1 ts E1)
    as (t1 & Hin1 & Hn1 & Hm1); [done | congruence | congruence |].
  destruct (commit_rows_creates b u2 r2 c m1 w1 m' w' ts E2)
    as (t2 & Hin2 & Hn2 & Hm2); [congruence | congruence | congruence |].
  exists t1, t2. split_and!.
  - by eapply commit_rows_teams_mono.
  - done.
  - specialize (Hn2 t1 Hin1). lia.
  - done.
  - eapply newer_mono; [| done]. by eapply commit_rows_teams_mono.
  - by rewrite <- Hc1.
  - unfold made_for in *. rewrite <- H3, <- Hc2. done.
Qed.

Lemma frame_errors_nil m m' :
  frame m m' → validation_errors m' = [] → validation_errors m = [].
Proof.
  intros F Hnil. destruct (frame_errors _ _ F) as [es Hes].
  rewrite Hes in Hnil. by apply app_eq_nil in Hnil as [? _].
Qed.

(** Without errors on record, every row with a user identifier is kept
    for the commit phase. *)
Lemma process_row_kept w m l row l' m' :
  process_row w m l row = Ret (inl l') m' →
  validation_errors m' = [] →
  (row_dictionaries l').*2 =
    (row_dictionaries l).*2 ++ (if decide (row_user row = "") then [] else [row]).
Proof.
  unfold process_row. case_bool_decide as Hu.
  { intros [= <- <-] _. rewrite decide_True by done. by rewrite app_nil_r. }
  rewrite decide_False by done.
  destruct (is_username_unique _ _ _) as [[] m1]; simpl; [| done].
  unfold get_user.
  destruct (find_user_by_login w _) as [user|].
  2: destruct (find_user_by_email w _) as [user|].
  3:{ intros [= _ <-] Hnil. simpl in Hnil. by apply app_singleton_nonempty in Hnil. }
  all: unfold validate_user_enrolled_in_course.
  all: destruct (negb (is_enrolled w user _)); simpl.
  1,3: intros [= _ <-] Hnil; simpl in Hnil; by apply app_singleton_nonempty in Hnil.
  all: destruct (validate_user_assignment_to_team_and_teamset _ _ _ _)
         as [[] m4|]; [| done..].
  all: intros [= <- <-] _; simpl; by rewrite fmap_app.
Qed.

Lemma process_rows_kept w rs l m l' m' :
  keys_loaded m →
  process_rows w rs l m = Ret (inl l') m' →
  validation_errors m' = [] →
  (row_dictionaries l').*2 =
    (row_dictionaries l).*2 ++ filter (λ r, row_user r ≠ "") rs.
Proof.
  revert l m. induction rs as [|row rs IH]; intros l m K;
    rewrite ?process_rows_nil, ?process_rows_cons.
  { intros [= <- <-] _. by rewrite app_nil_r. }
  destruct (process_row_frame w m l row K) as (x & m1 & E1 & F1). rewrite E1.
  destruct x as [l1|b]; [| done]. intros E Hnil.
  assert (keys_loaded m1) as K1 by by eapply keys_loaded_frame.
  destruct (process_rows_frame w rs l1 m1 K1) as (x' & m2 & E2 & F2).
  rewrite E in E2. simplify_eq.
  rewrite (IH _ _ K1 E Hnil).
  rewrite (process_row_kept _ _ _ _ _ _ E1) by by eapply frame_errors_nil.
  rewrite filter_cons. rewrite <- app_assoc. f_equal.
  destruct (decide (row_user row = "")) as [Hu|Hu].
  - by rewrite decide_False by (intros H; by apply H).
  - by rewrite decide_True by done.
Qed.

Lemma load_course_teams_absent w m name ts :
  existing_course_teams m !! (name, ts) = None →
  (∀ t, t ∈ teams w → team_course_id t = course_id (course m) →
        ¬ (team_name t = name ∧ team_topic_id t = ts)) →
  existing_course_teams (load_course_teams w m) !! (name, ts) = None.
Proof.
  intros Hacc Habsent. unfold load_course_teams. simpl.
  rewrite (foldl_insert_lookup (λ t, (team_name t, team_topic_id t)) id).
  destruct (last _) as [t|] eqn:El; [| done]. exfalso.
  apply last_Some_elem_of, list_elem_of_filter in El as [Hk Hin].
  unfold course_teams in Hin. apply list_elem_of_filter in Hin as [Hc Hin].
  apply (Habsent t Hin Hc). by simplify_eq.
Qed.

Lemma newer_not_stored w t : newer w t → t ∉ teams w.
Proof. intros Hn Hin. specialize (Hn t Hin). lia. Qed.

(** C10.  The commit phase never writes to [existing_course_teams]: after
    a run that returned [True] the cache is the one that was loaded.  So
    when two rows of the file (each with a user identifier) name, in the
    same teamset column, the same team that storage does not have for the
    course, the commit phase creates that team twice: storage ends up with
    two teams of different primary keys, neither of them there before,
    with that very name, teamset and course. *)
Theorem commit_creates_same_team_twice (w : World) (c : Course) (k : Z) (f : InputFile)
    (pre mid post : list Row) (r1 r2 : Row) (ts name : string)
    (m' : Manager) (w' : World) :
  set_team_membership_from_csv w
    (with_max_errors (TeamMembershipImportManager c) k) f = (Ret true m', w') →
  rows f = pre ++ r1 :: mid ++ r2 :: post →
  row_user r1 ≠ "" → row_user r2 ≠ "" →
  ts ∈ drop 2 (fieldnames f) →
  name ≠ "" → cell r1 ts = name → cell r2 ts = name →
  (∀ t, t ∈ teams w → team_course_id t = course_id c →
        ¬ (team_name t = name ∧ team_topic_id t = ts)) →
  existing_course_teams m' =
    existing_course_teams
      (loaded w (with_max_errors (TeamMembershipImportManager c) k) f)
  ∧ existing_course_teams m' !! (name, ts) = None
  ∧ ∃ t1 t2,
      t1 ∈ teams w' ∧ t2 ∈ teams w'
      ∧ team_pk t1 ≠ team_pk t2
      ∧ (t1 ∉ teams w) ∧ (t2 ∉ teams w)
      ∧ team_name t1 = name ∧ team_name t2 = name
      ∧ team_topic_id t1 = ts ∧ team_topic_id t2 = ts
      ∧ team_course_id t1 = course_id c ∧ team_course_id t2 = course_id c.
Proof.
  intros Hrun Hrows Hu1 Hu2 Hts Hname Hc1 Hc2 Habsent.
  set (m0 := with_max_errors (TeamMembershipImportManager c) k) in *.
  pose proof (run_shape_intro w m0 f) as Hshape. rewrite Hrun in Hshape.
  inversion Hshape as [| | | l m5 Hok E F Hnil Hcommit].
  pose proof (commit_rows_manager (row_dictionaries l) m5 w) as (_ & _ & Hcache & _).
  destruct (commit_rows (row_dictionaries l) m5 w) as [[[] m6|e m6] w6] eqn:Ec;
    [| done]. simpl in Hcache. simplify_eq.
  assert (existing_course_teams m' = existing_course_teams (loaded w m0 f)) as Hsame.
  { rewrite Hcache. apply (frame_teams _ _ F). }
  assert (existing_course_teams (loaded w m0 f) !! (cell r1 ts, ts) = None) as Hnone.
  { unfold loaded. by apply load_course_teams_absent. }
  split; [done|]. split; [by rewrite Hsame|].
  pose proof (process_rows_kept _ _ _ _ _ _ (load_keys_loaded w _) E Hnil) as Hkept.
  rewrite Hrows in Hkept. simpl in Hkept.
  rewrite filter_app, filter_cons_True, filter_app, filter_cons_True in Hkept by done.
  apply fmap_app_inv in Hkept as (a & rest1 & Ha & Hrest1 & Hl).
  symmetry in Hrest1.
  apply fmap_cons_inv in Hrest1 as ([u1 x1] & rest2 & Hx1 & Hrest2 & ->).
  symmetry in Hrest2.
  apply fmap_app_inv in Hrest2 as (b & rest3 & Hb & Hrest3 & ->).
  symmetry in Hrest3.
  apply fmap_cons_inv in Hrest3 as ([u2 x2] & cc & Hx2 & Hcc & ->).
  simpl in Hx1, Hx2. subst x1 x2. rewrite Hl in Ec.
  destruct (commit_rows_creates_two a b cc u1 r1 u2 r2 m5 w m' w' ts (cell r1 ts) Ec)
    as (t1 & t2 & Hin1 & Hin2 & Hpk & Hn1 & Hn2 & Hm1 & Hm2).
  - by rewrite (frame_teamset_ids _ _ F).
  - done.
  - done.
  - done.
  - by rewrite (frame_teams _ _ F).
  - destruct Hm1 as (? & ? & Hco1), Hm2 as (? & ? & Hco2).
    rewrite (frame_course _ _ F) in Hco1, Hco2.
    exists t1, t2. split_and!; try done; by apply newer_not_stored.
Qed.

(** ** The claims on the test data *)

(** Against C1 as stated.  The header, the row of the unknown user bob
    and a line that does not decode: the error for bob is recorded, the
    loop goes on, and the run raises at the next line instead of returning
    [False]. *)
Lemma error_on_record_and_run_raises :
  let u := mkUpload (Fieldnames demo_header) [Decoded row_bob; Undecodable] in
  let res := set_team_membership_from_csv storage_no_teams
               (TeamMembershipImportManager demo_course) u in
  validation_errors (manager_of res.1) = [msg_user_does_not_exist "bob"]
  ∧ raised res.1 = Some UnicodeDecodeError
  ∧ returned res.1 = None
  ∧ res.2 = storage_no_teams.
Proof. by vm_compute. Qed.

Lemma errors_block_all_writes_witness :
  let u := mkUpload (Fieldnames demo_header)
             [Decoded row_bob; Decoded row_andrew_team1] in
  let res := set_team_membership_from_csv storage_no_teams
               (with_max_errors (TeamMembershipImportManager demo_course) 5) u in
  validation_errors (manager_of res.1) = [msg_user_does_not_exist "bob"]
  ∧ res.2 = storage_no_teams
  ∧ number_of_record_added (manager_of res.1) = 0
  ∧ res.1 = Ret false (manager_of res.1).
Proof.
  intros u res. split; [by vm_compute |].
  destruct (errors_block_all_writes storage_no_teams demo_course 5 u)
    as (H1 & H2 & _ & H4); [by vm_compute |].
  split_and!; [exact H1 | exact H2 | apply H4; reflexivity].
Defined.

(** Against C2 as stated.  With the default threshold of 0 the first
    recorded error does not end validation when it is an unknown-user error: the next row is processed
    and records an error of its own. *)
Lemma default_threshold_goes_on_after_unknown_user :
  let m := TeamMembershipImportManager demo_course in
  let res := set_team_membership_from_csv storage_no_teams m
               (mkInputFile demo_header [row_bob; row_carol]) in
  max_errors m = 0%Z
  ∧ returned res.1 = Some false
  ∧ validation_errors (manager_of res.1) =
      [msg_user_does_not_exist "bob"; msg_user_does_not_exist "carol"].
Proof. by vm_compute. Qed.

Lemma default_threshold_stops_on_checked_errors_witness :
  let w := storage_andrew_in_team1 in
  let f := mkInputFile demo_header [row_andrew_team1; row_joe_team2] in
  let m := loaded w (TeamMembershipImportManager course_default_max_1) f in
  max_errors m = 0%Z
  ∧ process_rows w (rows f) (mkLocals ∅ []) m =
      Ret (inr false)
          (with_validation_errors m [msg_team_full "team1-7"]).
Proof.
  intros w f m. split; [done|].
  destruct (default_threshold_stops_on_checked_errors w m (mkLocals ∅ [])
              row_andrew_team1 [row_joe_team2] eq_refl (load_keys_loaded w _))
    as (_ & _ & [(l' & m' & E & _) | (e & m' & _ & _ & E & Erows)]).
  - exfalso. vm_compute in E. discriminate E.
  - change (rows f) with [row_andrew_team1; row_joe_team2]. rewrite Erows.
    vm_compute in E. injection E as <-. by vm_compute.
Defined.

(** Against C3 as stated.  The maximum of the teamset itself is not what
    the team is measured against.  With [masters] limited to one member and no course-wide
    default, a team of [masters] that has one member passes validation
    without a 'team full' error; with [masters] limited to five members
    and a course-wide default of one, the same team is reported full. *)
Lemma teamset_maximum_is_not_consulted :
  let w := storage_andrew_in_team1 in
  let f := mkInputFile demo_header [row_joe_team1] in
  let m1 := loaded w (TeamMembershipImportManager course_teamset_max_1) f in
  let m2 := loaded w (TeamMembershipImportManager course_default_max_1) f in
  users_count w team1 = 1
  ∧ existing_course_teams m1 !! ("team1", "masters") = Some team1
  ∧ teamset_max_team_size course_teamset_max_1 "masters" = Some (Some 1)
  ∧ validate_user_assignment_to_team_and_teamset w m1 joe row_joe_team1 = Ret true m1
  ∧ validation_errors m1 = []
  ∧ teamset_max_team_size course_default_max_1 "masters" = Some (Some 5)
  ∧ validate_user_assignment_to_team_and_teamset w m2 joe row_joe_team1 =
      Ret false (with_validation_errors m2 [msg_team_full "team1-7"]).
Proof. by vm_compute. Qed.

Lemma team_full_checks_course_default_witness :
  let w := storage_andrew_in_team1 in
  let f := mkInputFile demo_header [row_joe_team1] in
  let m := loaded w (TeamMembershipImportManager course_default_max_1) f in
  cell row_joe_team1 "masters" ≠ ""
  ∧ existing_course_teams m !! (cell row_joe_team1 "masters", "masters") = Some team1
  ∧ msg_team_full "team1-7"
      ∈ errors_added m (manager_of (validate_assignment_body w m joe row_joe_team1 "masters")).
Proof.
  intros w f m.
  assert (cell row_joe_team1 "masters" ≠ "") as H1 by by vm_compute.
  assert (existing_course_teams m !! (cell row_joe_team1 "masters", "masters") = Some team1)
    as H2 by by vm_compute.
  split; [exact H1|]. split; [exact H2|].
  apply (team_full_checks_course_default w m joe row_joe_team1 "masters" team1 H1 H2).
  exists 1. by vm_compute.
Defined.

Lemma bad_header_fails_with_one_error_witness :
  let f := mkInputFile ["user"; "mode"; "masters"; "alumni"] [row_andrew_team1] in
  ("alumni" ∈ drop 2 (fieldnames f)
   ∧ "alumni" ∉ teamset_id <$> teamsets (teams_configuration demo_course))
  ∧ ∃ ts e,
      ts ∈ drop 2 (fieldnames f)
      ∧ (e = msg_teamset_duplicated ts ∨ e = msg_teamset_does_not_exist ts)
      ∧ set_team_membership_from_csv storage_no_teams
          (with_max_errors (TeamMembershipImportManager demo_course) 0) f
        = (Ret false (mkManager [e] (drop 2 (fieldnames f)) ∅ 0 demo_course 0 ∅ ∅),
           storage_no_teams).
Proof.
  intros f.
  assert ("alumni" ∈ drop 2 (fieldnames f)
          ∧ "alumni" ∉ teamset_id <$> teamsets (teams_configuration demo_course)) as H.
  { split; apply (bool_decide_unpack _); by vm_compute. }
  split; [exact H|].
  apply (bad_header_fails_with_one_error storage_no_teams demo_course 0 f).
  left. by exists "alumni".
Defined.

(** Against C6 as stated.  The identifier andrew on two data lines, with
    a line that does not decode between them: the run raises when the row
    loop comes to that line and never returns [False]; no error is on
    record. *)
Lemma duplicate_identifier_and_run_raises :
  let u := mkUpload (Fieldnames demo_header)
             [Decoded row_andrew_team1; Undecodable; Decoded row_andrew_team1] in
  let res := set_team_membership_from_csv storage_no_teams
               (TeamMembershipImportManager demo_course) u in
  row_user row_andrew_team1 ≠ ""
  ∧ raised res.1 = Some UnicodeDecodeError
  ∧ returned res.1 = None
  ∧ validation_errors (manager_of res.1) = []
  ∧ res.2 = storage_no_teams.
Proof. by vm_compute. Qed.

Lemma duplicate_identifier_fails_witness :
  let w := storage_no_teams in
  let u := mkUpload (Fieldnames demo_header)
             [Decoded row_andrew_team1; Decoded row_joe_team2; Decoded row_andrew_team1] in
  let res := set_team_membership_from_csv w
               (with_max_errors (TeamMembershipImportManager demo_course) 3) u in
  validation_errors (manager_of res.1) =
    [msg_username_duplicate "andrew"; msg_already_member "andrew" "masters"]
  ∧ res.2 = w
  ∧ memberships res.2 = memberships w
  ∧ res.1 = Ret false (manager_of res.1).
Proof.
  intros w u res. split; [by vm_compute |].
  destruct (duplicate_identifier_fails w demo_course 3 u [] [Decoded row_joe_team2] []
              row_andrew_team1 row_andrew_team1)
    as (H1 & H2 & _ & H4); [reflexivity | reflexivity | by vm_compute |].
  split_and!; [exact H1 | exact H2 | apply H4; reflexivity].
Defined.

(** Against C7 as stated, three assignments to a teamset in which the
    user already holds a membership that get no 'already a member' error.
    - With the default threshold, a cell that sends a user to the full
      team they are already in records the 'team full' error and returns
      [False] there.
    - An earlier row of the file places andrew in the existing team
      [team1] of [masters]; a later row (andrew by email address) names
      the new team [team2] of [masters]: validation keeps both rows and
      records nothing, because the cell of the earlier row did not add
      andrew to the set of [masters].
    - An earlier row places andrew in the new team [team2] of [masters];
      a later row names the existing team [team1] of [masters]:
      validation keeps both rows and records nothing, because the cell of
      the later row does not read the set. *)
Lemma membership_conflicts_left_unrecorded :
  (let w := storage_andrew_in_team1 in
   let f := mkInputFile demo_header [row_andrew_team1] in
   let m := loaded w (TeamMembershipImportManager course_default_max_1) f in
   let res := set_team_membership_from_csv w
                (TeamMembershipImportManager course_default_max_1) f in
   mkMembership (user_id andrew) team1 ∈ memberships w
   ∧ existing_course_team_memberships m !! (user_id andrew, "masters") = Some 7
   ∧ find_user_by_login w "andrew" = Some andrew
   ∧ is_enrolled w andrew (course_id course_default_max_1) = true
   ∧ returned res.1 = Some false
   ∧ validation_errors (manager_of res.1) = [msg_team_full "team1-7"])
  ∧ (let w := storage_team1 in
     let r2 := mkRow "andrew@example.com" {["masters" := "team2"]} in
     let f := mkInputFile demo_header [row_andrew_team1; r2] in
     let m := loaded w (with_max_errors (TeamMembershipImportManager demo_course) 5) f in
     let res := process_rows w (rows f) (mkLocals ∅ []) m in
     resolve w (row_user row_andrew_team1) = Some andrew
     ∧ resolve w (row_user r2) = Some andrew
     ∧ is_enrolled w andrew (course_id demo_course) = true
     ∧ existing_course_teams m !! ("team1", "masters") = Some team1
     ∧ existing_course_teams m !! ("team2", "masters") = None
     ∧ validation_errors (manager_of res) = []
     ∧ ∃ l, returned res = Some (inl l)
            ∧ row_dictionaries l = [(andrew, row_andrew_team1); (andrew, r2)])
  ∧ (let w := storage_team1 in
     let r1 := mkRow "andrew" {["masters" := "team2"]} in
     let r2 := mkRow "andrew@example.com" {["masters" := "team1"]} in
     let f := mkInputFile demo_header [r1; r2] in
     let m := loaded w (with_max_errors (TeamMembershipImportManager demo_course) 5) f in
     let res := process_rows w (rows f) (mkLocals ∅ []) m in
     resolve w (row_user r1) = Some andrew
     ∧ resolve w (row_user r2) = Some andrew
     ∧ existing_course_teams m !! ("team2", "masters") = None
     ∧ existing_course_teams m !! ("team1", "masters") = Some team1
     ∧ validation_errors (manager_of res) = []
     ∧ ∃ l, returned res = Some (inl l)
            ∧ row_dictionaries l = [(andrew, r1); (andrew, r2)]).
Proof.
  split; [| split]; cbv zeta; split_and!; try by vm_compute.
  - apply (bool_decide_unpack _). by vm_compute.
  - eexists. split; by vm_compute.
  - eexists. split; by vm_compute.
Qed.

Lemma already_member_is_recorded_witness :
  (let w := storage_andrew_in_team1 in
   let f := mkInputFile demo_header [row_andrew_team1] in
   let m := loaded w (TeamMembershipImportManager demo_course) f in
   cell row_andrew_team1 "masters" ≠ ""
   ∧ msg_already_member "andrew" "masters"
       ∈ errors_added m
           (manager_of (validate_assignment_body w m andrew row_andrew_team1 "masters")))
  ∧ (let w := storage_no_teams in
     let r := mkRow "andrew@example.com" {["masters" := "team3"]} in
     let f := mkInputFile demo_header [row_andrew_team1; row_joe_team2; r] in
     let m := loaded w (with_max_errors (TeamMembershipImportManager demo_course) 5) f in
     cell r "masters" ≠ ""
     ∧ msg_already_member "andrew" "masters"
         ∈ errors_added m (manager_of (process_rows w (rows f) (mkLocals ∅ []) m))).
Proof.
  split.
  - intros w f m.
    assert (cell row_andrew_team1 "masters" ≠ "") as H by by vm_compute.
    split; [exact H|].
    destruct (already_member_is_recorded w m andrew row_andrew_team1 "masters" H)
      as (Hcached & _).
    apply (Hcached team1); [by vm_compute | by exists 7 |].
    intros (n & Hn & _). vm_compute in Hn. discriminate Hn.
  - intros w r f m.
    assert (cell r "masters" ≠ "") as H by by vm_compute.
    split; [exact H|].
    set (res := process_rows w (rows f) (mkLocals ∅ []) m).
    assert (∃ l, res = Ret (inl l) (manager_of res)) as [l Hl].
    { eexists. by vm_compute. }
    destruct (already_member_is_recorded w m andrew r "masters" H)
      as (_ & _ & _ & _ & _ & _ & _ & Hlink & _).
    destruct (Hlink [] row_andrew_team1 [row_joe_team2] andrew (mkLocals ∅ []) (inl l)
                (manager_of res)) as [Hmsg | [Hx _]];
      [apply load_keys_loaded
      | first [by vm_compute | apply (bool_decide_unpack _); by vm_compute]..
      | exact Hl | exact Hmsg | discriminate Hx].
Defined.

Lemma unresolved_user_skips_row_witness :
  let w := storage_no_teams in
  let f := mkInputFile demo_header [row_bob; row_andrew_team1] in
  let m := loaded w (TeamMembershipImportManager demo_course) f in
  row_user row_bob ≠ ""
  ∧ is_username_unique m (row_user row_bob) ∅ = (true, m)
  ∧ process_rows w [row_bob] (mkLocals ∅ []) m =
      Ret (inl (mkLocals ({["bob"]} ∪ ∅) []))
        (with_validation_errors m
           (validation_errors m ++ [msg_user_does_not_exist "bob"]))
  ∧ process_rows w [row_bob; row_andrew_team1] (mkLocals ∅ []) m =
      process_rows w [row_andrew_team1] (mkLocals ({["bob"]} ∪ ∅) [])
        (with_validation_errors m
           (validation_errors m ++ [msg_user_does_not_exist "bob"])).
Proof.
  intros w f m.
  assert (row_user row_bob ≠ "") as H1 by by vm_compute.
  assert (is_username_unique m (row_user row_bob) ∅ = (true, m)) as H2 by reflexivity.
  split; [exact H1|]. split; [exact H2|].
  destruct (unresolved_user_skips_row w m m (mkLocals ∅ []) row_bob [row_andrew_team1]
              H1 H2) as (_ & _ & _ & Hskip).
  destruct Hskip as (_ & _ & Hone & Hnext & _).
  { intros u Hu.
    repeat (apply elem_of_cons in Hu as [-> | Hu]; [by vm_compute |]).
    by apply elem_of_nil in Hu. }
  split; [exact Hone | exact Hnext].
Defined.

(** Against C9 as stated.  The call for the second row raises although a
    cell was committed before it: the first row made [team2] and joe joined it, then the row
    of andrew, whose one cell names the cached [team1], raises.  andrew
    joins no team, and storage keeps what the first row wrote. *)
Lemma second_row_raises_unbound_local :
  let w := storage_team1 in
  let f := mkInputFile demo_header [row_joe_team2; row_andrew_team1] in
  let res := set_team_membership_from_csv w (TeamMembershipImportManager demo_course) f in
  existing_course_teams (manager_of res.1) !! ("team1", "masters") = Some team1
  ∧ raised res.1 = Some (UnboundLocalError "team")
  ∧ validation_errors (manager_of res.1) = []
  ∧ number_of_record_added (manager_of res.1) = 1
  ∧ membership_user_id <$> memberships res.2 = [user_id joe]
  ∧ team_name <$> teams res.2 = ["team1"; "team2"].
Proof. by vm_compute. Qed.

Lemma cached_team_is_not_bound_witness :
  let w := storage_team1 in
  let f := mkInputFile demo_header [row_andrew_team1] in
  let m := loaded w (TeamMembershipImportManager demo_course) f in
  cell row_andrew_team1 "masters" ≠ ""
  ∧ existing_course_teams m !! (cell row_andrew_team1 "masters", "masters") = Some team1
  ∧ add_user_to_team m w (andrew, row_andrew_team1) = (Exc (UnboundLocalError "team") m, w).
Proof.
  intros w f m.
  assert (cell row_andrew_team1 "masters" ≠ "") as H1 by by vm_compute.
  assert (existing_course_teams m !! (cell row_andrew_team1 "masters", "masters")
          = Some team1) as H2 by by vm_compute.
  split; [exact H1|]. split; [exact H2|].
  destruct (cached_team_is_not_bound andrew row_andrew_team1 "masters" m w team1 H1 H2)
    as (_ & _ & Hrow & _).
  apply (Hrow [] ["phd"]); [reflexivity |].
  intros ts Hts. by apply elem_of_nil in Hts.
Defined.

Lemma commit_creates_same_team_twice_witness :
  let w := storage_no_teams in
  let f := mkInputFile demo_header [row_andrew_team1; row_joe_team1] in
  let res := set_team_membership_from_csv w
               (with_max_errors (TeamMembershipImportManager demo_course) 0) f in
  returned res.1 = Some true
  ∧ existing_course_teams (manager_of res.1) !! ("team1", "masters") = None
  ∧ ∃ t1 t2,
      t1 ∈ teams res.2 ∧ t2 ∈ teams res.2
      ∧ team_pk t1 ≠ team_pk t2
      ∧ (t1 ∉ teams w) ∧ (t2 ∉ teams w)
      ∧ team_name t1 = "team1" ∧ team_name t2 = "team1"
      ∧ team_topic_id t1 = "masters" ∧ team_topic_id t2 = "masters"
      ∧ team_course_id t1 = course_id demo_course
      ∧ team_course_id t2 = course_id demo_course.
Proof.
  intros w f res.
  assert (returned res.1 = Some true) as H by by vm_compute.
  split; [exact H|].
  assert (set_team_membership_from_csv w
            (with_max_errors (TeamMembershipImportManager demo_course) 0) f
          = (Ret true (manager_of res.1), res.2)) as Hrun.
  { fold res. destruct res as [[[] m'|e m'] w']; simpl in *; by simplify_eq. }
  apply (commit_creates_same_team_twice w demo_course 0 f [] [] []
           row_andrew_team1 row_joe_team1 "masters" "team1" _ _ Hrun).
  - reflexivity.
  - by vm_compute.
  - by vm_compute.
  - apply (bool_decide_unpack _). by vm_compute.
  - by vm_compute.
  - by vm_compute.
  - by vm_compute.
  - intros t Ht. by apply elem_of_nil in Ht.
Defined.

(** ** C4: the commit phase on a cell that names an existing team *)

(** C4 fails on the code.  One row sends the enrolled user andrew to
    [team1], which exists in [masters] and has room.  Validation ends
    without an error, so one membership is due for the one non-empty
    (user, cell) pair; the commit phase raises the unbound-local error
    instead, and no membership is added and no event emitted. *)
Theorem existing_team_cell_breaks_commit :
  let w := storage_team1 in
  let f := mkInputFile demo_header [row_andrew_team1] in
  let m := loaded w (TeamMembershipImportManager demo_course) f in
  let res := set_team_membership_from_csv w (TeamMembershipImportManager demo_course) f in
  process_rows w (rows f) (mkLocals ∅ []) m =
    Ret (inl (mkLocals {["andrew"]} [(andrew, row_andrew_team1)])) m
  ∧ validation_errors m = []
  ∧ raised res.1 = Some (UnboundLocalError "team")
  ∧ returned res.1 = None
  ∧ validation_errors (manager_of res.1) = []
  ∧ number_of_record_added (manager_of res.1) = 0
  ∧ memberships res.2 = []
  ∧ events res.2 = [].
Proof. by vm_compute. Qed.

(** ** The examples of the specification *)

(** Header [user,mode,masters,phd] and the row [andrew,,team1,], with no
    team named [team1] in [masters]: the run succeeds, [team1] is created
    under [masters], andrew is added, one event is emitted and the count
    of added records is 1. *)
Example import_creates_the_team :
  let res := set_team_membership_from_csv storage_no_teams
               (TeamMembershipImportManager demo_course)
               (mkInputFile demo_header [row_andrew_team1]) in
  let t := mkCourseTeam 1 "team1-1" "team1" "course-v1:demo" "masters" "Import from csv" in
  returned res.1 = Some true
  ∧ validation_errors (manager_of res.1) = []
  ∧ number_of_record_added (manager_of res.1) = 1
  ∧ teams res.2 = [t]
  ∧ memberships res.2 = [mkMembership (user_id andrew) t]
  ∧ events res.2 =
      [mkEvent "edx.team.learner_added" "course-v1:demo" "team1-1" (user_id andrew)
               "team_csv_import"].
Proof. by vm_compute. Qed.

(** The same file with a [phd] cell as well, when andrew already has a
    membership in [phd]: that cell records the conflict, the import fails
    as a whole, nothing is written and [team1] is not created. *)
Example import_conflict_writes_nothing :
  let phd_team := mkCourseTeam 3 "thesis-3" "thesis" "course-v1:demo" "phd" "" in
  let w := mkWorld [andrew; joe] [(1, "course-v1:demo"); (2, "course-v1:demo")]
                   [phd_team] [mkMembership 1 phd_team] [] in
  let row := mkRow "andrew" {["masters" := "team1"; "phd" := "defense"]} in
  let res := set_team_membership_from_csv w (TeamMembershipImportManager demo_course)
               (mkInputFile demo_header [row]) in
  returned res.1 = Some false
  ∧ validation_errors (manager_of res.1) = [msg_already_member "andrew" "phd"]
  ∧ number_of_record_added (manager_of res.1) = 0
  ∧ res.2 = w.
Proof. by vm_compute. Qed.

(** * Further properties of the import manager *)

(** ** [validate_teamsets] *)

Lemma validate_teamsets_loop_first_offender configured dupe_set pre ts post m :
  NoDup pre →
  (∀ x, x ∈ pre → x ∈ configured ∧ x ∉ dupe_set) →
  ts ∈ dupe_set ∨ ts ∈ pre ∨ ts ∉ configured →
  validate_teamsets_loop configured dupe_set (pre ++ ts :: post) m =
    (false, with_validation_errors m
              (validation_errors m ++
                 [if decide (ts ∈ dupe_set ∨ ts ∈ pre)
                  then msg_teamset_duplicated ts
                  else msg_teamset_does_not_exist ts])).
Proof.
  revert dupe_set. induction pre as [|x pre IH]; intros dupe_set Hnd Hpre Hbad; simpl.
  - destruct Hbad as [Hd | [Hin | Hc]].
    + rewrite bool_decide_eq_true_2 by done. by rewrite decide_True by by left.
    + by apply elem_of_nil in Hin.
    + case_bool_decide as Hd.
      * by rewrite decide_True by by left.
      * rewrite bool_decide_eq_true_2 by done.
        rewrite decide_False; [done|]. intros [? | Hin]; [done|].
        by apply elem_of_nil in Hin.
  - apply NoDup_cons in Hnd as [Hx Hnd].
    destruct (Hpre x) as [Hxc Hxd]; [by left |].
    rewrite bool_decide_eq_false_2 by done.
    rewrite bool_decide_eq_false_2 by (intros Hn; by apply Hn).
    rewrite IH; [| done | |].
    + do 3 f_equal. destruct (decide (ts ∈ dupe_set ∨ ts ∈ x :: pre)) as [Hl | Hr].
      * rewrite decide_True; [done|]. set_solver.
      * rewrite decide_False; [done|]. set_solver.
    + intros y Hy. destruct (Hpre y) as [? ?]; [by right |]. split; [done|].
      assert (y ≠ x) by (intros ->; done). set_solver.
    + set_solver.
Qed.

Lemma validate_teamsets_true m m1 :
  validate_teamsets m = (true, m1) → m1 = m.
Proof.
  unfold validate_teamsets. intros E.
  pose proof (validate_teamsets_loop_spec
    (list_to_set (teamset_id <$> teamsets (teams_configuration (course m))))
    ∅ (teamset_ids m) m) as H.
  rewrite E in H. by destruct H.
Qed.

(** X1.  [validate_teamsets] returns [True] exactly when the teamset
    columns are pairwise different and every one of them is configured for
    the course, and it then leaves the manager untouched. *)
Theorem validate_teamsets_accepts (m : Manager) :
  ((validate_teamsets m).1 = true ↔
     NoDup (teamset_ids m)
     ∧ ∀ ts, ts ∈ teamset_ids m →
             ts ∈ teamset_id <$> teamsets (teams_configuration (course m)))
  ∧ ((validate_teamsets m).1 = true → (validate_teamsets m).2 = m).
Proof.
  unfold validate_teamsets.
  pose proof (validate_teamsets_loop_spec
    (list_to_set (teamset_id <$> teamsets (teams_configuration (course m))))
    ∅ (teamset_ids m) m) as H.
  destruct (validate_teamsets_loop _ _ _ _) as [[] m1]; simpl.
  - destruct H as [-> [Hnd Hall]]. split; [| done]. split; [intros _ | done].
    split; [done|]. intros ts Hts. destruct (Hall ts Hts) as [Hc _].
    by apply elem_of_list_to_set in Hc.
  - destruct H as [_ Hbad]. split; [| done]. split; [done|]. intros [Hnd Hall].
    exfalso. apply Hbad. split; [done|]. intros ts Hts. split; [| set_solver].
    apply elem_of_list_to_set. by apply Hall.
Qed.

(** X2.  When the header does not pass, the one error is about the first
    teamset column, from the left, that repeats an earlier column or is
    not configured: 'duplicated' when it repeats an earlier column (every
    column before it is configured, so it is configured as well), 'does
    not exist' otherwise.  An unconfigured name that stands twice in the
    header is thus reported as 'does not exist', at its first
    occurrence. *)
Theorem validate_teamsets_reports_first_offender (m : Manager)
    (pre post : list string) (ts : string) :
  teamset_ids m = pre ++ ts :: post →
  NoDup pre →
  (∀ x, x ∈ pre → x ∈ teamset_id <$> teamsets (teams_configuration (course m))) →
  ts ∈ pre ∨ ts ∉ teamset_id <$> teamsets (teams_configuration (course m)) →
  validate_teamsets m =
    (false, with_validation_errors m
              (validation_errors m ++
                 [if decide (ts ∈ pre)
                  then msg_teamset_duplicated ts
                  else msg_teamset_does_not_exist ts])).
Proof.
  intros Hids Hnd Hpre Hbad. unfold validate_teamsets. rewrite Hids.
  rewrite validate_teamsets_loop_first_offender; [| done | |].
  - do 3 f_equal. destruct (decide (ts ∈ pre)).
    + by rewrite decide_True by by right.
    + rewrite decide_False; [done|]. set_solver.
  - intros x Hx. split; [| set_solver]. apply elem_of_list_to_set. by apply Hpre.
  - destruct Hbad as [? | Hc]; [by right; left |]. right. right.
    intros Hin. apply Hc. by apply elem_of_list_to_set in Hin.
Qed.

Lemma validate_teamsets_reports_first_offender_witness :
  (let m := with_teamset_ids (TeamMembershipImportManager demo_course)
              ["masters"; "phd"; "phd"; "alumni"] in
   validate_teamsets m =
     (false, with_validation_errors m [msg_teamset_duplicated "phd"]))
  ∧ (let m := with_teamset_ids (TeamMembershipImportManager demo_course)
                ["masters"; "alumni"; "alumni"] in
     validate_teamsets m =
       (false, with_validation_errors m [msg_teamset_does_not_exist "alumni"])).
Proof.
  split; intros m.
  - apply (validate_teamsets_reports_first_offender m ["masters"; "phd"] ["alumni"] "phd").
    + reflexivity.
    + apply (bool_decide_unpack _). by vm_compute.
    + intros x Hx. apply (bool_decide_unpack _).
      repeat (apply elem_of_cons in Hx as [-> | Hx]; [by vm_compute |]).
      by apply elem_of_nil in Hx.
    + left. apply (bool_decide_unpack _). by vm_compute.
  - apply (validate_teamsets_reports_first_offender m ["masters"] ["alumni"] "alumni").
    + reflexivity.
    + apply (bool_decide_unpack _). by vm_compute.
    + intros x Hx. apply (bool_decide_unpack _).
      repeat (apply elem_of_cons in Hx as [-> | Hx]; [by vm_compute |]).
      by apply elem_of_nil in Hx.
    + right. apply (bool_decide_unpack _). by vm_compute.
Defined.

(** ** Rows without a user identifier *)

Lemma process_rows_identified w rs l m :
  process_rows w rs l m = process_rows w (identified_rows rs) l m.
Proof.
  revert l m. unfold identified_rows.
  induction rs as [|row rs IH]; intros l m; [done|].
  rewrite filter_cons. destruct (decide (row_user row ≠ "")) as [Hne | He].
  - rewrite !process_rows_cons.
    destruct (process_row w m l row) as [[l'|b] m'|]; [apply IH | done..].
  - rewrite process_rows_cons. unfold process_row at 1.
    rewrite bool_decide_eq_true_2 by by destruct (decide (row_user row = "")).
    apply IH.
Qed.

(** X4.  Rows whose user identifier is empty play no part: the run on a
    file is the run on the file without these rows.  In particular a file
    that has a good header and no identifier at all returns [True] and
    changes neither storage nor the count of added records. *)
Theorem rows_without_identifier_are_ignored (w : World) (m : Manager) (f : InputFile) :
  set_team_membership_from_csv w m f =
    set_team_membership_from_csv w m
      (mkInputFile (fieldnames f) (identified_rows (rows f)))
  ∧ (identified_rows (rows f) = [] →
     validation_errors m = [] →
     (validate_teamsets (with_teamset_ids m (drop 2 (fieldnames f)))).1 = true →
     set_team_membership_from_csv w m f = (Ret true (loaded w m f), w)).
Proof.
  split.
  - rewrite !run_decoded. cbn [fieldnames rows].
    destruct (validate_teamsets _) as [[] m1]; simpl; [| done].
    by rewrite process_rows_identified.
  - intros Hnone Hnil Hok. rewrite run_decoded. cbv zeta.
    destruct (validate_teamsets _) as [[] m1] eqn:Ev; simpl in *; [| done].
    apply validate_teamsets_true in Ev as ->. fold (loaded w m f).
    rewrite process_rows_identified, Hnone, process_rows_nil. simpl.
    by rewrite bool_decide_eq_true_2.
Qed.

(** ** The three caches *)

(** X5.  After [load_user_ids_by_teamset_id], the set kept for a teamset
    of the header holds exactly the users that storage has as members of
    a team of this course in that teamset; the entries of other teamsets
    are what they were. *)
Theorem load_user_ids_by_teamset_id_spec (w : World) (m : Manager) (ts : string) :
  (ts ∈ teamset_ids m →
   ∃ s, user_ids_by_teamset_id (load_user_ids_by_teamset_id w m) !! ts = Some s
        ∧ ∀ uid, uid ∈ s ↔
            ∃ ms, ms ∈ memberships w
                  ∧ membership_user_id ms = uid
                  ∧ team_course_id (membership_team ms) = course_id (course m)
                  ∧ team_topic_id (membership_team ms) = ts)
  ∧ (ts ∉ teamset_ids m →
     user_ids_by_teamset_id (load_user_ids_by_teamset_id w m) !! ts
       = user_ids_by_teamset_id m !! ts).
Proof.
  split.
  - intros Hts. rewrite load_user_ids_lookup by done. eexists. split; [done|].
    intros uid. rewrite elem_of_list_to_set, list_elem_of_fmap.
    unfold memberships_in_teamset. split.
    + intros (ms & -> & Hin). apply list_elem_of_filter in Hin as [[? ?] ?]. eauto 10.
    + intros (ms & Hin & <- & Hc & Ht). exists ms. split; [done|].
      by apply list_elem_of_filter.
  - intros Hts. unfold load_user_ids_by_teamset_id. simpl.
    rewrite (foldl_insert_lookup id
               (λ ts, list_to_set (membership_user_id <$>
                        memberships_in_teamset w (course_id (course m)) ts))).
    destruct (last _) as [x|] eqn:El; [| done]. exfalso.
    apply last_Some_elem_of, list_elem_of_filter in El as [Hx Hin].
    simpl in Hx. by subst x.
Qed.

(** X6.  After [load_course_team_memberships], the entry for (user,
    teamset) is the team of the last membership, in listing order, that
    storage has for that user in a team of this course in that teamset;
    without such a membership the entry is what it was. *)
Theorem load_course_team_memberships_spec (w : World) (m : Manager)
    (uid : nat) (ts : string) :
  existing_course_team_memberships (load_course_team_memberships w m) !! (uid, ts) =
    match last (filter (λ ms, team_course_id (membership_team ms) = course_id (course m)
                              ∧ membership_user_id ms = uid
                              ∧ team_topic_id (membership_team ms) = ts)
                       (memberships w)) with
    | Some ms => Some (team_pk (membership_team ms))
    | None => existing_course_team_memberships m !! (uid, ts)
    end.
Proof.
  unfold load_course_team_memberships, get_memberships. simpl.
  rewrite (foldl_insert_lookup
             (λ ms, (membership_user_id ms, team_topic_id (membership_team ms)))
             (λ ms, team_pk (membership_team ms))).
  rewrite list_filter_filter.
  assert (filter (λ ms, (membership_user_id ms, team_topic_id (membership_team ms)) = (uid, ts)
                        ∧ team_course_id (membership_team ms) = course_id (course m))
                 (memberships w)
          = filter (λ ms, team_course_id (membership_team ms) = course_id (course m)
                          ∧ membership_user_id ms = uid
                          ∧ team_topic_id (membership_team ms) = ts)
                   (memberships w)) as ->; [| done].
  apply list_filter_iff. intros ms. split.
  - intros [[= ? ?] ?]. done.
  - intros (? & ? & ?). split; [congruence | done].
Qed.

Lemma load_course_teams_lookup_last w m name ts :
  existing_course_teams (load_course_teams w m) !! (name, ts) =
    match last (filter (λ t, team_course_id t = course_id (course m)
                             ∧ team_name t = name ∧ team_topic_id t = ts)
                       (teams w)) with
    | Some t => Some t
    | None => existing_course_teams m !! (name, ts)
    end.
Proof.
  unfold load_course_teams, course_teams. simpl.
  rewrite (foldl_insert_lookup (λ t, (team_name t, team_topic_id t)) id).
  rewrite list_filter_filter.
  assert (filter (λ t, (team_name t, team_topic_id t) = (name, ts)
                       ∧ team_course_id t = course_id (course m)) (teams w)
          = filter (λ t, team_course_id t = course_id (course m)
                         ∧ team_name t = name ∧ team_topic_id t = ts) (teams w)) as ->;
    [| done].
  apply list_filter_iff. intros t. split.
  - intros [[= ? ?] ?]. done.
  - intros (? & ? & ?). split; [congruence | done].
Qed.

(** X7.  After [load_course_teams], the entry for (team name, teamset) is
    the last team, in listing order, that storage has for this course
    under that name in that teamset: when two teams share name and
    teamset the later one is the one cached.  Without such a team the
    entry is what it was. *)
Theorem load_course_teams_spec (w : World) (m : Manager) (name ts : string) :
  existing_course_teams (load_course_teams w m) !! (name, ts) =
    match last (filter (λ t, team_course_id t = course_id (course m)
                             ∧ team_name t = name ∧ team_topic_id t = ts)
                       (teams w)) with
    | Some t => Some t
    | None => existing_course_teams m !! (name, ts)
    end.
Proof. apply load_course_teams_lookup_last. Qed.

(** ** What the commit phase writes *)

Lemma commit_effect_refl cid tss m w : commit_effect cid tss m w m w [] [].
Proof. split; simpl; rewrite ?app_nil_r; auto. Qed.

Lemma newer_grown w w' new t :
  teams w' = teams w ++ new → newer w' t → newer w t.
Proof.
  intros Ht. apply newer_mono. intros t0 Ht0. rewrite Ht. apply elem_of_app. by left.
Qed.

Lemma commit_effect_trans cid tss m1 w1 m2 w2 m3 w3 new1 added1 new2 added2 :
  commit_effect cid tss m1 w1 m2 w2 new1 added1 →
  commit_effect cid tss m2 w2 m3 w3 new2 added2 →
  commit_effect cid tss m1 w1 m3 w3 (new1 ++ new2) (added1 ++ added2).
Proof.
  intros [Hu1 He1 Ht1 Hm1 Hv1 Hn1 Hc1 Hw1] [Hu2 He2 Ht2 Hm2 Hv2 Hn2 Hc2 Hw2]. split.
  - congruence.
  - congruence.
  - rewrite app_assoc. congruence.
  - rewrite app_assoc. congruence.
  - rewrite fmap_app, app_assoc. congruence.
  - rewrite length_app. lia.
  - by apply Forall_app.
  - apply Forall_app. split; [done|].
    eapply Forall_impl; [exact Hw2|]. intros t. by apply newer_grown with new1.
Qed.

Lemma add_user_to_team_loop_effect u r tss0 tss team m w res w' :
  tss ⊆ tss0 →
  add_user_to_team_loop u r tss team m w = (res, w') →
  ∃ new added,
    commit_effect (course_id (course m)) tss0 m w (manager_of res) w' new added
    ∧ Forall (λ ms, membership_user_id ms = user_id u
                    ∧ (membership_team ms ∈ new ∨ team = Some (membership_team ms)))
             added
    ∧ (raised res = None → length added = length (assigned_cells tss r)).
Proof.
  revert team m w. induction tss as [|ts tss IH]; intros team m w Hsub; simpl.
  { intros [= <- <-]. exists [], []. split; [apply commit_effect_refl |]. by split. }
  assert (tss ⊆ tss0) as Hsub' by set_solver.
  unfold assigned_cells. rewrite filter_cons. fold (assigned_cells tss r).
  case_bool_decide as Hcell.
  { rewrite decide_False by (intros Hn; by apply Hn). by apply IH. }
  rewrite decide_True by done.
  destruct (existing_course_teams m !! (cell r ts, ts)) as [cached|] eqn:Hc; simpl.
  - destruct team as [t|].
    + intros E. destruct (IH _ _ _ Hsub' E) as (new & added & Heff & Hadd & Hlen).
      exists new, (mkMembership (user_id u) t :: added). split_and!.
      * destruct Heff as [Hu1 He1 Ht1 Hm1 Hv1 Hn1 Hc1 Hw1].
        split; simpl in *; try done.
        -- by rewrite Hm1, <- app_assoc.
        -- rewrite Hv1, <- app_assoc. done.
        -- lia.
      * constructor; [split; [done | by right] |].
        eapply Forall_impl; [exact Hadd|]. simpl. intros ms [? [? | [= ->]]]; auto.
      * intros Hr. simpl. by rewrite Hlen.
    + intros [= <- <-]. exists [], []. split; [apply commit_effect_refl |]. by split.
  - intros E. destruct (IH _ _ _ Hsub' E) as (new & added & Heff & Hadd & Hlen).
    eexists (_ :: new), (mkMembership (user_id u) _ :: added). split_and!.
    + destruct Heff as [Hu1 He1 Ht1 Hm1 Hv1 Hn1 Hc1 Hw1].
      split; simpl in *; try done.
      * by rewrite Ht1, <- app_assoc.
      * by rewrite Hm1, <- app_assoc.
      * rewrite Hv1, <- app_assoc. done.
      * lia.
      * constructor; [| done]. split_and!; [done | done |]. simpl. set_solver.
      * constructor.
        -- intros t0 Ht0. simpl. by apply fresh_team_pk_newer.
        -- eapply Forall_impl; [exact Hw1|]. intros t. apply newer_mono.
           simpl. intros t0 Ht0. apply elem_of_app. by left.
    + constructor; [split; [done | left; by left] |].
      eapply Forall_impl; [exact Hadd|]. simpl.
      intros ms [? [? | [= <-]]]; (split; [done|]); left; [by right | by left].
    + intros Hr. simpl. by rewrite Hlen.
Qed.

Lemma commit_rows_effect rds m w res w' :
  commit_rows rds m w = (res, w') →
  ∃ new added,
    commit_effect (course_id (course m)) (teamset_ids m) m w (manager_of res) w' new added
    ∧ Forall (λ ms, membership_team ms ∈ new
                    ∧ ∃ ur, ur ∈ rds ∧ membership_user_id ms = user_id ur.1) added
    ∧ (raised res = None →
       length added = sum_list (length ∘ assigned_cells (teamset_ids m) ∘ snd <$> rds)).
Proof.
  revert m w. induction rds as [|[u r] rds IH]; intros m w; simpl.
  { intros [= <- <-]. exists [], []. split; [apply commit_effect_refl |]. by split. }
  unfold add_user_to_team. simpl.
  destruct (add_user_to_team_loop u r (teamset_ids m) None m w) as [res1 w1] eqn:E1.
  pose proof (add_user_to_team_loop_manager u r (teamset_ids m) None m w) as Hm.
  rewrite E1 in Hm. simpl in Hm. destruct Hm as (_ & Hids & _ & Hcourse).
  destruct (add_user_to_team_loop_effect u r (teamset_ids m) _ _ _ _ _ _
              (reflexivity _) E1) as (new1 & added1 & Heff1 & Hadd1 & Hlen1).
  assert (Forall (λ ms, membership_team ms ∈ new1
                        ∧ ∃ ur, ur ∈ (u, r) :: rds
                                ∧ membership_user_id ms = user_id ur.1) added1) as Hadd1'.
  { eapply Forall_impl; [exact Hadd1|]. simpl. intros ms [? [? | ?]]; [| done].
    split; [done|]. exists (u, r). split; [by left | done]. }
  destruct res1 as [[] m1|e m1]; simpl in *.
  - intros E. destruct (IH _ _ E) as (new2 & added2 & Heff2 & Hadd2 & Hlen2).
    rewrite Hids, Hcourse in Heff2.
    exists (new1 ++ new2), (added1 ++ added2). split_and!.
    + by eapply commit_effect_trans.
    + apply Forall_app. split.
      * eapply Forall_impl; [exact Hadd1'|]. simpl. intros ms [? ?].
        split; [apply elem_of_app; by left | done].
      * eapply Forall_impl; [exact Hadd2|]. simpl. intros ms [? (ur & ? & ?)].
        split; [apply elem_of_app; by right |]. exists ur. split; [by right | done].
    + intros Hr. rewrite length_app, Hlen1, Hlen2 by done. by rewrite Hids.
  - intros [= <- <-]. exists new1, added1. split_and!; [done | | done].
    eapply Forall_impl; [exact Hadd1'|]. done.
Qed.

(** The effect of a whole run, whatever way it took. *)
Lemma run_effect w m (f : InputFile) :
  let res := set_team_membership_from_csv w m f in
  ∃ new added,
    commit_effect (course_id (course m)) (drop 2 (fieldnames f)) m w
                  (manager_of res.1) res.2 new added
    ∧ Forall (λ ms, membership_team ms ∈ new) added
    ∧ (returned res.1 = Some true →
       length added =
         sum_list (length ∘ assigned_cells (drop 2 (fieldnames f))
                     <$> identified_rows (rows f)))
    ∧ (returned res.1 ≠ Some true ∧ raised res.1 = None → new = [] ∧ added = []).
Proof.
  intros res. subst res.
  assert (∀ m', number_of_record_added m' = number_of_record_added m →
            commit_effect (course_id (course m)) (drop 2 (fieldnames f)) m w m' w [] [])
    as Hnone.
  { intros m' Hn. split; simpl; rewrite ?app_nil_r; auto. lia. }
  destruct (run_shape_intro w m f)
    as [m1 Hg | m5 _ E F | l m5 _ E F Hne | l m5 _ E F Hnil]; simpl.
  - exists [], []. split_and!; [| done..].
    apply Hnone. by apply validate_teamsets_false in Hg as [e ->].
  - exists [], []. split_and!; [| done..]. apply Hnone. apply (frame_number _ _ F).
  - exists [], []. split_and!; [| done..]. apply Hnone. apply (frame_number _ _ F).
  - destruct (commit_rows (row_dictionaries l) m5 w) as [res w'] eqn:Ec.
    destruct (commit_rows_effect _ _ _ _ _ Ec) as (new & added & Heff & Hadd & Hlen).
    rewrite (frame_teamset_ids _ _ F), (frame_course _ _ F) in Heff.
    rewrite (frame_teamset_ids _ _ F) in Hlen.
    change (teamset_ids (loaded w m f)) with (drop 2 (fieldnames f)) in *.
    change (course (loaded w m f)) with (course m) in *.
    assert (commit_effect (course_id (course m)) (drop 2 (fieldnames f)) m w
              (manager_of res) w' new added) as Heff'.
    { destruct Heff as [Hu1 He1 Ht1 Hm1 Hv1 Hn1 Hc1 Hw1]. split; try done.
      rewrite Hn1. by rewrite (frame_number _ _ F). }
    pose proof (process_rows_kept _ _ _ _ _ _ (load_keys_loaded w _) E Hnil) as Hkept.
    simpl in Hkept. fold (identified_rows (rows f)) in Hkept.
    exists new, added. destruct res as [[] m6|e m6]; simpl.
    + split_and!; [done | | | by intros [? _]].
      * eapply Forall_impl; [exact Hadd|]. by intros ms [? _].
      * intros _. rewrite Hlen by done. rewrite <- Hkept.
        by rewrite <- list_fmap_compose.
    + split_and!; [done | | done | by intros [_ ?]].
      eapply Forall_impl; [exact Hadd|]. by intros ms [? _].
Qed.

(** X8.  The storage side of a run, whatever way it took and whatever
    manager it started from: users and enrollments are never touched, the
    teams that were there stay as they are, and every team the run adds
    belongs to the manager's course, carries the description 'Import from
    csv', sits in a teamset of the header and has a primary key above
    every key that was in storage. *)
Theorem run_only_appends_import_teams (w : World) (m : Manager) (f : InputFile) :
  let w' := (set_team_membership_from_csv w m f).2 in
  users w' = users w
  ∧ enrollments w' = enrollments w
  ∧ ∃ new, teams w' = teams w ++ new
           ∧ ∀ t, t ∈ new →
                  team_course_id t = course_id (course m)
                  ∧ team_description t = "Import from csv"
                  ∧ team_topic_id t ∈ drop 2 (fieldnames f)
                  ∧ ∀ t0, t0 ∈ teams w → team_pk t0 < team_pk t.
Proof.
  intros w'. subst w'.
  destruct (run_effect w m f) as (new & added & Heff & _).
  destruct Heff as [Hu He Ht _ _ _ Hc Hw]. split_and!; [done | done |].
  exists new. split; [done|]. intros t Hin.
  destruct (proj1 (Forall_forall _ _) Hc t Hin) as (? & ? & ?).
  split_and!; [done..|]. by apply (proj1 (Forall_forall _ _) Hw t).
Qed.

(** X9.  Memberships, events and the counter move together, whatever way
    the run took, also when it raised half way through the commit phase:
    the run appends some memberships to storage, emits for each of them,
    in the same order, one 'learner added' event naming that team and that
    user, and raises [number_of_record_added] by their number.  Every one
    of these memberships is in a team that this very run created: a team
    that was in storage before the run never gains a member. *)
Theorem run_adds_members_events_and_count_together (w : World) (m : Manager)
    (f : InputFile) :
  let res := set_team_membership_from_csv w m f in
  ∃ added,
    memberships res.2 = memberships w ++ added
    ∧ events res.2 = events w ++ (event_of <$> added)
    ∧ number_of_record_added (manager_of res.1)
      = number_of_record_added m + length added
    ∧ ∀ ms, ms ∈ added →
            membership_team ms ∈ teams res.2 ∧ membership_team ms ∉ teams w.
Proof.
  intros res. subst res.
  destruct (run_effect w m f) as (new & added & Heff & Hadd & _).
  destruct Heff as [_ _ Ht Hm He Hn _ Hw]. exists added. split_and!; [done..|].
  intros ms Hin. pose proof (proj1 (Forall_forall _ _) Hadd ms Hin) as Hnew.
  split; [rewrite Ht; apply elem_of_app; by right |].
  apply newer_not_stored. by apply (proj1 (Forall_forall _ _) Hw).
Qed.

(** X10.  When the run returns [True], the count of added records has
    grown by the number of non-empty cells under the teamset columns of
    the header, over the rows that carry a user identifier. *)
Theorem success_counts_the_assigned_cells (w : World) (m : Manager) (f : InputFile) :
  let res := set_team_membership_from_csv w m f in
  returned res.1 = Some true →
  number_of_record_added (manager_of res.1) =
    number_of_record_added m
    + sum_list (length ∘ assigned_cells (drop 2 (fieldnames f))
                  <$> identified_rows (rows f)).
Proof.
  intros res Hret. subst res.
  destruct (run_effect w m f) as (new & added & Heff & _ & Hlen & _).
  rewrite (effect_number _ _ _ _ _ _ _ _ Heff). by rewrite Hlen.
Qed.

Lemma success_counts_the_assigned_cells_witness :
  let f := mkInputFile demo_header
             [mkRow "andrew" {["masters" := "team1"; "phd" := "thesis"]};
              mkRow "" {["masters" := "team1"]};
              mkRow "joe" {["phd" := "thesis"]}] in
  let res := set_team_membership_from_csv storage_no_teams
               (TeamMembershipImportManager demo_course) f in
  returned res.1 = Some true
  ∧ number_of_record_added (manager_of res.1) = 3.
Proof.
  intros f res.
  assert (returned res.1 = Some true) as H by by vm_compute.
  split; [exact H|].
  exact (success_counts_the_assigned_cells storage_no_teams
           (TeamMembershipImportManager demo_course) f H).
Defined.

(** ** Exceptions *)

Lemma add_user_to_team_loop_raises u r tss team m w e :
  raised (add_user_to_team_loop u r tss team m w).1 = Some e →
  e = UnboundLocalError "team"
  ∧ ∃ ts, ts ∈ tss ∧ cell r ts ≠ "" ∧ is_Some (existing_course_teams m !! (cell r ts, ts)).
Proof.
  revert team m w. induction tss as [|ts tss IH]; intros team m w; simpl; [done|].
  case_bool_decide as Hcell.
  { intros (? & ts' & ? & ?)%IH. split; [done|]. exists ts'. split; [by right | done]. }
  destruct (existing_course_teams m !! (cell r ts, ts)) as [cached|] eqn:Hc; simpl.
  - destruct team as [t|].
    + intros (? & ts' & ? & ?)%IH. split; [done|]. exists ts'. split; [by right | done].
    + intros [= <-]. split; [done|]. exists ts. split_and!; [by left | done |].
      rewrite Hc. by eexists.
  - intros (? & ts' & ? & ?)%IH. split; [done|]. exists ts'. split; [by right | done].
Qed.

Lemma commit_rows_raises rds m w e :
  raised (commit_rows rds m w).1 = Some e →
  e = UnboundLocalError "team"
  ∧ ∃ ur ts, ur ∈ rds ∧ ts ∈ teamset_ids m ∧ cell ur.2 ts ≠ ""
             ∧ is_Some (existing_course_teams m !! (cell ur.2 ts, ts)).
Proof.
  revert m w. induction rds as [|[u r] rds IH]; intros m w; simpl; [done|].
  unfold add_user_to_team. simpl.
  pose proof (add_user_to_team_loop_raises u r (teamset_ids m) None m w) as Hrow.
  pose proof (add_user_to_team_loop_manager u r (teamset_ids m) None m w)
    as (_ & Hids & Hcache & _).
  destruct (add_user_to_team_loop u r (teamset_ids m) None m w) as [[[] m1|e1 m1] w1];
    simpl in *.
  - intros (? & ur & ts & ? & ? & ? & ?)%IH. split; [done|].
    exists ur, ts. rewrite <- Hids, <- Hcache. split_and!; [by right | done..].
  - intros [= <-]. destruct (Hrow e1 eq_refl) as (? & ts & ? & ? & ?).
    split; [done|]. exists (u, r), ts. split_and!; [by left | done..].
Qed.

(** Why a run raises. *)
Lemma run_raise_cause w c k (f : InputFile) e :
  let res := set_team_membership_from_csv w
               (with_max_errors (TeamMembershipImportManager c) k) f in
  raised res.1 = Some e →
  e = UnboundLocalError "team"
  ∧ validation_errors (manager_of res.1) = []
  ∧ ∃ r ts t,
      r ∈ rows f ∧ row_user r ≠ "" ∧ ts ∈ drop 2 (fieldnames f) ∧ cell r ts ≠ ""
      ∧ t ∈ teams w ∧ team_course_id t = course_id c
      ∧ team_name t = cell r ts ∧ team_topic_id t = ts.
Proof.
  intros res. subst res.
  set (m := with_max_errors (TeamMembershipImportManager c) k).
  destruct (run_shape_intro w m f)
    as [m1 Hg | m5 _ E F | l m5 _ E F Hne | l m5 _ E F Hnil]; simpl; [done..|].
  pose proof (commit_rows_manager (row_dictionaries l) m5 w) as (He & _).
  pose proof (commit_rows_raises (row_dictionaries l) m5 w e) as Hraise.
  pose proof (process_rows_kept _ _ _ _ _ _ (load_keys_loaded w _) E Hnil) as Hkept.
  rewrite app_nil_l in Hkept.
  destruct (commit_rows _ _ _) as [[[] m6|e6 m6] w']; simpl in He, Hraise |- *; [done|].
  intros [= ->]. destruct (Hraise eq_refl) as (-> & [u r] & ts & Hin & Hts & Hcell & Hsome).
  split; [done|]. split; [congruence|].
  rewrite (frame_teamset_ids _ _ F) in Hts. rewrite (frame_teams _ _ F) in Hsome.
  change (teamset_ids (loaded w m f)) with (drop 2 (fieldnames f)) in Hts.
  assert (r ∈ filter (λ r, row_user r ≠ "") (rows f)) as Hr.
  { rewrite <- Hkept. apply list_elem_of_fmap. by exists (u, r). }
  apply list_elem_of_filter in Hr as [Hu Hr].
  unfold loaded in Hsome. rewrite load_course_teams_lookup_last in Hsome.
  destruct (last _) as [t|] eqn:El.
  - apply last_Some_elem_of, list_elem_of_filter in El as [(? & ? & ?) ?].
    exists r, ts, t. split_and!; done.
  - change (is_Some ((∅ : gmap (string * string) CourseTeam) !! (cell r ts, ts))) in Hsome.
    rewrite lookup_empty in Hsome. by destruct Hsome.
Qed.

Lemma first_failure_Some ls e :
  first_failure ls = Some e →
  e = UnicodeDecodeError ∨ e = csv_Error ∨ e = KeyError "user".
Proof.
  induction ls as [|[| | |row] ls IH]; simpl; try done; intros [= <-]; eauto.
Qed.

Lemma header_failure_Some h e :
  header_failure h = Some e →
  e = TypeError ∨ e = UnicodeDecodeError ∨ e = csv_Error.
Proof. destruct h; simpl; try done; intros [= <-]; eauto. Qed.

(** Why a run raises, on any upload. *)
Lemma upload_raise_cause w c k (u : Upload) e :
  let res := set_team_membership_from_csv w
               (with_max_errors (TeamMembershipImportManager c) k) u in
  raised res.1 = Some e →
  (read_failure u = Some e
   ∧ (e = TypeError ∨ e = UnicodeDecodeError ∨ e = csv_Error ∨ e = KeyError "user")
   ∧ res.2 = w
   ∧ number_of_record_added (manager_of res.1) = 0)
  ∨ (e = UnboundLocalError "team"
     ∧ read_failure u = None
     ∧ validation_errors (manager_of res.1) = []
     ∧ ∃ names r ts t,
         header u = Fieldnames names ∧ Decoded r ∈ lines u ∧ row_user r ≠ ""
         ∧ ts ∈ drop 2 names ∧ cell r ts ≠ ""
         ∧ t ∈ teams w ∧ team_course_id t = course_id c
         ∧ team_name t = cell r ts ∧ team_topic_id t = ts).
Proof.
  intros res. subst res.
  set (m := with_max_errors (TeamMembershipImportManager c) k).
  unfold read_failure.
  destruct (upload_shape_intro w m u)
    as [e0 He | names e0 l m5 Hh _ Hff _ F | names Hh Hread]; simpl.
  - intros [= ->]. left. rewrite He. split_and!; [done | | done | done].
    apply header_failure_Some in He. naive_solver.
  - intros [= ->]. left. rewrite Hh, Hff. simpl. split_and!; [done | | done |].
    + apply first_failure_Some in Hff. naive_solver.
    + by rewrite (frame_number _ _ F).
  - intros He. right. rewrite Hh. simpl.
    destruct (run_raise_cause w c k (readable_part names u) e He)
      as (-> & Herr & r & ts & t & Hr & ? & ? & ? & ? & ? & ? & ?).
    split_and!; [done | | done |].
    + destruct Hread as [? | Hfalse]; [done|]. fold m in He.
      destruct (set_team_membership_from_csv w m (readable_part names u)).1; done.
    + exists names, r, ts, t. split_and!; try done. by apply decoded_prefix_elem_of.
Qed.

(** X11.  An exception that escapes a run is either the one that waits in
    the upload or the unbound-local error on [team].  The first is the
    [TypeError] of [reader.fieldnames[2:]] on an upload without any line,
    the [UnicodeDecodeError] or [csv.Error] of a header or data line that
    cannot be read, or the [KeyError] of [row['user']]; storage and the
    count of added records are then untouched.  The second is raised only
    by the commit phase, so after every line was read and with an empty
    error list, and only when a row with a user identifier has a non-empty
    cell naming a team of this course that storage already has under that
    name in that teamset.  In particular the lookups in
    [user_ids_by_teamset_id] never fail. *)
Theorem run_raises_reading_or_unbound_local (w : World) (c : Course) (k : Z)
    (u : Upload) (e : exn) :
  let res := set_team_membership_from_csv w
               (with_max_errors (TeamMembershipImportManager c) k) u in
  raised res.1 = Some e →
  (read_failure u = Some e
   ∧ (e = TypeError ∨ e = UnicodeDecodeError ∨ e = csv_Error ∨ e = KeyError "user")
   ∧ res.2 = w
   ∧ number_of_record_added (manager_of res.1) = 0)
  ∨ (e = UnboundLocalError "team"
     ∧ read_failure u = None
     ∧ validation_errors (manager_of res.1) = []
     ∧ ∃ names r ts t,
         header u = Fieldnames names ∧ Decoded r ∈ lines u ∧ row_user r ≠ ""
         ∧ ts ∈ drop 2 names ∧ cell r ts ≠ ""
         ∧ t ∈ teams w ∧ team_course_id t = course_id c
         ∧ team_name t = cell r ts ∧ team_topic_id t = ts).
Proof. apply upload_raise_cause. Qed.

Lemma run_raises_reading_or_unbound_local_witness :
  (let f := mkInputFile demo_header [row_andrew_team1] in
   let res := set_team_membership_from_csv storage_team1
                (with_max_errors (TeamMembershipImportManager demo_course) 0) f in
   raised res.1 = Some (UnboundLocalError "team")
   ∧ validation_errors (manager_of res.1) = [])
  ∧ (let u := mkUpload (Fieldnames demo_header) [Decoded row_bob; Undecodable] in
     let res := set_team_membership_from_csv storage_team1
                  (with_max_errors (TeamMembershipImportManager demo_course) 0) u in
     raised res.1 = Some UnicodeDecodeError
     ∧ read_failure u = Some UnicodeDecodeError
     ∧ res.2 = storage_team1).
Proof.
  split.
  - intros f res.
    assert (raised res.1 = Some (UnboundLocalError "team")) as H by by vm_compute.
    split; [exact H|].
    destruct (run_raises_reading_or_unbound_local storage_team1 demo_course 0 f _ H)
      as [(_ & Hkind & _) | (_ & _ & Herr & _)]; [| exact Herr].
    by destruct Hkind as [? | [? | [? | ?]]].
  - intros u res.
    assert (raised res.1 = Some UnicodeDecodeError) as H by by vm_compute.
    split; [exact H|].
    destruct (run_raises_reading_or_unbound_local storage_team1 demo_course 0 u _ H)
      as [(Hread & _ & Hw & _) | (Hkind & _)]; [| discriminate Hkind].
    split; [exact Hread | exact Hw].
Defined.

(** ** The return value and [import_succeeded] *)

Lemma run_return_value w m (f : InputFile) :
  match (set_team_membership_from_csv w m f).1 with
  | Ret b m' => b = import_succeeded m'
  | Exc e m' => e = UnboundLocalError "team" ∧ import_succeeded m' = true
  end.
Proof.
  unfold import_succeeded.
  destruct (run_shape_intro w m f)
    as [m1 Hg | m5 _ E F | l m5 _ E F Hne | l m5 _ E F Hnil]; simpl.
  - apply validate_teamsets_false in Hg as [e ->]. simpl.
    symmetry. apply bool_decide_eq_false_2, app_singleton_nonempty.
  - symmetry. apply bool_decide_eq_false_2. by eapply process_rows_return_errors.
  - symmetry. by apply bool_decide_eq_false_2.
  - pose proof (commit_rows_manager (row_dictionaries l) m5 w) as (He & _).
    pose proof (commit_rows_raises (row_dictionaries l) m5 w) as Hraise.
    destruct (commit_rows _ _ _) as [[[] m6|e m6] w']; simpl in *.
    + symmetry. apply bool_decide_eq_true_2. congruence.
    + split; [by destruct (Hraise e eq_refl) |].
      apply bool_decide_eq_true_2. congruence.
Qed.

Lemma upload_return_value w m (u : Upload) :
  match (set_team_membership_from_csv w m u).1 with
  | Ret b m' => b = import_succeeded m'
  | Exc (UnboundLocalError _) m' => import_succeeded m' = true
  | Exc e _ => read_failure u = Some e
  end.
Proof.
  unfold read_failure.
  destruct (upload_shape_intro w m u)
    as [e He | names e l m5 Hh _ Hff _ _ | names Hh _]; simpl.
  - rewrite He. apply header_failure_Some in He. by destruct He as [-> | [-> | ->]].
  - rewrite Hh, Hff. simpl.
    apply first_failure_Some in Hff. by destruct Hff as [-> | [-> | ->]].
  - pose proof (run_return_value w m (readable_part names u)) as Hret.
    destruct (set_team_membership_from_csv w m (readable_part names u)).1 as [b m'|e m'];
      [done|]. by destruct Hret as [-> ?].
Qed.

(** X3.  Whatever manager the run starts from and whatever the upload:
    when the run returns, the value returned is the value of
    [import_succeeded] afterwards; when it raises the unbound-local error
    (which comes from the commit phase), [import_succeeded] is [True]
    afterwards, the error list being empty although the import was not
    completed.  Any other exception is the one that waits in the upload,
    and nothing is said of [import_succeeded] then: errors may be on
    record. *)
Theorem return_value_is_import_succeeded (w : World) (m : Manager) (u : Upload) :
  match (set_team_membership_from_csv w m u).1 with
  | Ret b m' => b = import_succeeded m'
  | Exc (UnboundLocalError _) m' => import_succeeded m' = true
  | Exc e _ => read_failure u = Some e
  end.
Proof. apply upload_return_value. Qed.

(** X12.  An upload whose header reads, whose data lines all read (each
    decodes, is accepted by the csv module and gives a dictionary with a
    [user] entry) and that names only teams that storage does not have yet
    for the course never makes the run raise: the run returns, and its
    value tells whether validation found an error. *)
Theorem run_on_new_teams_returns (w : World) (c : Course) (k : Z) (u : Upload)
    (names : list string) :
  header u = Fieldnames names →
  first_failure (lines u) = None →
  (∀ r ts t, Decoded r ∈ lines u → ts ∈ drop 2 names → t ∈ teams w →
             team_course_id t = course_id c →
             ¬ (team_name t = cell r ts ∧ team_topic_id t = ts)) →
  let res := set_team_membership_from_csv w
               (with_max_errors (TeamMembershipImportManager c) k) u in
  raised res.1 = None
  ∧ returned res.1 = Some (import_succeeded (manager_of res.1)).
Proof.
  intros Hh Hff Hnew res.
  assert (read_failure u = None) as Hread.
  { unfold read_failure. by rewrite Hh. }
  assert (raised res.1 = None) as Hnone.
  { destruct (raised res.1) as [e|] eqn:He; [| done]. exfalso.
    destruct (upload_raise_cause w c k u e He)
      as [(Hr & _) | (_ & _ & _ & names' & r & ts & t & Hh' & ? & ? & ? & ? & ? & ? & ? & ?)].
    - by rewrite Hread in Hr.
    - rewrite Hh in Hh'. injection Hh' as <-. by apply (Hnew r ts t). }
  split; [done|].
  pose proof (upload_return_value w
                (with_max_errors (TeamMembershipImportManager c) k) u) as Hret.
  fold res in Hret. destruct res.1 as [b m'|e m']; simpl in *; [by subst | done].
Qed.

Lemma run_on_new_teams_returns_witness :
  let u := mkUpload (Fieldnames demo_header)
             [Decoded row_andrew_team1; Decoded row_joe_team2] in
  let res := set_team_membership_from_csv storage_no_teams
               (with_max_errors (TeamMembershipImportManager demo_course) 0) u in
  raised res.1 = None
  ∧ returned res.1 = Some (import_succeeded (manager_of res.1)).
Proof.
  intros u.
  apply (run_on_new_teams_returns storage_no_teams demo_course 0 u demo_header);
    [reflexivity | reflexivity |].
  intros r ts t _ _ Ht. by apply elem_of_nil in Ht.
Defined.

(** ** Users that are not enrolled *)

(** X13.  A row whose identifier resolves to a user that is not enrolled
    in the course is dropped: the one thing recorded is the 'not enrolled'
    error, which names the username of the user found (also when the row
    gave the email address), the row is not kept for the commit phase, its
    cells are not looked at, and the row loop goes on with the rows after
    it, whatever [max_errors] is. *)
Theorem not_enrolled_user_skips_row (w : World) (m m1 : Manager) (l : Locals)
    (row : Row) (rest : list Row) (u : User) :
  row_user row ≠ "" →
  is_username_unique m (row_user row) (csv_usernames l) = (true, m1) →
  resolve w (row_user row) = Some u →
  is_enrolled w u (course_id (course m1)) = false →
  let m2 := with_validation_errors m1
              (validation_errors m1 ++ [msg_not_enrolled (username u)]) in
  let l1 := mkLocals ({[row_user row]} ∪ csv_usernames l) (row_dictionaries l) in
  process_row w m l row = Ret (inl l1) m2
  ∧ process_rows w [row] l m = Ret (inl l1) m2
  ∧ process_rows w (row :: rest) l m = process_rows w rest l1 m2
  ∧ ∀ ls, process_lines w (Decoded row :: ls) l m = process_lines w ls l1 m2.
Proof.
  intros Hne Hu Hres Henr m2 l1.
  assert (process_row w m l row = Ret (inl l1) m2) as Hp.
  { unfold process_row. rewrite bool_decide_eq_false_2 by done.
    rewrite Hu. simpl. rewrite get_user_resolve, Hres.
    unfold validate_user_enrolled_in_course. by rewrite Henr. }
  split_and!; [done | | |].
  - by rewrite process_rows_cons, Hp, process_rows_nil.
  - by rewrite process_rows_cons, Hp.
  - intros ls. simpl. by rewrite Hp.
Qed.

Lemma not_enrolled_user_skips_row_witness :
  let w := mkWorld [andrew; joe] [(2, "course-v1:demo")] [] [] [] in
  let f := mkInputFile demo_header [mkRow "andrew@example.com" {["masters" := "team1"]};
                                    row_joe_team2] in
  let m := loaded w (with_max_errors (TeamMembershipImportManager demo_course) 0) f in
  process_rows w [mkRow "andrew@example.com" {["masters" := "team1"]}] (mkLocals ∅ []) m =
    Ret (inl (mkLocals ({["andrew@example.com"]} ∪ ∅) []))
      (with_validation_errors m [msg_not_enrolled "andrew"])
  ∧ process_rows w (rows f) (mkLocals ∅ []) m =
      process_rows w [row_joe_team2] (mkLocals ({["andrew@example.com"]} ∪ ∅) [])
        (with_validation_errors m [msg_not_enrolled "andrew"]).
Proof.
  intros w f m.
  destruct (not_enrolled_user_skips_row w m m (mkLocals ∅ [])
              (mkRow "andrew@example.com" {["masters" := "team1"]}) [row_joe_team2] andrew)
    as (_ & Hone & Hnext & _); [by vm_compute.. |].
  split; [exact Hone | exact Hnext].
Defined.

(** ** Running the same file again *)

Lemma first_assigned_cell (r : Row) (tss : list string) :
  (∃ ts, ts ∈ tss ∧ cell r ts ≠ "") →
  ∃ pre ts post, tss = pre ++ ts :: post
                 ∧ (∀ x, x ∈ pre → cell r x = "") ∧ cell r ts ≠ "".
Proof.
  induction tss as [|ts0 tss IH]; intros (ts & Hin & Hne).
  { by apply elem_of_nil in Hin. }
  destruct (decide (cell r ts0 = "")) as [He | Hn].
  - apply elem_of_cons in Hin as [-> | Hin]; [done|].
    destruct IH as (pre & ts1 & post & -> & Hpre & Hne1); [by exists ts |].
    exists (ts0 :: pre), ts1, post. split_and!; [done | | done].
    intros x [-> | Hx]%elem_of_cons; auto.
  - exists [], ts0, tss. split_and!; [done | | done].
    intros x Hx. by apply elem_of_nil in Hx.
Qed.

Lemma add_user_to_team_first_cell u r pre ts post m w m' w' :
  teamset_ids m = pre ++ ts :: post →
  (∀ x, x ∈ pre → cell r x = "") → cell r ts ≠ "" →
  add_user_to_team m w (u, r) = (Ret tt m', w') →
  ∃ t, made_for m (cell r ts) ts t
       ∧ t ∈ teams w'
       ∧ mkMembership (user_id u) t ∈ memberships w'.
Proof.
  intros Hids Hpre Hne. unfold add_user_to_team. simpl. rewrite Hids.
  rewrite add_user_to_team_loop_skip by done. simpl.
  rewrite bool_decide_eq_false_2 by done.
  destruct (existing_course_teams m !! (cell r ts, ts)); simpl; [done|].
  intros E.
  destruct (add_user_to_team_loop_effect u r post post _ _ _ _ _ (reflexivity _) E)
    as (new & added & Heff & _).
  destruct Heff as [_ _ Ht Hm _ _ _ _]. simpl in Ht, Hm.
  exists (CourseTeam_create w (cell r ts) (course_id (course m)) "Import from csv" ts).1.
  split; [by unfold made_for |]. split.
  - rewrite Ht. apply elem_of_app. left. apply elem_of_app. right. by left.
  - rewrite Hm. apply elem_of_app. left. apply elem_of_app. right. by left.
Qed.

Lemma commit_rows_first_cell rds u r pre ts post m w m' w' :
  (u, r) ∈ rds →
  teamset_ids m = pre ++ ts :: post →
  (∀ x, x ∈ pre → cell r x = "") → cell r ts ≠ "" →
  commit_rows rds m w = (Ret tt m', w') →
  ∃ t, made_for m (cell r ts) ts t
       ∧ t ∈ teams w'
       ∧ mkMembership (user_id u) t ∈ memberships w'.
Proof.
  intros Hin Hids Hpre Hne E.
  apply list_elem_of_split in Hin as (a & c & ->).
  apply commit_rows_app_inv in E as (m1 & w1 & _ & E & H1 & _ & H3).
  apply commit_rows_cons_inv in E as (m2 & w2 & Er & Ec & _).
  destruct (add_user_to_team_first_cell u r pre ts post m1 w1 m2 w2)
    as (t & Hm & Ht & Hms); [congruence | done..|].
  destruct (commit_rows_effect _ _ _ _ _ Ec) as (new & added & Heff & _).
  destruct Heff as [_ _ Ht' Hm' _ _ _ _]. simpl in Ht', Hm'.
  exists t. split_and!.
  - unfold made_for in *. by rewrite <- H3.
  - rewrite Ht'. apply elem_of_app. by left.
  - rewrite Hm'. apply elem_of_app. by left.
Qed.

Lemma process_row_kept_user w m l row l' m' ur :
  process_row w m l row = Ret (inl l') m' →
  ur ∈ row_dictionaries l' →
  ur ∈ row_dictionaries l
  ∨ (ur.2 = row ∧ row_user row ≠ "" ∧ resolve w (row_user row) = Some ur.1).
Proof.
  unfold process_row. case_bool_decide; [intros [= <- <-]; by left |].
  destruct (is_username_unique _ _ _) as [[] m1]; simpl; [| done].
  rewrite get_user_resolve. destruct (resolve w (row_user row)) as [u|] eqn:Hres.
  2:{ intros [= <- <-]. by left. }
  destruct (validate_user_enrolled_in_course _ _ _) as [[] m3]; simpl.
  2:{ intros [= <- <-]. by left. }
  destruct (validate_user_assignment_to_team_and_teamset _ _ _ _) as [[] m4|]; [| done..].
  intros [= <- <-]. simpl. intros [? | ->%list_elem_of_singleton]%elem_of_app; [by left |].
  by right.
Qed.

Lemma process_rows_kept_user w rs l m l' m' ur :
  process_rows w rs l m = Ret (inl l') m' →
  ur ∈ row_dictionaries l' →
  ur ∈ row_dictionaries l
  ∨ (ur.2 ∈ rs ∧ row_user ur.2 ≠ "" ∧ resolve w (row_user ur.2) = Some ur.1).
Proof.
  revert l m. induction rs as [|row rs IH]; intros l m;
    rewrite ?process_rows_nil, ?process_rows_cons.
  { intros [= <- <-]. by left. }
  destruct (process_row w m l row) as [[l1|b] m1|] eqn:E1; [| done..].
  intros E Hin. destruct (IH _ _ E Hin) as [Hin1 | (? & ? & ?)].
  - destruct (process_row_kept_user _ _ _ _ _ _ _ E1 Hin1) as [? | (<- & ? & ?)];
      [by left |].
    right. split_and!; [by left | done..].
  - right. split_and!; [by right | done..].
Qed.

Lemma validate_assignment_body_caches w m u r ts :
  let m' := manager_of (validate_assignment_body w m u r ts) in
  existing_course_teams m' = existing_course_teams m
  ∧ existing_course_team_memberships m' = existing_course_team_memberships m
  ∧ course m' = course m.
Proof.
  unfold validate_assignment_body. case_bool_decide; [done|].
  destruct (existing_course_teams m !! _) as [team|].
  - destruct (match default_max_team_size _ with Some _ => _ | None => _ end)
      as [stop m1] eqn:E1.
    assert (frame m m1) as F1.
    { destruct (default_max_team_size _); [case_bool_decide|]; simplify_eq;
        eauto with frame. by apply add_error_frame in E1 as [? _]. }
    destruct F1 as [_ Hc1 _ _ Hm1 Ht1 _ _].
    destruct stop; [done|]. case_bool_decide; [| done].
    destruct (add_error_and_check_if_max_exceeded m1 _) as [stop2 m2] eqn:E2.
    apply add_error_frame in E2 as [[_ Hc2 _ _ Hm2 Ht2 _ _] _].
    destruct stop2; simpl; split_and!; congruence.
  - destruct (user_ids_by_teamset_id m !! ts); [| done].
    destruct (if bool_decide _ then _ else _) as [stop m1] eqn:E1.
    assert (frame m m1) as F1.
    { case_bool_decide; simplify_eq; eauto with frame.
      by apply add_error_frame in E1 as [? _]. }
    destruct F1 as [_ Hc1 _ _ Hm1 Ht1 _ _].
    by destruct stop.
Qed.

(** A cell that names a cached team in whose teamset the user has a cached
    membership leaves an error on record. *)
Lemma validate_assignment_body_conflict w m u r ts t :
  cell r ts ≠ "" →
  existing_course_teams m !! (cell r ts, ts) = Some t →
  is_Some (existing_course_team_memberships m !! (user_id u, team_topic_id t)) →
  validation_errors (manager_of (validate_assignment_body w m u r ts)) ≠ [].
Proof.
  intros Hne Ht Hmem. rewrite (validate_assignment_body_existing w m u r ts t Hne Ht).
  destruct (decide (team_is_full w m t)).
  - destruct (add_error_and_check_if_max_exceeded m _) as [stop m1] eqn:E1.
    apply add_error_nonempty in E1 as Hn1. destruct stop; [done|].
    case_bool_decide; [| done].
    destruct (add_error_and_check_if_max_exceeded m1 _) as [[] m2] eqn:E2;
      by apply add_error_nonempty in E2.
  - rewrite bool_decide_eq_true_2 by done.
    destruct (add_error_and_check_if_max_exceeded m _) as [[] m2] eqn:E2;
      by apply add_error_nonempty in E2.
Qed.

Lemma validate_assignment_loop_conflict w u r tss m ts t b m' :
  ts ∈ tss → cell r ts ≠ "" →
  existing_course_teams m !! (cell r ts, ts) = Some t →
  is_Some (existing_course_team_memberships m !! (user_id u, team_topic_id t)) →
  validate_assignment_loop w u r tss m = Ret b m' →
  validation_errors m' ≠ [].
Proof.
  revert m. induction tss as [|ts0 tss IH]; intros m Hin Hne Ht Hmem; simpl.
  { by apply elem_of_nil in Hin. }
  pose proof (validate_assignment_body_caches w m u r ts0) as (Hc1 & Hc2 & _).
  destruct (decide (ts0 = ts)) as [-> | Hneq].
  - pose proof (validate_assignment_body_conflict w m u r ts t Hne Ht Hmem) as Hb.
    destruct (validate_assignment_body w m u r ts) as [[b0|] m1|]; simpl in *.
    + by intros [= _ <-].
    + intros E.
      pose proof (validate_assignment_loop_keeps_errors w u r tss m1 Hb) as Hk.
      rewrite E in Hk. done.
    + done.
  - apply elem_of_cons in Hin as [-> | Hin]; [done|].
    destruct (validate_assignment_body w m u r ts0) as [[b0|] m1|] eqn:E0; simpl in *.
    + intros [= _ <-]. by apply validate_assignment_body_return in E0 as [_ ?].
    + apply IH; [done | done | by rewrite Hc1 | by rewrite Hc2].
    + done.
Qed.

Lemma process_rows_conflict w rs l m r u ts t x m' :
  keys_loaded m →
  r ∈ rs → row_user r ≠ "" → resolve w (row_user r) = Some u →
  ts ∈ teamset_ids m → cell r ts ≠ "" →
  existing_course_teams m !! (cell r ts, ts) = Some t →
  is_Some (existing_course_team_memberships m !! (user_id u, team_topic_id t)) →
  process_rows w rs l m = Ret x m' →
  validation_errors m' ≠ [].
Proof.
  intros K Hin Hu Hres Hts Hne Ht Hmem. revert l m K Hts Ht Hmem Hin.
  induction rs as [|row rs IH]; intros l m K Hts Ht Hmem Hin;
    rewrite ?process_rows_nil, ?process_rows_cons.
  { by apply elem_of_nil in Hin. }
  destruct (process_row_frame w m l row K) as (y & m1 & E1 & F1). rewrite E1.
  assert (keys_loaded m1) as K1 by by eapply keys_loaded_frame.
  apply elem_of_cons in Hin as [<- | Hin].
  - assert (validation_errors m1 ≠ []) as H1.
    { clear IH. unfold process_row in E1. rewrite bool_decide_eq_false_2 in E1 by done.
      destruct (is_username_unique _ _ _) as [[] m2] eqn:E2; simpl in E1.
      2:{ injection E1 as _ <-. by eapply is_username_unique_false. }
      apply is_username_unique_frame in E2 as F2.
      rewrite get_user_resolve, Hres in E1.
      destruct (validate_user_enrolled_in_course _ _ _) as [[] m3] eqn:E3; simpl in E1.
      2:{ injection E1 as _ <-. unfold validate_user_enrolled_in_course in E3.
          destruct (negb _); simplify_eq. apply app_singleton_nonempty. }
      apply validate_user_enrolled_frame in E3 as F3.
      assert (frame m m3) as F by eauto with frame.
      unfold validate_user_assignment_to_team_and_teamset in E1.
      destruct (validate_assignment_loop w u r (teamset_ids m3) m3) as [b m4|] eqn:E4;
        [| done].
      assert (validation_errors m4 ≠ []) as H4.
      { eapply (validate_assignment_loop_conflict w u r _ m3 ts t); [| done | | | done].
        - by rewrite (frame_teamset_ids _ _ F).
        - by rewrite (frame_teams _ _ F).
        - by rewrite (frame_memberships _ _ F). }
      destruct b; by injection E1 as _ <-. }
    destruct y as [l1|b]; [| by intros [= _ <-]].
    by apply process_rows_keep_errors.
  - destruct y as [l1|b]; [| intros [= _ <-]; by eapply process_row_return_errors].
    apply IH; [done | | | | done].
    + by rewrite (frame_teamset_ids _ _ F1).
    + by rewrite (frame_teams _ _ F1).
    + by rewrite (frame_memberships _ _ F1).
Qed.

(** X14.  Running a file again after it was imported: when the run
    returned [True] and the file has a row with a user identifier and a
    non-empty cell under a teamset column, a second run of the same file
    for the same course on the storage the first run left, whatever its
    error threshold, returns [False] and writes nothing. *)
Theorem second_run_of_an_imported_file_fails (w w1 : World) (c : Course) (k k' : Z)
    (f : InputFile) (m1 : Manager) (r : Row) (ts : string) :
  set_team_membership_from_csv w
    (with_max_errors (TeamMembershipImportManager c) k) f = (Ret true m1, w1) →
  r ∈ rows f → row_user r ≠ "" → ts ∈ drop 2 (fieldnames f) → cell r ts ≠ "" →
  let res := set_team_membership_from_csv w1
               (with_max_errors (TeamMembershipImportManager c) k') f in
  returned res.1 = Some false
  ∧ validation_errors (manager_of res.1) ≠ []
  ∧ res.2 = w1.
Proof.
  intros Hrun Hr Hu Hts Hcell res.
  set (m0 := with_max_errors (TeamMembershipImportManager c) k) in *.
  set (m0' := with_max_errors (TeamMembershipImportManager c) k') in *.
  (* the first run *)
  pose proof (run_shape_intro w m0 f) as Hshape. rewrite Hrun in Hshape.
  inversion Hshape as [| | | l m5 Hok E F Hnil Hcommit].
  destruct (commit_rows (row_dictionaries l) m5 w) as [[[] m6|e m6] w6] eqn:Ec;
    [| done]. simplify_eq.
  pose proof (process_rows_kept _ _ _ _ _ _ (load_keys_loaded w _) E Hnil) as Hkept.
  rewrite app_nil_l in Hkept.
  assert (r ∈ (row_dictionaries l).*2) as Hin.
  { rewrite Hkept. by apply list_elem_of_filter. }
  apply list_elem_of_fmap in Hin as ([u r'] & Hr' & Hur). simpl in Hr'. subst r'.
  destruct (process_rows_kept_user _ _ _ _ _ _ _ E Hur) as [Hnil' | (_ & _ & Hres)].
  { by apply elem_of_nil in Hnil'. }
  simpl in Hres.
  destruct (first_assigned_cell r (drop 2 (fieldnames f))) as (pre & ts1 & post & Hids & Hpre & Hne1).
  { by exists ts. }
  destruct (commit_rows_first_cell _ u r pre ts1 post m5 w m1 w1 Hur)
    as (t & (Hname & Htopic & Hcourse) & Ht & Hms); [| done | done | done |].
  { by rewrite (frame_teamset_ids _ _ F). }
  rewrite (frame_course _ _ F) in Hcourse.
  change (course (loaded w m0 f)) with c in Hcourse.
  destruct (commit_rows_effect _ _ _ _ _ Ec) as (new & added & Heff & _).
  pose proof (effect_users _ _ _ _ _ _ _ _ Heff) as Husers.
  (* the second run *)
  assert (ts1 ∈ drop 2 (fieldnames f)) as Hts1.
  { rewrite Hids. apply elem_of_app. right. by left. }
  assert (resolve w1 (row_user r) = Some u) as Hres1.
  { unfold resolve, find_user_by_login, find_user_by_email in *. by rewrite Husers. }
  assert (∃ t', existing_course_teams (loaded w1 m0' f) !! (cell r ts1, ts1) = Some t'
                ∧ team_topic_id t' = ts1) as (t' & Hcache & Htopic').
  { unfold loaded. rewrite load_course_teams_lookup_last.
    destruct (last _) as [t'|] eqn:El.
    - exists t'. split; [done|].
      by apply last_Some_elem_of, list_elem_of_filter in El as [(? & ? & ?) ?].
    - apply last_None in El.
      assert (t ∈ filter (λ t, team_course_id t = course_id c
                               ∧ team_name t = cell r ts1 ∧ team_topic_id t = ts1)
                         (teams w1)) as Hf by by apply list_elem_of_filter.
      change (course (load_course_team_memberships w1 _)) with c in El.
      rewrite El in Hf. by apply elem_of_nil in Hf. }
  assert (is_Some (existing_course_team_memberships (loaded w1 m0' f)
                     !! (user_id u, team_topic_id t'))) as Hmem.
  { rewrite Htopic', <- Htopic. unfold loaded.
    change (existing_course_team_memberships (load_course_teams w1 ?x))
      with (existing_course_team_memberships x).
    by apply (load_course_team_memberships_lookup w1 _ (mkMembership (user_id u) t)). }
  assert (validation_errors (manager_of res.1) ≠ []) as Herr.
  { subst res. destruct (run_shape_intro w1 m0' f)
      as [m2 Hg | m7 _ E2 F2 | l2 m7 _ E2 F2 Hn2 | l2 m7 _ E2 F2 Hnil2]; simpl.
    - apply validate_teamsets_false in Hg as [e ->]. apply app_singleton_nonempty.
    - by eapply process_rows_return_errors.
    - done.
    - exfalso.
      eapply (process_rows_conflict w1 (rows f) _ (loaded w1 m0' f) r u ts1 t');
        [apply load_keys_loaded | done..]. }
  destruct (run_with_errors w1 m0' f Herr) as (H1 & H2 & _). fold res in H1, H2.
  split_and!; [by rewrite H1 | done | done].
Qed.

Lemma second_run_of_an_imported_file_fails_witness :
  let f := mkInputFile demo_header [row_andrew_team1; row_joe_team2] in
  let m0 := with_max_errors (TeamMembershipImportManager demo_course) 0 in
  let first := set_team_membership_from_csv storage_no_teams m0 f in
  let res := set_team_membership_from_csv first.2 m0 f in
  returned first.1 = Some true
  ∧ returned res.1 = Some false
  ∧ validation_errors (manager_of res.1) ≠ []
  ∧ res.2 = first.2.
Proof.
  intros f m0 first res.
  assert (returned first.1 = Some true) as H by by vm_compute.
  split; [exact H|].
  assert (set_team_membership_from_csv storage_no_teams m0 f
          = (Ret true (manager_of first.1), first.2)) as Hrun.
  { fold first. destruct first as [[[] m'|e m'] w']; simpl in *; by simplify_eq. }
  apply (second_run_of_an_imported_file_fails storage_no_teams first.2 demo_course 0 0 f
           (manager_of first.1) row_andrew_team1 "masters" Hrun).
  - by left.
  - by vm_compute.
  - apply (bool_decide_unpack _). by vm_compute.
  - by vm_compute.
Defined.

(** * Properties of the course API serializers *)

(** ** [split(',')] *)

Lemma split_comma_nonempty s : split_comma s ≠ [].
Proof.
  destruct s as [|ch rest]; simpl; [done|].
  destruct (Ascii.eqb ch ","); [done|]. by destruct (split_comma rest).
Qed.

Lemma concat_cons_nonempty sep x y l :
  String.concat sep (x :: y :: l) = x +:+ sep +:+ String.concat sep (y :: l).
Proof. done. Qed.

Lemma split_comma_comma rest : split_comma (String "," rest) = "" :: split_comma rest.
Proof. done. Qed.

Lemma split_comma_other ch rest :
  ch ≠ ","%char →
  split_comma (String ch rest) =
    match split_comma rest with
    | piece :: pieces => String ch piece :: pieces
    | [] => [String ch ""]
    end.
Proof.
  intros Hne. simpl. destruct (Ascii.eqb ch ",") eqn:E; [| done].
  by apply Ascii.eqb_eq in E.
Qed.

(** X15.  Splitting at the commas loses nothing: the pieces of
    [s.split(',')] joined with commas are [s] again; there is always at
    least one piece and no piece has a comma in it. *)
Theorem split_comma_join (s : string) :
  String.concat "," (split_comma s) = s
  ∧ split_comma s ≠ []
  ∧ Forall comma_free (split_comma s).
Proof.
  split_and!; [| apply split_comma_nonempty |].
  - induction s as [|ch rest IH]; [done|].
    destruct (decide (ch = ","%char)) as [-> | Hne].
    + rewrite split_comma_comma.
      pose proof (split_comma_nonempty rest) as Hn.
      destruct (split_comma rest) as [|y l]; [done|].
      rewrite concat_cons_nonempty, IH. done.
    + rewrite split_comma_other by done.
      pose proof (split_comma_nonempty rest) as Hn.
      destruct (split_comma rest) as [|y l]; [done|].
      destruct l as [|z l].
      * simpl in *. by rewrite IH.
      * rewrite concat_cons_nonempty. rewrite concat_cons_nonempty in IH.
        transitivity (String ch (y +:+ "," +:+ String.concat "," (z :: l))); [done|].
        by f_equal.
  - induction s as [|ch rest IH]; [by repeat constructor |].
    destruct (decide (ch = ","%char)) as [-> | Hne].
    + rewrite split_comma_comma. by constructor.
    + rewrite split_comma_other by done.
      destruct (split_comma rest) as [|y l]; [by repeat constructor |].
      apply Forall_cons in IH as [Hy Hl]. by repeat constructor.
Qed.

Lemma split_comma_app piece s :
  comma_free piece →
  split_comma (piece +:+ s) =
    match split_comma s with
    | x :: xs => (piece +:+ x) :: xs
    | [] => [piece]
    end.
Proof.
  induction piece as [|ch rest IH]; intros Hfree.
  - change ("" +:+ s) with s. pose proof (split_comma_nonempty s).
    by destruct (split_comma s).
  - destruct Hfree as [Hne Hfree].
    change (String ch rest +:+ s) with (String ch (rest +:+ s)).
    rewrite split_comma_other by done. rewrite (IH Hfree).
    pose proof (split_comma_nonempty s). by destruct (split_comma s).
Qed.

Lemma append_empty_r (s : string) : s +:+ "" = s.
Proof.
  induction s as [|ch rest IH]; [done|].
  change (String ch rest +:+ "") with (String ch (rest +:+ "")). by rewrite IH.
Qed.

(** X16.  Conversely, joining comma-free pieces with commas and
    splitting the result gives the pieces back: for one piece at least,
    [','.join(pieces).split(',')] is [pieces]. *)
Theorem split_comma_of_join (pieces : list string) :
  pieces ≠ [] →
  Forall comma_free pieces →
  split_comma (String.concat "," pieces) = pieces.
Proof.
  induction pieces as [|x l IH]; [done|]. intros _ Hfree.
  apply Forall_cons in Hfree as [Hx Hl].
  destruct l as [|y l].
  - change (String.concat "," [x]) with x. rewrite <- (append_empty_r x) at 1.
    rewrite split_comma_app by done. simpl. by rewrite append_empty_r.
  - rewrite concat_cons_nonempty, split_comma_app by done.
    change ("," +:+ String.concat "," (y :: l))
      with (String "," (String.concat "," (y :: l))).
    rewrite split_comma_comma, IH by done. by rewrite append_empty_r.
Qed.

Lemma split_comma_of_join_witness :
  split_comma (String.concat "," ["id"; ""; "start"]) = ["id"; ""; "start"].
Proof.
  apply split_comma_of_join; [done|].
  repeat constructor; by vm_compute.
Defined.

(** ** The requested fields *)

Lemma filter_keep_all {A} (P : A → Prop) `{∀ x, Decision (P x)} (l : list A) :
  (∀ x, x ∈ l → P x) → filter P l = l.
Proof.
  induction l as [|x l IH]; intros Hall; [done|].
  rewrite filter_cons_True by (apply Hall; by left).
  f_equal. apply IH. intros y Hy. apply Hall. by right.
Qed.

Lemma filter_drop_all {A} (P : A → Prop) `{∀ x, Decision (P x)} (l : list A) :
  (∀ x, x ∈ l → ¬ P x) → filter P l = [].
Proof.
  induction l as [|x l IH]; intros Hall; [done|].
  rewrite filter_cons_False by (apply Hall; by left).
  apply IH. intros y Hy. apply Hall. by right.
Qed.

Lemma pop_fields_spec (names : list string) (fields : list Field) :
  NoDup names →
  (∀ name, name ∈ names → name ∈ field_name <$> fields) →
  pop_fields names fields = inr (filter (λ fd, field_name fd ∉ names) fields).
Proof.
  revert fields. induction names as [|name rest IH]; intros fields Hnd Hin; simpl.
  { f_equal. symmetry. apply filter_keep_all. intros fd _ H. by apply elem_of_nil in H. }
  apply NoDup_cons in Hnd as [Hname Hnd]. unfold fields_pop.
  rewrite bool_decide_eq_true_2 by (apply Hin; by left).
  rewrite IH; [| done |].
  - f_equal. rewrite list_filter_filter. apply list_filter_iff. intros fd. split.
    + intros [Hrest Hne] Hin'. apply elem_of_cons in Hin' as [Heq | Hr]; done.
    + intros Hnot. split; [intros Hr | intros Heq]; apply Hnot;
        [by right | rewrite Heq; by left].
  - intros n Hn. assert (n ∈ field_name <$> fields) as Hf by (apply Hin; by right).
    apply list_elem_of_fmap in Hf as (fd & -> & Hfd). apply list_elem_of_fmap.
    exists fd. split; [done|]. apply list_elem_of_filter. split; [| done].
    intros Heq. apply Hname. by rewrite <- Heq.
Qed.

Lemma filter_ext_elem_of {A} (P Q : A → Prop) `{∀ x, Decision (P x)}
    `{∀ x, Decision (Q x)} (l : list A) :
  (∀ x, x ∈ l → P x ↔ Q x) → filter P l = filter Q l.
Proof.
  induction l as [|x l IH]; intros Hext; [done|].
  rewrite !filter_cons. rewrite IH by (intros y Hy; apply Hext; by right).
  destruct (decide (P x)) as [HP | HP], (decide (Q x)) as [HQ | HQ]; try done.
  - exfalso. apply HQ, (Hext x); [by left | done].
  - exfalso. apply HP, (Hext x); [by left | done].
Qed.

Lemma requested_fields_kept (requested_fields : string) :
  pop_fields
    (elements ((list_to_set (field_name <$> CourseInfoSerializer_fields) : gset string)
               ∖ list_to_set (split_comma requested_fields)))
    CourseInfoSerializer_fields
  = inr (filter (λ fd, field_name fd ∈ split_comma requested_fields)
                CourseInfoSerializer_fields).
Proof.
  rewrite pop_fields_spec.
  - f_equal. apply filter_ext_elem_of. intros fd Hfd.
    rewrite elem_of_elements, elem_of_difference, !elem_of_list_to_set.
    assert (field_name fd ∈ field_name <$> CourseInfoSerializer_fields) as Hn
      by (apply list_elem_of_fmap; by exists fd).
    split.
    + intros Hnot. destruct (decide (field_name fd ∈ split_comma requested_fields));
        [done|]. by destruct Hnot.
    + intros Hin [_ Hout]. done.
  - apply NoDup_elements.
  - intros name Hname. apply elem_of_elements, elem_of_difference in Hname as [Hn _].
    by apply elem_of_list_to_set in Hn.
Qed.

(** X17.  What [CourseInfoSerializer.__init__] leaves of the fields.
    Without the key [requested_fields] in the context it raises a
    [KeyError]; with [None] under the key every declared field stays; with
    a string, the fields that stay are the declared fields whose name is
    one of the comma-separated pieces of the string, in the order of their
    declaration, whatever the order of the pieces, and no [pop] fails. *)
Theorem requested_fields_select_declared_fields (context : gmap string (option string)) :
  CourseInfoSerializer_init context =
    match context !! "requested_fields" with
    | None => inl (KeyError "requested_fields")
    | Some None => inr CourseInfoSerializer_fields
    | Some (Some requested_fields) =>
        inr (filter (λ fd, field_name fd ∈ split_comma requested_fields)
                    CourseInfoSerializer_fields)
    end.
Proof.
  unfold CourseInfoSerializer_init.
  destruct (context !! "requested_fields") as [[requested_fields|]|]; [| done..].
  apply requested_fields_kept.
Qed.

(** X18.  A request none of whose pieces is the name of a declared field
    leaves the serializer without any field; the empty string, whose one
    piece is the empty name, is such a request, and so is a name written
    with a blank before it. *)
Theorem unknown_request_leaves_no_field (context : gmap string (option string))
    (requested_fields : string) :
  context !! "requested_fields" = Some (Some requested_fields) →
  (∀ piece, piece ∈ split_comma requested_fields →
            piece ∉ field_name <$> CourseInfoSerializer_fields) →
  CourseInfoSerializer_init context = inr [].
Proof.
  intros Hctx Hnone. unfold CourseInfoSerializer_init. rewrite Hctx.
  rewrite requested_fields_kept. f_equal.
  apply filter_drop_all. intros fd Hfd Hin. apply (Hnone _ Hin).
  apply list_elem_of_fmap. by exists fd.
Qed.

Lemma unknown_request_leaves_no_field_witness :
  CourseInfoSerializer_init {["requested_fields" := Some ""]} = inr []
  ∧ CourseInfoSerializer_init {["requested_fields" := Some " id"]} = inr [].
Proof.
  split.
  - apply (unknown_request_leaves_no_field _ ""); [done|].
    intros piece Hp. apply (bool_decide_unpack _).
    repeat (apply elem_of_cons in Hp as [-> | Hp]; [by vm_compute |]).
    by apply elem_of_nil in Hp.
  - apply (unknown_request_leaves_no_field _ " id"); [done|].
    intros piece Hp. apply (bool_decide_unpack _).
    repeat (apply elem_of_cons in Hp as [-> | Hp]; [by vm_compute |]).
    by apply elem_of_nil in Hp.
Defined.

(** ** [get_tabs] *)

Lemma get_tabs_loop_spec {CourseOverview Reverse : Type} (reverse : Reverse)
    (course_overview : CourseOverview) (priority : nat)
    (tab_list : list (@CourseTab CourseOverview Reverse)) (tabs : list TabEntry) :
  get_tabs_loop reverse course_overview priority tab_list tabs =
    tabs ++ imap (λ i tab, mkTabEntry (tab_title tab) (tab_tab_id tab) (priority + i)
                             (tab_type tab) (tab_link_func tab course_overview reverse))
                 tab_list.
Proof.
  revert priority tabs. induction tab_list as [|tab rest IH]; intros priority tabs; simpl.
  { by rewrite app_nil_r. }
  rewrite IH, <- app_assoc. simpl. rewrite Nat.add_0_r. do 2 f_equal.
  apply imap_ext. intros i x _. simpl. f_equal. lia.
Qed.

(** X19.  [get_tabs] returns one entry per tab of the course tab list, in
    the order of that list: the entry at position [i] carries title, slug,
    type and URL of the tab at position [i] and has priority [i]. *)
Theorem get_tabs_numbers_the_tabs {CourseOverview EffectiveUser Reverse : Type}
    (effective_user : CourseOverview → EffectiveUser)
    (get_course_tab_list : EffectiveUser → CourseOverview → list CourseTab)
    (reverse : Reverse) (course_overview : CourseOverview) :
  let tab_list := get_course_tab_list (effective_user course_overview) course_overview in
  let tabs := get_tabs effective_user get_course_tab_list reverse course_overview in
  length tabs = length tab_list
  ∧ ∀ i, tabs !! i =
         (λ tab, mkTabEntry (tab_title tab) (tab_tab_id tab) i (tab_type tab)
                            (tab_link_func tab course_overview reverse))
           <$> tab_list !! i.
Proof.
  intros tab_list tabs. subst tabs. unfold get_tabs. fold tab_list.
  rewrite get_tabs_loop_spec. simpl. split.
  - by rewrite length_imap.
  - intros i. by rewrite list_lookup_imap.
Qed.

(** * More on the import manager *)

(** ** How many teams a successful run creates *)

Lemma add_user_to_team_loop_team_count u r tss team m w m' w' :
  add_user_to_team_loop u r tss team m w = (Ret tt m', w') →
  length (teams w') =
    length (teams w) + length (new_team_cells (existing_course_teams m) tss r).
Proof.
  revert team m w. induction tss as [|ts tss IH]; intros team m w; simpl.
  { intros [= <- <-]. unfold new_team_cells. simpl. lia. }
  unfold new_team_cells. rewrite filter_cons.
  fold (new_team_cells (existing_course_teams m) tss r).
  case_bool_decide as Hcell.
  { rewrite decide_False by (intros [Hn _]; by apply Hn). apply IH. }
  destruct (existing_course_teams m !! (cell r ts, ts)) as [cached|] eqn:Hc; simpl.
  - rewrite decide_False by (intros [_ ?]; done).
    destruct team as [t|]; [| done]. intros E. by rewrite (IH _ _ _ E).
  - rewrite decide_True by done. intros E. rewrite (IH _ _ _ E). simpl.
    rewrite length_app. simpl. lia.
Qed.

Lemma commit_rows_team_count rds m w m' w' :
  commit_rows rds m w = (Ret tt m', w') →
  length (teams w') =
    length (teams w)
    + sum_list (length ∘ new_team_cells (existing_course_teams m) (teamset_ids m)
                  <$> rds.*2).
Proof.
  revert m w. induction rds as [|[u r] rds IH]; intros m w.
  { intros [= <- <-]. simpl. lia. }
  intros (m1 & w1 & E1 & E2 & Hids & Hcache & _)%commit_rows_cons_inv.
  unfold add_user_to_team in E1. simpl in E1.
  apply add_user_to_team_loop_team_count in E1. apply IH in E2.
  rewrite E2, E1, Hids, Hcache. rewrite !fmap_cons. cbn [sum_list sum_list_with].
  unfold compose at 2. simpl. lia.
Qed.

(** X20.  When the run returns [True], the number of teams in storage has
    grown by the number of non-empty cells, over the rows with a user
    identifier, that name a (team name, teamset) pair absent from the
    cache loaded at the start: one team per such cell, also when several
    cells name the same pair. *)
Theorem success_creates_one_team_per_new_cell (w : World) (m : Manager) (f : InputFile) :
  let res := set_team_membership_from_csv w m f in
  returned res.1 = Some true →
  length (teams res.2) =
    length (teams w)
    + sum_list (length ∘ new_team_cells (existing_course_teams (loaded w m f))
                            (drop 2 (fieldnames f))
                  <$> identified_rows (rows f)).
Proof.
  intros res. subst res.
  destruct (run_shape_intro w m f)
    as [m1 Hg | m5 _ E F | l m5 _ E F Hne | l m5 _ E F Hnil]; simpl; [done..|].
  pose proof (process_rows_kept _ _ _ _ _ _ (load_keys_loaded w _) E Hnil) as Hkept.
  rewrite app_nil_l in Hkept. fold (identified_rows (rows f)) in Hkept.
  destruct (commit_rows (row_dictionaries l) m5 w) as [[[] m6|e m6] w'] eqn:Ec;
    simpl; [| done].
  intros _. apply commit_rows_team_count in Ec. rewrite Ec, Hkept.
  by rewrite (frame_teams _ _ F), (frame_teamset_ids _ _ F).
Qed.

Lemma success_creates_one_team_per_new_cell_witness :
  let f := mkInputFile demo_header [row_andrew_team1; row_joe_team1] in
  let res := set_team_membership_from_csv storage_no_teams
               (TeamMembershipImportManager demo_course) f in
  returned res.1 = Some true
  ∧ length (teams res.2) = 2.
Proof.
  intros f res.
  assert (returned res.1 = Some true) as H by by vm_compute.
  split; [exact H|].
  exact (success_creates_one_team_per_new_cell storage_no_teams
           (TeamMembershipImportManager demo_course) f H).
Defined.

(** ** Returning early *)

(** X21.  The row loop leaves by [return False] only when the number of
    errors on record has reached [max_errors]: below the threshold every
    row of the file is looked at. *)
Theorem early_return_means_threshold_reached (w : World) (rs : list Row) (l : Locals)
    (m m' : Manager) (b : bool) :
  keys_loaded m →
  process_rows w rs l m = Ret (inr b) m' →
  b = false
  ∧ validation_errors m' ≠ []
  ∧ (max_errors m ≤ Z.of_nat (length (validation_errors m')))%Z.
Proof.
  intros K E. split; [by eapply process_rows_inr |].
  split; [by eapply process_rows_return_errors |].
  by eapply process_rows_threshold.
Qed.

Lemma early_return_means_threshold_reached_witness :
  let w := storage_no_teams in
  let f := mkInputFile demo_header
             [row_andrew_team1; row_andrew_team1; row_andrew_team1; row_joe_team2] in
  let m := loaded w (with_max_errors (TeamMembershipImportManager demo_course) 3) f in
  let res := process_rows w (rows f) (mkLocals ∅ []) m in
  returned res = Some (inr false)
  ∧ validation_errors (manager_of res) ≠ []
  ∧ (3 ≤ Z.of_nat (length (validation_errors (manager_of res))))%Z.
Proof.
  intros w f m res.
  assert (res = Ret (inr false) (manager_of res)) as H by by vm_compute.
  split; [by rewrite H |].
  apply (early_return_means_threshold_reached w (rows f) (mkLocals ∅ []) m
           (manager_of res) false (load_keys_loaded w _) H).
Defined.
